(** * File clustering pipeline (clustering2.py): model and properties

    The first half of the file embeds the program, following the source
    file top-down:

    - [Text]        Python [str] values as sequences of code points, with the
                    string methods the pipeline calls ([split], [strip],
                    [lower], [join]);
    - [Normalizer]  [normalize_line] and [get_file_structure];
    - [Codec]       [bytes.decode("utf-8")];
    - [Vectorizer]  [vectorize_structures], that is scikit-learn's
                    [TfidfVectorizer(analyzer='char', ngram_range=(3, 5))];
    - [Metric]      scikit-learn's cosine distance matrix;
    - [Neighbors]   [plot_k_distance], that is [NearestNeighbors.kneighbors];
    - [Dbscan]      [DBSCAN(eps, min_samples, metric='cosine').fit_predict];
    - [Pipeline]    [process_files], [save_clustered_files] and [main].

    The second half states and proves their properties, one module of
    facts per part.

    The program delegates vectorization, neighbour search and clustering to
    scikit-learn.  These calls are embedded as what the library computes for
    the arguments the program passes: the analyzer and the smoothed,
    L2-normalized TF-IDF weights; brute-force cosine distances
    ([1 - similarity] of the normalized rows, clipped to [0, 2]); the
    [n_neighbors] smallest distances per row; the loop of [dbscan_inner].
    Plotting and the widgets of the page are left out: [main] takes the
    values the widgets return as arguments.

    [str.lower] is embedded as CPython computes it ([do_lower],
    [lower_ucs4], [handle_capital_sigma]), over the case tables of the
    Unicode Character Database 14.0.0.

    Numbers that the program holds in floating point are modelled by real
    numbers: every statement about a weight, a norm or a distance is a
    statement about the exact value the floating-point computation
    approximates. *)

From Stdlib Require Import List NArith ZArith Bool Arith Lia.
From Stdlib Require Import Strings.String Strings.Ascii Strings.Byte.
From Stdlib Require Import Reals Lra Permutation Sorted DecimalString.
From Stdlib Require DecimalZ.
From Equations Require Import Equations.
Import ListNotations.

(* ===================================================================== *)
(** ** Exceptions *)
(* ===================================================================== *)

(** The exceptions the pipeline can end with.  The program defines no
    exception class of its own and catches none of these: each one is
    raised inside scikit-learn and leaves [main]. *)
Inductive exn : Type :=
| ValueError (message : string)
| InvalidParameterError (message : string).

Inductive result (A : Type) : Type :=
| Ok (a : A)
| Raise (e : exn).
Arguments Ok {A} a.
Arguments Raise {A} e.

Definition bind {A B} (r : result A) (k : A -> result B) : result B :=
  match r with
  | Ok a => k a
  | Raise e => Raise e
  end.

Declare Scope py_scope.
Delimit Scope py_scope with py.
Notation "x <- r ;; k" := (bind r (fun x => k))
  (at level 61, r at next level, right associativity) : py_scope.

(* ===================================================================== *)
(** ** Python strings *)
(* ===================================================================== *)

Module Text.

(** A [str] is a sequence of Unicode code points. *)
Definition codepoint := N.
Definition str := list codepoint.

Definition LF : codepoint := 10%N.
Definition SPACE : codepoint := 32%N.

(** [str.isspace] on one character, which is also what [str.strip()] with no
    argument and the regular expression class [\s] test: U+0009..U+000D,
    U+001C..U+0020, U+0085, U+00A0, U+1680, U+2000..U+200A, U+2028, U+2029,
    U+202F, U+205F and U+3000. *)
Definition isspace (c : codepoint) : bool :=
  (((9 <=? c) && (c <=? 13)) || ((28 <=? c) && (c <=? 32))
   || (c =? 133) || (c =? 160) || (c =? 5760)
   || ((8192 <=? c) && (c <=? 8202))
   || (c =? 8232) || (c =? 8233) || (c =? 8239) || (c =? 8287)
   || (c =? 12288))%N.

Fixpoint dropwhile {A} (p : A -> bool) (l : list A) : list A :=
  match l with
  | [] => []
  | x :: l' => if p x then dropwhile p l' else l
  end.

Definition lstrip (s : str) : str := dropwhile isspace s.
Definition rstrip (s : str) : str := rev (dropwhile isspace (rev s)).

(** [s.strip()] *)
Definition strip (s : str) : str := rstrip (lstrip s).

(** [s.split(sep)] for a one-character separator: never the empty list,
    [''.split('\n') == ['']]. *)
Fixpoint split (sep : codepoint) (s : str) : list str :=
  match s with
  | [] => [[]]
  | c :: s' =>
      if (c =? sep)%N then [] :: split sep s'
      else match split sep s' with
           | l :: ls => (c :: l) :: ls
           | [] => [[c]]
           end
  end.

(** [sep.join(parts)] *)
Fixpoint join (sep : str) (parts : list str) : str :=
  match parts with
  | [] => []
  | [p] => p
  | p :: rest => p ++ sep ++ join sep rest
  end.

(** Truth value of a string: [if s:] holds for the non-empty ones. *)
Definition truthy (s : str) : bool :=
  match s with [] => false | _ :: _ => true end.

(** *** [str.lower]

    [str.lower] maps each character through the case data of the Unicode
    Character Database and is not a character-by-character map: U+0130
    becomes two code points, and the capital sigma U+03A3 becomes the
    final or the non-final small sigma according to the characters around
    it.  The three tables below are the data of version 14.0.0 of the
    database, the one CPython 3.11 carries.

    A row [(first, last, step, target)] of [lower_table] gives the simple
    lower-case mappings of [first], [first + step], ..., [last]: they are
    [target], [target + step], ...  A code point in no row is its own
    lower case. *)
Definition lower_table : list (N * N * N * N) :=
  [(65, 90, 1, 97); (192, 214, 1, 224); (216, 222, 1, 248);
   (256, 302, 2, 257); (306, 310, 2, 307); (313, 327, 2, 314);
   (330, 374, 2, 331); (376, 376, 1, 255); (377, 381, 2, 378);
   (385, 385, 1, 595); (386, 388, 2, 387); (390, 390, 1, 596);
   (391, 391, 1, 392); (393, 394, 1, 598); (395, 395, 1, 396);
   (398, 398, 1, 477); (399, 399, 1, 601); (400, 400, 1, 603);
   (401, 401, 1, 402); (403, 403, 1, 608); (404, 404, 1, 611);
   (406, 406, 1, 617); (407, 407, 1, 616); (408, 408, 1, 409);
   (412, 412, 1, 623); (413, 413, 1, 626); (415, 415, 1, 629);
   (416, 420, 2, 417); (422, 422, 1, 640); (423, 423, 1, 424);
   (425, 425, 1, 643); (428, 428, 1, 429); (430, 430, 1, 648);
   (431, 431, 1, 432); (433, 434, 1, 650); (435, 437, 2, 436);
   (439, 439, 1, 658); (440, 440, 1, 441); (444, 444, 1, 445);
   (452, 452, 1, 454); (453, 453, 1, 454); (455, 455, 1, 457);
   (456, 456, 1, 457); (458, 458, 1, 460); (459, 475, 2, 460);
   (478, 494, 2, 479); (497, 497, 1, 499); (498, 500, 2, 499);
   (502, 502, 1, 405); (503, 503, 1, 447); (504, 542, 2, 505);
   (544, 544, 1, 414); (546, 562, 2, 547); (570, 570, 1, 11365);
   (571, 571, 1, 572); (573, 573, 1, 410); (574, 574, 1, 11366);
   (577, 577, 1, 578); (579, 579, 1, 384); (580, 580, 1, 649);
   (581, 581, 1, 652); (582, 590, 2, 583); (880, 882, 2, 881);
   (886, 886, 1, 887); (895, 895, 1, 1011); (902, 902, 1, 940);
   (904, 906, 1, 941); (908, 908, 1, 972); (910, 911, 1, 973);
   (913, 929, 1, 945); (931, 939, 1, 963); (975, 975, 1, 983);
   (984, 1006, 2, 985); (1012, 1012, 1, 952); (1015, 1015, 1, 1016);
   (1017, 1017, 1, 1010); (1018, 1018, 1, 1019); (1021, 1023, 1, 891);
   (1024, 1039, 1, 1104); (1040, 1071, 1, 1072); (1120, 1152, 2, 1121);
   (1162, 1214, 2, 1163); (1216, 1216, 1, 1231); (1217, 1229, 2, 1218);
   (1232, 1326, 2, 1233); (1329, 1366, 1, 1377); (4256, 4293, 1, 11520);
   (4295, 4295, 1, 11559); (4301, 4301, 1, 11565); (5024, 5103, 1, 43888);
   (5104, 5109, 1, 5112); (7312, 7354, 1, 4304); (7357, 7359, 1, 4349);
   (7680, 7828, 2, 7681); (7838, 7838, 1, 223); (7840, 7934, 2, 7841);
   (7944, 7951, 1, 7936); (7960, 7965, 1, 7952); (7976, 7983, 1, 7968);
   (7992, 7999, 1, 7984); (8008, 8013, 1, 8000); (8025, 8031, 2, 8017);
   (8040, 8047, 1, 8032); (8072, 8079, 1, 8064); (8088, 8095, 1, 8080);
   (8104, 8111, 1, 8096); (8120, 8121, 1, 8112); (8122, 8123, 1, 8048);
   (8124, 8124, 1, 8115); (8136, 8139, 1, 8050); (8140, 8140, 1, 8131);
   (8152, 8153, 1, 8144); (8154, 8155, 1, 8054); (8168, 8169, 1, 8160);
   (8170, 8171, 1, 8058); (8172, 8172, 1, 8165); (8184, 8185, 1, 8056);
   (8186, 8187, 1, 8060); (8188, 8188, 1, 8179); (8486, 8486, 1, 969);
   (8490, 8490, 1, 107); (8491, 8491, 1, 229); (8498, 8498, 1, 8526);
   (8544, 8559, 1, 8560); (8579, 8579, 1, 8580); (9398, 9423, 1, 9424);
   (11264, 11311, 1, 11312); (11360, 11360, 1, 11361); (11362, 11362, 1, 619);
   (11363, 11363, 1, 7549); (11364, 11364, 1, 637); (11367, 11371, 2, 11368);
   (11373, 11373, 1, 593); (11374, 11374, 1, 625); (11375, 11375, 1, 592);
   (11376, 11376, 1, 594); (11378, 11378, 1, 11379); (11381, 11381, 1, 11382);
   (11390, 11391, 1, 575); (11392, 11490, 2, 11393); (11499, 11501, 2, 11500);
   (11506, 11506, 1, 11507); (42560, 42604, 2, 42561); (42624, 42650, 2, 42625);
   (42786, 42798, 2, 42787); (42802, 42862, 2, 42803); (42873, 42875, 2, 42874);
   (42877, 42877, 1, 7545); (42878, 42886, 2, 42879); (42891, 42891, 1, 42892);
   (42893, 42893, 1, 613); (42896, 42898, 2, 42897); (42902, 42920, 2, 42903);
   (42922, 42922, 1, 614); (42923, 42923, 1, 604); (42924, 42924, 1, 609);
   (42925, 42925, 1, 620); (42926, 42926, 1, 618); (42928, 42928, 1, 670);
   (42929, 42929, 1, 647); (42930, 42930, 1, 669); (42931, 42931, 1, 43859);
   (42932, 42946, 2, 42933); (42948, 42948, 1, 42900); (42949, 42949, 1, 642);
   (42950, 42950, 1, 7566); (42951, 42953, 2, 42952); (42960, 42960, 1, 42961);
   (42966, 42968, 2, 42967); (42997, 42997, 1, 42998); (65313, 65338, 1, 65345);
   (66560, 66599, 1, 66600); (66736, 66771, 1, 66776); (66928, 66964, 2, 66967);
   (66929, 66937, 2, 66968); (66941, 66953, 2, 66980); (66957, 66961, 2, 66996);
   (66965, 66965, 1, 67004); (68736, 68786, 1, 68800); (71840, 71871, 1, 71872);
   (93760, 93791, 1, 93792); (125184, 125217, 1, 125218)]%N.

(** The code points with the property Cased, as ranges
    [(first, last)]. *)
Definition cased_table : list (N * N) :=
  [(65, 90); (97, 122); (170, 170); (181, 181);
   (186, 186); (192, 214); (216, 246); (248, 442);
   (444, 447); (452, 659); (661, 696); (704, 705);
   (736, 740); (837, 837); (880, 883); (886, 887);
   (890, 893); (895, 895); (902, 902); (904, 906);
   (908, 908); (910, 929); (931, 1013); (1015, 1153);
   (1162, 1327); (1329, 1366); (1376, 1416); (4256, 4293);
   (4295, 4295); (4301, 4301); (4304, 4346); (4349, 4351);
   (5024, 5109); (5112, 5117); (7296, 7304); (7312, 7354);
   (7357, 7359); (7424, 7615); (7680, 7957); (7960, 7965);
   (7968, 8005); (8008, 8013); (8016, 8023); (8025, 8025);
   (8027, 8027); (8029, 8029); (8031, 8061); (8064, 8116);
   (8118, 8124); (8126, 8126); (8130, 8132); (8134, 8140);
   (8144, 8147); (8150, 8155); (8160, 8172); (8178, 8180);
   (8182, 8188); (8305, 8305); (8319, 8319); (8336, 8348);
   (8450, 8450); (8455, 8455); (8458, 8467); (8469, 8469);
   (8473, 8477); (8484, 8484); (8486, 8486); (8488, 8488);
   (8490, 8493); (8495, 8500); (8505, 8505); (8508, 8511);
   (8517, 8521); (8526, 8526); (8544, 8575); (8579, 8580);
   (9398, 9449); (11264, 11492); (11499, 11502); (11506, 11507);
   (11520, 11557); (11559, 11559); (11565, 11565); (42560, 42605);
   (42624, 42653); (42786, 42887); (42891, 42894); (42896, 42954);
   (42960, 42961); (42963, 42963); (42965, 42969); (42997, 42998);
   (43000, 43002); (43824, 43866); (43868, 43880); (43888, 43967);
   (64256, 64262); (64275, 64279); (65313, 65338); (65345, 65370);
   (66560, 66639); (66736, 66771); (66776, 66811); (66928, 66938);
   (66940, 66954); (66956, 66962); (66964, 66965); (66967, 66977);
   (66979, 66993); (66995, 67001); (67003, 67004); (67456, 67456);
   (67459, 67461); (67463, 67504); (67506, 67514); (68736, 68786);
   (68800, 68850); (71840, 71903); (93760, 93823); (119808, 119892);
   (119894, 119964); (119966, 119967); (119970, 119970); (119973, 119974);
   (119977, 119980); (119982, 119993); (119995, 119995); (119997, 120003);
   (120005, 120069); (120071, 120074); (120077, 120084); (120086, 120092);
   (120094, 120121); (120123, 120126); (120128, 120132); (120134, 120134);
   (120138, 120144); (120146, 120485); (120488, 120512); (120514, 120538);
   (120540, 120570); (120572, 120596); (120598, 120628); (120630, 120654);
   (120656, 120686); (120688, 120712); (120714, 120744); (120746, 120770);
   (120772, 120779); (122624, 122633); (122635, 122654); (125184, 125251);
   (127280, 127305); (127312, 127337); (127344, 127369)]%N.

(** The code points with the property Case_Ignorable. *)
Definition case_ignorable_table : list (N * N) :=
  [(39, 39); (46, 46); (58, 58); (94, 94);
   (96, 96); (168, 168); (173, 173); (175, 175);
   (180, 180); (183, 184); (688, 879); (884, 885);
   (890, 890); (900, 901); (903, 903); (1155, 1161);
   (1369, 1369); (1375, 1375); (1425, 1469); (1471, 1471);
   (1473, 1474); (1476, 1477); (1479, 1479); (1524, 1524);
   (1536, 1541); (1552, 1562); (1564, 1564); (1600, 1600);
   (1611, 1631); (1648, 1648); (1750, 1757); (1759, 1768);
   (1770, 1773); (1807, 1807); (1809, 1809); (1840, 1866);
   (1958, 1968); (2027, 2037); (2042, 2042); (2045, 2045);
   (2070, 2093); (2137, 2139); (2184, 2184); (2192, 2193);
   (2200, 2207); (2249, 2306); (2362, 2362); (2364, 2364);
   (2369, 2376); (2381, 2381); (2385, 2391); (2402, 2403);
   (2417, 2417); (2433, 2433); (2492, 2492); (2497, 2500);
   (2509, 2509); (2530, 2531); (2558, 2558); (2561, 2562);
   (2620, 2620); (2625, 2626); (2631, 2632); (2635, 2637);
   (2641, 2641); (2672, 2673); (2677, 2677); (2689, 2690);
   (2748, 2748); (2753, 2757); (2759, 2760); (2765, 2765);
   (2786, 2787); (2810, 2815); (2817, 2817); (2876, 2876);
   (2879, 2879); (2881, 2884); (2893, 2893); (2901, 2902);
   (2914, 2915); (2946, 2946); (3008, 3008); (3021, 3021);
   (3072, 3072); (3076, 3076); (3132, 3132); (3134, 3136);
   (3142, 3144); (3146, 3149); (3157, 3158); (3170, 3171);
   (3201, 3201); (3260, 3260); (3263, 3263); (3270, 3270);
   (3276, 3277); (3298, 3299); (3328, 3329); (3387, 3388);
   (3393, 3396); (3405, 3405); (3426, 3427); (3457, 3457);
   (3530, 3530); (3538, 3540); (3542, 3542); (3633, 3633);
   (3636, 3642); (3654, 3662); (3761, 3761); (3764, 3772);
   (3782, 3782); (3784, 3789); (3864, 3865); (3893, 3893);
   (3895, 3895); (3897, 3897); (3953, 3966); (3968, 3972);
   (3974, 3975); (3981, 3991); (3993, 4028); (4038, 4038);
   (4141, 4144); (4146, 4151); (4153, 4154); (4157, 4158);
   (4184, 4185); (4190, 4192); (4209, 4212); (4226, 4226);
   (4229, 4230); (4237, 4237); (4253, 4253); (4348, 4348);
   (4957, 4959); (5906, 5908); (5938, 5939); (5970, 5971);
   (6002, 6003); (6068, 6069); (6071, 6077); (6086, 6086);
   (6089, 6099); (6103, 6103); (6109, 6109); (6155, 6159);
   (6211, 6211); (6277, 6278); (6313, 6313); (6432, 6434);
   (6439, 6440); (6450, 6450); (6457, 6459); (6679, 6680);
   (6683, 6683); (6742, 6742); (6744, 6750); (6752, 6752);
   (6754, 6754); (6757, 6764); (6771, 6780); (6783, 6783);
   (6823, 6823); (6832, 6862); (6912, 6915); (6964, 6964);
   (6966, 6970); (6972, 6972); (6978, 6978); (7019, 7027);
   (7040, 7041); (7074, 7077); (7080, 7081); (7083, 7085);
   (7142, 7142); (7144, 7145); (7149, 7149); (7151, 7153);
   (7212, 7219); (7222, 7223); (7288, 7293); (7376, 7378);
   (7380, 7392); (7394, 7400); (7405, 7405); (7412, 7412);
   (7416, 7417); (7468, 7530); (7544, 7544); (7579, 7679);
   (8125, 8125); (8127, 8129); (8141, 8143); (8157, 8159);
   (8173, 8175); (8189, 8190); (8203, 8207); (8216, 8217);
   (8228, 8228); (8231, 8231); (8234, 8238); (8288, 8292);
   (8294, 8303); (8305, 8305); (8319, 8319); (8336, 8348);
   (8400, 8432); (11388, 11389); (11503, 11505); (11631, 11631);
   (11647, 11647); (11744, 11775); (11823, 11823); (12293, 12293);
   (12330, 12333); (12337, 12341); (12347, 12347); (12441, 12446);
   (12540, 12542); (40981, 40981); (42232, 42237); (42508, 42508);
   (42607, 42610); (42612, 42621); (42623, 42623); (42652, 42655);
   (42736, 42737); (42752, 42785); (42864, 42864); (42888, 42890);
   (42994, 42996); (43000, 43001); (43010, 43010); (43014, 43014);
   (43019, 43019); (43045, 43046); (43052, 43052); (43204, 43205);
   (43232, 43249); (43263, 43263); (43302, 43309); (43335, 43345);
   (43392, 43394); (43443, 43443); (43446, 43449); (43452, 43453);
   (43471, 43471); (43493, 43494); (43561, 43566); (43569, 43570);
   (43573, 43574); (43587, 43587); (43596, 43596); (43632, 43632);
   (43644, 43644); (43696, 43696); (43698, 43700); (43703, 43704);
   (43710, 43711); (43713, 43713); (43741, 43741); (43756, 43757);
   (43763, 43764); (43766, 43766); (43867, 43871); (43881, 43883);
   (44005, 44005); (44008, 44008); (44013, 44013); (64286, 64286);
   (64434, 64450); (65024, 65039); (65043, 65043); (65056, 65071);
   (65106, 65106); (65109, 65109); (65279, 65279); (65287, 65287);
   (65294, 65294); (65306, 65306); (65342, 65342); (65344, 65344);
   (65392, 65392); (65438, 65439); (65507, 65507); (65529, 65531);
   (66045, 66045); (66272, 66272); (66422, 66426); (67456, 67461);
   (67463, 67504); (67506, 67514); (68097, 68099); (68101, 68102);
   (68108, 68111); (68152, 68154); (68159, 68159); (68325, 68326);
   (68900, 68903); (69291, 69292); (69446, 69456); (69506, 69509);
   (69633, 69633); (69688, 69702); (69744, 69744); (69747, 69748);
   (69759, 69761); (69811, 69814); (69817, 69818); (69821, 69821);
   (69826, 69826); (69837, 69837); (69888, 69890); (69927, 69931);
   (69933, 69940); (70003, 70003); (70016, 70017); (70070, 70078);
   (70089, 70092); (70095, 70095); (70191, 70193); (70196, 70196);
   (70198, 70199); (70206, 70206); (70367, 70367); (70371, 70378);
   (70400, 70401); (70459, 70460); (70464, 70464); (70502, 70508);
   (70512, 70516); (70712, 70719); (70722, 70724); (70726, 70726);
   (70750, 70750); (70835, 70840); (70842, 70842); (70847, 70848);
   (70850, 70851); (71090, 71093); (71100, 71101); (71103, 71104);
   (71132, 71133); (71219, 71226); (71229, 71229); (71231, 71232);
   (71339, 71339); (71341, 71341); (71344, 71349); (71351, 71351);
   (71453, 71455); (71458, 71461); (71463, 71467); (71727, 71735);
   (71737, 71738); (71995, 71996); (71998, 71998); (72003, 72003);
   (72148, 72151); (72154, 72155); (72160, 72160); (72193, 72202);
   (72243, 72248); (72251, 72254); (72263, 72263); (72273, 72278);
   (72281, 72283); (72330, 72342); (72344, 72345); (72752, 72758);
   (72760, 72765); (72767, 72767); (72850, 72871); (72874, 72880);
   (72882, 72883); (72885, 72886); (73009, 73014); (73018, 73018);
   (73020, 73021); (73023, 73029); (73031, 73031); (73104, 73105);
   (73109, 73109); (73111, 73111); (73459, 73460); (78896, 78904);
   (92912, 92916); (92976, 92982); (92992, 92995); (94031, 94031);
   (94095, 94111); (94176, 94177); (94179, 94180); (110576, 110579);
   (110581, 110587); (110589, 110590); (113821, 113822); (113824, 113827);
   (118528, 118573); (118576, 118598); (119143, 119145); (119155, 119170);
   (119173, 119179); (119210, 119213); (119362, 119364); (121344, 121398);
   (121403, 121452); (121461, 121461); (121476, 121476); (121499, 121503);
   (121505, 121519); (122880, 122886); (122888, 122904); (122907, 122913);
   (122915, 122916); (122918, 122922); (123184, 123197); (123566, 123566);
   (123628, 123631); (125136, 125142); (125252, 125259); (127995, 127999);
   (917505, 917505); (917536, 917631); (917760, 917999)]%N.

Definition in_row (c : codepoint) (row : N * N * N * N) : bool :=
  let '(first, last, step, _) := row in
  ((first <=? c) && (c <=? last) && ((c - first) mod step =? 0))%N.

(** [_PyUnicode_ToLowercase]: the simple lower-case mapping. *)
Definition to_lower (c : codepoint) : codepoint :=
  match find (in_row c) lower_table with
  | Some (first, _, _, target) => (target + (c - first))%N
  | None => c
  end.

(** [_PyUnicode_ToLowerFull]: U+0130, capital I with dot above, is the one
    code point whose lower case takes two code points, i and the combining
    dot above. *)
Definition to_lower_full (c : codepoint) : list codepoint :=
  if (c =? 304)%N then [105; 775]%N else [to_lower c].

Definition in_ranges (table : list (N * N)) (c : codepoint) : bool :=
  existsb (fun '(first, last) => ((first <=? c) && (c <=? last))%N) table.

(** [_PyUnicode_IsCased] and [_PyUnicode_IsCaseIgnorable] *)
Definition is_cased (c : codepoint) : bool := in_ranges cased_table c.
Definition is_case_ignorable (c : codepoint) : bool :=
  in_ranges case_ignorable_table c.

Definition CAPITAL_SIGMA : codepoint := 931%N.
Definition FINAL_SIGMA : codepoint := 962%N.
Definition SMALL_SIGMA : codepoint := 963%N.

(** [handle_capital_sigma]: a capital sigma is in final position when,
    case-ignorable characters skipped, a cased character comes before it
    and none comes after it.  [before] holds the characters before the
    sigma, the nearest first; [after] those after it. *)
Definition final_sigma (before after : list codepoint) : bool :=
  match dropwhile is_case_ignorable before with
  | c :: _ => is_cased c
  | [] => false
  end
  && match dropwhile is_case_ignorable after with
     | c :: _ => negb (is_cased c)
     | [] => true
     end.

Definition handle_capital_sigma (before after : list codepoint) : codepoint :=
  if final_sigma before after then FINAL_SIGMA else SMALL_SIGMA.

(** [lower_ucs4]: the lower case of the character [c] found between
    [before] and [after]. *)
Definition lower_ucs4 (before : list codepoint) (c : codepoint)
    (after : list codepoint) : list codepoint :=
  if (c =? CAPITAL_SIGMA)%N then [handle_capital_sigma before after]
  else to_lower_full c.

(** [do_lower]: the characters of the string, each one lower-cased where
    it stands. *)
Fixpoint do_lower (before : list codepoint) (s : str) : str :=
  match s with
  | [] => []
  | c :: after => lower_ucs4 before c after ++ do_lower (c :: before) after
  end.

(** [s.lower()] *)
Definition lower (s : str) : str := do_lower [] s.

End Text.

(* ===================================================================== *)
(** ** Normalizer: [normalize_line] and [get_file_structure] *)
(* ===================================================================== *)

Module Normalizer.
Import Text.

(** [line.strip().lower()] *)
Definition normalize_line (line : str) : str := lower (strip line).

(** The body of the [try] block: the [except] branch is not reachable
    when [file_content] is a [str], since [split], [strip], [lower] and
    [join] do not raise on strings. *)
Definition get_file_structure (file_content : str) : str :=
  let lines := split LF file_content in
  let cleaned_lines :=
    map normalize_line (filter (fun line => truthy (strip line)) lines) in
  join [SPACE] cleaned_lines.

End Normalizer.

(* ===================================================================== *)
(** ** Codec: [bytes.decode("utf-8")] *)
(* ===================================================================== *)

Module Codec.
Import Text.

Definition bytes := list byte.

Definition continuation (b : N) : bool := ((128 <=? b) && (b <=? 191))%N.

(** Strict UTF-8 decoding of a sequence of byte values.  [None] stands for
    [UnicodeDecodeError]: a stray or missing continuation byte, an overlong
    form, a surrogate (U+D800..U+DFFF) or a code point above U+10FFFF. *)
Fixpoint decode_values (bs : list N) : option str :=
  match bs with
  | [] => Some []
  | b0 :: r0 =>
      if (b0 <? 128)%N then option_map (cons b0) (decode_values r0)
      else match r0 with
      | [] => None
      | b1 :: r1 =>
          if negb (continuation b1) then None
          else if ((194 <=? b0) && (b0 <=? 223))%N then
            option_map (cons ((b0 - 192) * 64 + (b1 - 128))%N) (decode_values r1)
          else match r1 with
          | [] => None
          | b2 :: r2 =>
              if negb (continuation b2) then None
              else if ((224 <=? b0) && (b0 <=? 239))%N then
                let c := ((b0 - 224) * 4096 + (b1 - 128) * 64 + (b2 - 128))%N in
                if ((2048 <=? c) && negb ((55296 <=? c) && (c <=? 57343)))%N
                then option_map (cons c) (decode_values r2)
                else None
              else match r2 with
              | [] => None
              | b3 :: r3 =>
                  if negb (continuation b3) then None
                  else if ((240 <=? b0) && (b0 <=? 244))%N then
                    let c := ((b0 - 240) * 262144 + (b1 - 128) * 4096
                              + (b2 - 128) * 64 + (b3 - 128))%N in
                    if ((65536 <=? c) && (c <=? 1114111))%N
                    then option_map (cons c) (decode_values r3)
                    else None
                  else None
              end
          end
      end
  end.

(** [data.decode("utf-8")] *)
Definition decode (data : bytes) : option str :=
  decode_values (map Byte.to_N data).

(** Literals for examples: the code points, and the UTF-8 bytes, of a text
    written with ASCII characters only. *)
Definition of_string (s : string) : str :=
  map (fun a => N.of_nat (Ascii.nat_of_ascii a)) (list_ascii_of_string s).

Definition bytes_of_string (s : string) : bytes := list_byte_of_string s.

End Codec.

(* ===================================================================== *)
(** ** Vectorizer: [TfidfVectorizer(analyzer='char', ngram_range=(3, 5))] *)
(* ===================================================================== *)

Module Vectorizer.
Import Text.
Local Open Scope R_scope.

Definition vector := list R.
Definition matrix := list vector.

(** [_white_spaces.sub(" ", text)] with [_white_spaces = re.compile(r"\s\s+")]:
    every maximal run of two or more white-space characters becomes one
    space, a lone white-space character stays.  [pending] is what the run
    being read will be written as. *)
Fixpoint collapse_from (pending : option codepoint) (s : str) : str :=
  match pending, s with
  | None, [] => []
  | Some x, [] => [x]
  | None, c :: s' =>
      if isspace c then collapse_from (Some c) s'
      else c :: collapse_from None s'
  | Some x, c :: s' =>
      if isspace c then collapse_from (Some SPACE) s'
      else x :: c :: collapse_from None s'
  end.

Definition collapse_spaces : str -> str := collapse_from None.

(** [[text[i : i + n] for i in range(len(text) - n + 1)]] *)
Fixpoint windows (n : nat) (s : str) : list str :=
  match s with
  | [] => []
  | _ :: s' =>
      if (n <=? List.length s)%nat then firstn n s :: windows n s' else []
  end.

Definition min_n : nat := 3.
Definition max_n : nat := 5.

(** [_char_ngrams]: for [n] in [range(min_n, min(max_n + 1, len + 1))], all
    windows of width [n], the narrower ones first. *)
Definition char_ngrams (text : str) : list str :=
  let stop := Nat.min (max_n + 1) (List.length text + 1) in
  flat_map (fun n => windows n text) (seq min_n (stop - min_n)).

(** The analyzer: preprocess ([lowercase=True]), collapse white space, cut
    into n-grams. *)
Definition analyze (doc : str) : list str :=
  char_ngrams (collapse_spaces (lower doc)).

(** Python's order on strings: lexicographic on code points. *)
Fixpoint str_compare (a b : str) : comparison :=
  match a, b with
  | [], [] => Eq
  | [], _ :: _ => Lt
  | _ :: _, [] => Gt
  | x :: a', y :: b' =>
      match N.compare x y with
      | Eq => str_compare a' b'
      | c => c
      end
  end.

Fixpoint insert_term (t : str) (sorted : list str) : list str :=
  match sorted with
  | [] => [t]
  | u :: rest =>
      match str_compare t u with
      | Lt => t :: sorted
      | Eq => sorted
      | Gt => u :: insert_term t rest
      end
  end.

(** [vocabulary_]: the distinct n-grams of the whole corpus, in sorted
    order; the position of a term is its column. *)
Definition vocabulary (corpus : list str) : list str :=
  fold_right insert_term [] (flat_map analyze corpus).

Definition str_eq_dec : forall a b : str, {a = b} + {a <> b} :=
  list_eq_dec N.eq_dec.

(** Term frequency: the number of occurrences of the term among the n-grams
    of the document. *)
Definition tf (t : str) (doc : str) : nat := count_occ str_eq_dec (analyze doc) t.

(** Document frequency: the number of documents in which the term occurs. *)
Definition df (corpus : list str) (t : str) : nat :=
  List.length (filter (fun doc => (0 <? tf t doc)%nat) corpus).

(** [smooth_idf=True]: [idf = ln((1 + n) / (1 + df)) + 1]. *)
Definition idf (corpus : list str) (t : str) : R :=
  ln (INR (1 + List.length corpus) / INR (1 + df corpus t)) + 1.

Definition tfidf_row (corpus : list str) (doc : str) : vector :=
  map (fun t => INR (tf t doc) * idf corpus t) (vocabulary corpus).

Definition sum_squares (v : vector) : R :=
  fold_right (fun x acc => x * x + acc) 0 v.

Definition l2_norm (v : vector) : R := sqrt (sum_squares v).

(** [normalize(X, norm='l2')] on one row: a norm of zero is replaced by one
    before dividing, so a zero row stays zero. *)
Definition handle_zero (n : R) : R := if Req_dec_T n 0 then 1 else n.

Definition normalize (v : vector) : vector :=
  map (fun x => x / handle_zero (l2_norm v)) v.

Definition transform_row (corpus : list str) (doc : str) : vector :=
  normalize (tfidf_row corpus doc).

(** [fit_transform]: fails when no document has an n-gram. *)
Definition fit_transform (corpus : list str) : result matrix :=
  match vocabulary corpus with
  | [] => Raise (ValueError
            "empty vocabulary; perhaps the documents only contain stop words")
  | _ :: _ => Ok (map (transform_row corpus) corpus)
  end.

(** [vectorize_structures] returns the matrix and the fitted vectorizer, of
    which the model keeps the vocabulary. *)
Definition vectorize_structures (structures : list str)
  : result (matrix * list str) :=
  (X <- fit_transform structures ;; Ok (X, vocabulary structures))%py.

End Vectorizer.

(* ===================================================================== *)
(** ** Metric: [sklearn.metrics.pairwise.cosine_distances] *)
(* ===================================================================== *)

Module Metric.
Import Vectorizer.
Local Open Scope R_scope.

Fixpoint dot (u v : vector) : R :=
  match u, v with
  | x :: u', y :: v' => x * y + dot u' v'
  | _, _ => 0
  end.

(** [cosine_similarity]: both arguments are L2-normalized (a zero row stays
    zero) and multiplied. *)
Definition cosine_similarity (u v : vector) : R :=
  dot (normalize u) (normalize v).

(** [np.clip(x, lo, hi)] *)
Definition clip (lo hi x : R) : R := Rmin hi (Rmax lo x).

(** One entry of [cosine_distances(X, Y)] for [Y] holding the rows of [X]:
    [1 - similarity], clipped to [0, 2].  When [X] and [Y] are the same
    object ([X is Y]) the diagonal is then overwritten with 0; when [Y] is
    a copy of [X] the diagonal is computed like every other entry.  The
    entries here are the exact values: those the program holds are their
    floating-point approximations, and where the exact distance of a
    non-zero row to itself is 0, the computed one can be of the order of
    1e-16. *)
Definition cosine_distances (same_object : bool) (X : matrix) (i j : nat) : R :=
  if same_object && (i =? j)%nat then 0
  else clip 0 2 (1 - cosine_similarity (nth i X []) (nth j X [])).

End Metric.

(* ===================================================================== *)
(** ** Neighbors: [NearestNeighbors.kneighbors] and [plot_k_distance] *)
(* ===================================================================== *)

Module Neighbors.
Import Vectorizer Metric.
Local Open Scope R_scope.

Definition Rleb (x y : R) : bool := if Rle_dec x y then true else false.

(** Ascending sort of distances ([np.sort], and the ordering of each row
    that [kneighbors] returns). *)
Fixpoint insert (x : R) (l : list R) : list R :=
  match l with
  | [] => [x]
  | y :: l' => if Rleb x y then x :: l else y :: insert x l'
  end.

Definition sort (l : list R) : list R := fold_right insert [] l.

(** The distances from row [i] to every fitted row, the row itself
    included: [kneighbors] is called with the training array as the query,
    which is not the call [kneighbors()] that leaves each point out of its
    own neighbours. *)
Definition distances_from (X : matrix) (i : nat) : list R :=
  map (cosine_distances true X i) (seq 0 (List.length X)).

(** [NearestNeighbors(n_neighbors, metric='cosine').fit(X).kneighbors(X)],
    distances only: for each row the [n_neighbors] smallest distances in
    ascending order.  [X] is the dense array [X.toarray()], passed both to
    [fit] and to [kneighbors]. *)
Definition kneighbors (X : matrix) (n_neighbors : nat) : result (list (list R)) :=
  if (n_neighbors =? 0)%nat then
    Raise (InvalidParameterError "n_neighbors must be an int in the range [1, inf)")
  else if (List.length X =? 0)%nat then
    Raise (ValueError "Found array with 0 sample(s) while a minimum of 1 is required")
  else if (List.length X <? n_neighbors)%nat then
    Raise (ValueError "Expected n_neighbors <= n_samples_fit")
  else
    Ok (map (fun i => firstn n_neighbors (sort (distances_from X i)))
            (seq 0 (List.length X))).

(** [plot_k_distance]: the plotted series, [np.sort(distances[:, k - 1])]. *)
Definition plot_k_distance (X : matrix) (min_samples : nat) : result (list R) :=
  (distances <- kneighbors X min_samples ;;
   let kth_distances := map (fun row => nth (min_samples - 1) row 0) distances in
   Ok (sort kth_distances))%py.

End Neighbors.

(* ===================================================================== *)
(** ** Density clustering: [DBSCAN(eps, min_samples, metric='cosine')] *)
(* ===================================================================== *)

Module Dbscan.
Import Vectorizer Metric Neighbors.
Local Open Scope R_scope.

Definition NOISE : Z := (-1)%Z.

(** [radius_neighbors(X)]: for each row the indices [j], in increasing
    order, with [dist(i, j) <= radius].  [DBSCAN] receives the sparse
    matrix; the neighbours model fits on a copy of it, so the query and the
    fitted data are two objects and no diagonal is overwritten. *)
Definition radius_neighbors (X : matrix) (radius : R) : list (list nat) :=
  map (fun i => filter (fun j => Rleb (cosine_distances false X i j) radius)
                       (seq 0 (List.length X)))
      (seq 0 (List.length X)).

Definition unlabeled (labels : list Z) (v : nat) : bool :=
  match nth_error labels v with
  | Some l => (l =? NOISE)%Z
  | None => false
  end.

(** [labels[i] = x]: every index the clusterer writes to is in range. *)
Fixpoint update (labels : list Z) (i : nat) (x : Z) : list Z :=
  match labels, i with
  | [], _ => []
  | _ :: rest, O => x :: rest
  | l :: rest, S i' => l :: update rest i' x
  end.

(** The stack of the depth-first search, top first: pushing the elements of
    [vs] one after the other leaves the last of them on top. *)
Definition push_all (vs stack : list nat) : list nat := rev vs ++ stack.

(** One round of the [while True] loop of [dbscan_inner], up to the test of
    the stack: label [i] if it has no label yet and, if it is a core
    sample, push its neighbours that have none. *)
Definition visit (is_core : list bool) (neighborhoods : list (list nat))
    (label_num : nat) (labels : list Z) (stack : list nat) (i : nat)
  : list Z * list nat :=
  if unlabeled labels i then
    let labels' := update labels i (Z.of_nat label_num) in
    if nth i is_core false then
      let neighb := nth i neighborhoods [] in
      (labels', push_all (filter (unlabeled labels') neighb) stack)
    else (labels', stack)
  else (labels, stack).

Definition count_unlabeled (labels : list Z) : nat :=
  List.length (filter (fun l => (l =? NOISE)%Z) labels).

(** What decreases at every round: each labelling removes one unlabeled
    sample and pushes at most one neighbourhood, each other round pops. *)
Definition dfs_measure (neighborhoods : list (list nat))
    (labels : list Z) (stack : list nat) : nat :=
  count_unlabeled labels * S (list_max (map (@List.length nat) neighborhoods))
  + List.length stack.

Lemma count_unlabeled_update labels i (n : nat) :
  unlabeled labels i = true ->
  S (count_unlabeled (update labels i (Z.of_nat n))) = count_unlabeled labels.
Proof.
  unfold unlabeled, count_unlabeled. revert i.
  induction labels as [|l labels IH]; intros [|i]; simpl; try discriminate.
  - intros ->. destruct (Z.eqb_spec (Z.of_nat n) NOISE) as [E|_].
    + unfold NOISE in E. lia.
    + reflexivity.
  - intros H. destruct (l =? NOISE)%Z; simpl; now rewrite <- (IH i H).
Qed.

Lemma visit_measure is_core neighborhoods label_num labels stack i labels' v rest :
  visit is_core neighborhoods label_num labels stack i = (labels', v :: rest) ->
  (dfs_measure neighborhoods labels' rest < dfs_measure neighborhoods labels stack)%nat.
Proof.
  unfold visit, dfs_measure.
  set (m := list_max (map (@List.length nat) neighborhoods)).
  destruct (unlabeled labels i) eqn:U.
  - pose proof (count_unlabeled_update labels i label_num U) as Hc.
    destruct (nth i is_core false).
    + intros [= <- E].
      assert (Hlen : (List.length (nth i neighborhoods []) <= m)%nat).
      { destruct (Nat.lt_ge_cases i (List.length neighborhoods)) as [Hi|Hi].
        - assert (Hall := proj1 (list_max_le (map (@List.length nat) neighborhoods) m)
                               (Nat.le_refl _)).
          rewrite Forall_forall in Hall. apply Hall, in_map, nth_In, Hi.
        - rewrite (nth_overflow _ _ Hi). simpl. lia. }
      apply (f_equal (@List.length nat)) in E.
      unfold push_all in E. rewrite length_app, length_rev in E. simpl in E.
      pose proof (filter_length_le
        (unlabeled (update labels i (Z.of_nat label_num)))
        (nth i neighborhoods [])) as Hf.
      nia.
    + intros [= <- ->]. simpl. nia.
  - intros [= <- ->]. simpl. lia.
Qed.

Definition inspect {A : Type} (x : A) : {y : A | x = y} := exist _ x eq_refl.

(** The [while True] loop: visit [i]; stop when the stack is empty,
    otherwise pop the next sample to visit. *)
Equations? expand (is_core : list bool) (neighborhoods : list (list nat))
    (label_num : nat) (labels : list Z) (stack : list nat) (i : nat)
  : list Z by wf (dfs_measure neighborhoods labels stack) lt :=
  expand is_core neighborhoods label_num labels stack i
    with inspect (visit is_core neighborhoods label_num labels stack i) := {
    | exist _ (labels', []) _ => labels'
    | exist _ (labels', v :: rest) Hvisit =>
        expand is_core neighborhoods label_num labels' rest v }.
Proof. exact (visit_measure _ _ _ _ _ _ _ _ _ Hvisit). Qed.

(** The [for i in range(labels.shape[0])] loop: a core sample without a
    label starts the next cluster. *)
Definition start_cluster (is_core : list bool) (neighborhoods : list (list nat))
    (state : list Z * nat) (i : nat) : list Z * nat :=
  let '(labels, label_num) := state in
  if negb (unlabeled labels i) || negb (nth i is_core false) then state
  else (expand is_core neighborhoods label_num labels [] i, S label_num).

Definition dbscan_inner (is_core : list bool) (neighborhoods : list (list nat))
    (labels : list Z) : list Z :=
  fst (fold_left (start_cluster is_core neighborhoods)
                 (seq 0 (List.length labels)) (labels, O)).

(** [DBSCAN(eps, min_samples, metric='cosine').fit_predict(X)]: parameters
    are validated, then the input, then the neighbourhoods are computed and
    the clusters grown from labels that all start as noise. *)
Definition fit_predict (X : matrix) (eps : R) (min_samples : nat) : result (list Z) :=
  if Rleb eps 0 then
    Raise (InvalidParameterError "eps must be a float in the range (0.0, inf)")
  else if (min_samples =? 0)%nat then
    Raise (InvalidParameterError "min_samples must be an int in the range [1, inf)")
  else if (List.length X =? 0)%nat then
    Raise (ValueError "Found array with 0 sample(s) while a minimum of 1 is required")
  else
    let neighborhoods := radius_neighbors X eps in
    let core_samples :=
      map (fun neighbors => (min_samples <=? List.length neighbors)%nat) neighborhoods in
    Ok (dbscan_inner core_samples neighborhoods (repeat NOISE (List.length X))).

End Dbscan.

(* ===================================================================== *)
(** ** Pipeline: [process_files], [save_clustered_files], [main] *)
(* ===================================================================== *)

Module Pipeline.
Import Text Normalizer Codec Vectorizer Neighbors Dbscan.

(** An uploaded file: its [name] and the bytes [getvalue()] returns. *)
Record UploadedFile : Type := {
  name : str;
  getvalue : bytes
}.

(** The body of [for file in files]: a file that does not decode is
    reported and skipped ([continue]); a file whose structure is the empty
    string is skipped by [if structure:]; any other file and its structure
    are appended to the two lists. *)
Definition process_file (acc : list UploadedFile * list str) (file : UploadedFile)
  : list UploadedFile * list str :=
  let '(processed_files, structures) := acc in
  match decode (getvalue file) with
  | None => acc
  | Some content =>
      let structure := get_file_structure content in
      if truthy structure
      then (processed_files ++ [file], structures ++ [structure])
      else acc
  end.

(** [process_files]: [Ok None] is the return of [None, None, None] after the
    warning that there is nothing to cluster. *)
Definition process_files (files : list UploadedFile)
  : result (option (list UploadedFile * list str * matrix)) :=
  let '(processed_files, structures) := fold_left process_file files ([], []) in
  match processed_files with
  | [] => Ok None
  | _ :: _ =>
      (Xv <- vectorize_structures structures ;;
       let file_names := map name processed_files in
       Ok (Some (processed_files, file_names, fst Xv)))%py
  end.

(** [str(label)], in code points. *)
Definition str_of_Z (z : Z) : str :=
  of_string (NilEmpty.string_of_int (Z.to_int z)).

(** [f"cluster_{label}"] *)
Definition folder_name (label : Z) : str :=
  of_string "cluster_" ++ str_of_Z label.

(** A member written by [zip_file.writestr(file_path, file_content)].  The
    path [os.path.join(folder_name, file.name)] is kept as its two
    components: uploaded files carry a base name, without separators. *)
Record ZipEntry : Type := {
  folder : str;
  filename : str;
  content : bytes
}.

Definition writestr (zip_file : list ZipEntry) (folder_name file_name : str)
    (file_content : bytes) : list ZipEntry :=
  zip_file ++ [{| folder := folder_name; filename := file_name;
                  content := file_content |}].

(** [save_clustered_files]: one [writestr] per pair of [zip(processed_files,
    labels)], in order. *)
Definition save_clustered_files (processed_files : list UploadedFile)
    (labels : list Z) : list ZipEntry :=
  fold_left (fun zip_file '(file, label) =>
               writestr zip_file (folder_name label) (name file) (getvalue file))
            (combine processed_files labels) [].

(** [visualize_clusters]: [PCA(n_components=2)] needs at least two samples
    and two features. *)
Definition visualize_clusters (X : matrix) : result unit :=
  if (Nat.min (List.length X) (List.length (nth 0 X [])) <? 2)%nat then
    Raise (ValueError "n_components=2 must be between 0 and min(n_samples, n_features)")
  else Ok tt.

(** The steps of one run of [main] that compute something. *)
Inductive stage : Type :=
| Vectorized
| KDistancePlotted
| Clustered
| Visualized
| Archived.

(** A run logs the stages it completes and ends with a value or with an
    exception. *)
Definition run (A : Type) : Type := list stage -> list stage * result A.

Definition ret {A} (a : A) : run A := fun log => (log, Ok a).

Definition bind_run {A B} (m : run A) (k : A -> run B) : run B :=
  fun log =>
    match m log with
    | (log', Ok a) => k a log'
    | (log', Raise e) => (log', Raise e)
    end.

Definition lift {A} (r : result A) : run A := fun log => (log, r).

Definition done (s : stage) : run unit := fun log => (log ++ [s], Ok tt).

Declare Scope run_scope.
Delimit Scope run_scope with run.
Notation "x <-- m ;; k" := (bind_run m (fun x => k))
  (at level 61, m at next level, right associativity) : run_scope.

(** What a run of [main] leaves: the labels and, when the save button was
    pressed, the archive.  [None] when nothing was clustered. *)
Definition main_body (uploaded_files : list UploadedFile)
    (min_samples_elbow : nat) (eps : R) (min_samples_dbscan : nat)
    (save : bool) : run (option (list Z * option (list ZipEntry))) :=
  (match uploaded_files with
   | [] => ret None
   | _ :: _ =>
       processed <-- lift (process_files uploaded_files) ;;
       match processed with
       | None => ret None
       | Some (processed_files, file_names, X) =>
           _ <-- done Vectorized ;;
           _ <-- lift (plot_k_distance X min_samples_elbow) ;;
           _ <-- done KDistancePlotted ;;
           labels <-- lift (fit_predict X eps min_samples_dbscan) ;;
           _ <-- done Clustered ;;
           _ <-- lift (visualize_clusters X) ;;
           _ <-- done Visualized ;;
           if save then
             let archive := save_clustered_files processed_files labels in
             _ <-- done Archived ;;
             ret (Some (labels, Some archive))
           else ret (Some (labels, None))
       end
   end)%run.

Definition main (uploaded_files : list UploadedFile)
    (min_samples_elbow : nat) (eps : R) (min_samples_dbscan : nat)
    (save : bool) : list stage * result (option (list Z * option (list ZipEntry))) :=
  main_body uploaded_files min_samples_elbow eps min_samples_dbscan save [].

End Pipeline.

(* ===================================================================== *)
(** ** The embedding at work *)
(* ===================================================================== *)

Module Examples.
Import Text Normalizer Codec Vectorizer Dbscan Pipeline.

(** [get_file_structure(" Hi\n\n \t\nA B \r\n")] is ["hi a b"]. *)
Example get_file_structure_sample :
  get_file_structure [32; 72; 105; 10; 10; 32; 9; 10; 65; 32; 66; 32; 13; 10]%N
  = of_string "hi a b".
Proof. reflexivity. Qed.

Example get_file_structure_blank :
  get_file_structure [32; 10; 9; 10]%N = [].
Proof. reflexivity. Qed.

(** ["".split("\n")] and ["\nA\n".split("\n")]. *)
Example split_samples :
  split LF [] = [[]] /\ split LF [10; 65; 10]%N = [[]; [65%N]; []].
Proof. split; reflexivity. Qed.

(** The bytes of a Cyrillic word decode to its three code points, which
    [lower] maps to the small letters. *)
Example decode_cyrillic :
  decode [xd0; x9f; xd1; x80; xd0; xb8] = Some [1055; 1088; 1080]%N
  /\ lower [1055; 1088; 1080]%N = [1087; 1088; 1080]%N.
Proof. split; reflexivity. Qed.

(** [str.lower] on Greek: a word that ends with a sigma; a sigma that
    starts a word and one that ends it; a sigma on its own; sigmas before a
    space and before a full stop; a sigma that a combining dot separates
    from the next one.  Then U+0130, which takes two code points, and the
    capital omega. *)
Example lower_samples :
  lower [927; 916; 927; 931]%N = [959; 948; 959; 962]%N
  /\ lower [931; 927; 931]%N = [963; 959; 962]%N
  /\ lower [931]%N = [963]%N
  /\ lower [913; 931; 32; 914; 931; 46]%N = [945; 962; 32; 946; 962; 46]%N
  /\ lower [931; 775; 931]%N = [963; 775; 962]%N
  /\ lower [97; 304]%N = [97; 105; 775]%N
  /\ lower [937]%N = [969]%N.
Proof. repeat split; reflexivity. Qed.

(** A text of two characters whose structure has three, and so one
    n-gram. *)
Example analyze_dotted_capital_i :
  get_file_structure [97; 304]%N = [97; 105; 775]%N
  /\ analyze [97; 105; 775]%N = [[97; 105; 775]%N].
Proof. split; reflexivity. Qed.

(** A lone continuation byte, an overlong form, a surrogate and a code
    point above U+10FFFF do not decode. *)
Example decode_invalid :
  decode [x80] = None /\ decode [xc0; x80] = None
  /\ decode [xed; xa0; x80] = None /\ decode [xf4; x90; x80; x80] = None.
Proof. repeat split; reflexivity. Qed.

Example collapse_spaces_sample :
  collapse_spaces (of_string "a  b c   d ") = of_string "a b c d ".
Proof. reflexivity. Qed.

(** The n-grams of [hello]: three of width 3, two of width 4, one of
    width 5; and its vocabulary in sorted order. *)
Example analyze_hello :
  analyze (of_string "hello")
  = map of_string ["hel"; "ell"; "llo"; "hell"; "ello"; "hello"]%string
  /\ vocabulary [of_string "hello"]
     = map of_string ["ell"; "ello"; "hel"; "hell"; "hello"; "llo"]%string.
Proof. split; reflexivity. Qed.

Example analyze_short : analyze (of_string "ab") = [].
Proof. reflexivity. Qed.

(** Samples 0 and 1 are core samples and neighbours, sample 2 is a border
    point of sample 0, sample 3 is a core sample on its own, sample 4 is
    not a core sample and nobody's neighbour. *)
Example dbscan_inner_sample :
  dbscan_inner [true; true; false; true; false]
    [[0; 1; 2]; [0; 1]; [0; 2]; [3]; []]%nat (repeat NOISE 5)
  = [0; 0; 0; 1; -1]%Z.
Proof. reflexivity. Qed.

(** A border point reached from two clusters keeps the first label. *)
Example dbscan_inner_border :
  dbscan_inner [true; false; true] [[0; 1]; [0; 1; 2]; [1; 2]]%nat
    (repeat NOISE 3)
  = [0; 0; 1]%Z.
Proof. reflexivity. Qed.

Example folder_name_samples :
  folder_name (-1) = of_string "cluster_-1"
  /\ folder_name 12 = of_string "cluster_12".
Proof. split; reflexivity. Qed.

Example save_clustered_files_sample :
  save_clustered_files
    [{| name := of_string "a"; getvalue := [x41] |};
     {| name := of_string "b"; getvalue := [x42] |}] [0; -1]%Z
  = [{| folder := of_string "cluster_0"; filename := of_string "a";
        content := [x41] |};
     {| folder := of_string "cluster_-1"; filename := of_string "b";
        content := [x42] |}].
Proof. reflexivity. Qed.

End Examples.

(* ===================================================================== *)
(** ** Properties of [str.lower] *)
(* ===================================================================== *)

Module CaseFacts.
Import Text.

(** *** The table of simple mappings *)

(** The code points a row of [lower_table] maps. *)
Definition row_domain (row : N * N * N * N) : list codepoint :=
  let '(first, last, step, _) := row in
  map (fun k => first + N.of_nat k * step)%N
      (seq 0 (S (N.to_nat ((last - first) / step)))).

Lemma in_row_domain c first last step target :
  step <> 0%N -> in_row c (first, last, step, target) = true ->
  In c (row_domain (first, last, step, target)).
Proof.
  intros Hs H. unfold in_row in H.
  apply andb_true_iff in H. destruct H as [H Hm].
  apply andb_true_iff in H. destruct H as [Hlo Hhi].
  apply N.leb_le in Hlo, Hhi. apply N.eqb_eq in Hm.
  unfold row_domain. apply in_map_iff.
  exists (N.to_nat ((c - first) / step)). split.
  - rewrite N2Nat.id. pose proof (N.div_mod (c - first) step Hs) as E.
    rewrite Hm in E. nia.
  - apply in_seq. split; [apply Nat.le_0_l|].
    assert (H : ((c - first) / step <= (last - first) / step)%N)
      by (apply N.Div0.div_le_mono; lia).
    revert H. generalize ((c - first) / step)%N ((last - first) / step)%N.
    intros q1 q2 H. lia.
Qed.

(** A code point that lower-casing leaves as it is, wherever it stands:
    it is not the capital sigma and it is its own lower case. *)
Definition stableb (d : codepoint) : bool :=
  (negb (d =? CAPITAL_SIGMA) && negb (d =? 304) && (to_lower d =? d))%N.

Definition stable (d : codepoint) : Prop := stableb d = true.

(** What is checked of a row: a lower-case mapping is stable and is not
    white space, and no white space has one. *)
Definition row_ok (row : N * N * N * N) : bool :=
  let '(first, _, step, target) := row in
  negb (step =? 0)%N
  && forallb (fun c => let d := (target + (c - first))%N in
                       stableb d && negb (isspace d) && negb (isspace c))
             (row_domain row).

Lemma lower_table_ok : forallb row_ok lower_table = true.
Proof. vm_compute. reflexivity. Qed.

Lemma to_lower_cases c :
  to_lower c = c
  \/ (isspace c = false /\ isspace (to_lower c) = false
      /\ stable (to_lower c)).
Proof.
  unfold to_lower.
  destruct (find (in_row c) lower_table) as [[[[first last] step] target]|] eqn:E;
    [right | now left].
  apply find_some in E. destruct E as [Hin Hrow].
  pose proof lower_table_ok as Hok. rewrite forallb_forall in Hok.
  specialize (Hok _ Hin). unfold row_ok in Hok.
  apply andb_true_iff in Hok. destruct Hok as [Hs Hok].
  apply negb_true_iff, N.eqb_neq in Hs.
  rewrite forallb_forall in Hok.
  specialize (Hok c (in_row_domain c first last step target Hs Hrow)).
  cbv zeta in Hok.
  apply andb_true_iff in Hok. destruct Hok as [Hok H3].
  apply andb_true_iff in Hok. destruct Hok as [H1 H2].
  apply negb_true_iff in H2, H3. now repeat split.
Qed.

Lemma stable_spec d : stable d -> d <> CAPITAL_SIGMA /\ to_lower_full d = [d].
Proof.
  unfold stable, stableb, to_lower_full. intros H.
  apply andb_true_iff in H. destruct H as [H H3].
  apply andb_true_iff in H. destruct H as [H1 H2].
  apply negb_true_iff, N.eqb_neq in H1. apply negb_true_iff in H2.
  apply N.eqb_eq in H3. now rewrite H2, H3.
Qed.

Lemma to_lower_space c : isspace c = true -> to_lower c = c.
Proof.
  intros H. destruct (to_lower_cases c) as [E|(E & _)]; [exact E | congruence].
Qed.

Lemma space_stable c : isspace c = true -> stable c.
Proof.
  intros H. unfold stable, stableb. rewrite (to_lower_space c H), N.eqb_refl.
  destruct (N.eqb_spec c CAPITAL_SIGMA) as [->|_];
    [cbv in H; discriminate H|].
  destruct (N.eqb_spec c 304) as [->|_];
    [cbv in H; discriminate H | reflexivity].
Qed.

Lemma to_lower_full_space c : isspace c = true -> to_lower_full c = [c].
Proof. intros H. now apply stable_spec, space_stable. Qed.

Lemma to_lower_full_nonspace c :
  isspace c = false -> Forall (fun d => isspace d = false) (to_lower_full c).
Proof.
  intros H. unfold to_lower_full.
  destruct (c =? 304)%N; [repeat constructor|].
  constructor; [|constructor].
  destruct (to_lower_cases c) as [E|(_ & E & _)]; [now rewrite E | exact E].
Qed.

Lemma to_lower_full_stable c :
  c <> CAPITAL_SIGMA -> Forall stable (to_lower_full c).
Proof.
  intros Hc. unfold to_lower_full.
  destruct (N.eqb_spec c 304) as [->|H304];
    [constructor; [reflexivity | constructor; [reflexivity | constructor]]|].
  constructor; [|constructor].
  destruct (to_lower_cases c) as [E|(_ & _ & E)]; [|exact E].
  rewrite E. unfold stable, stableb. rewrite E, N.eqb_refl.
  apply N.eqb_neq in Hc, H304. now rewrite Hc, H304.
Qed.

(** *** One character *)

Lemma sigma_stable : stable FINAL_SIGMA /\ stable SMALL_SIGMA.
Proof. split; reflexivity. Qed.

(** What a character becomes, whatever stands around it: at least one
    code point, stable ones only; white space stays as it is, and what is
    not white space does not become white space. *)
Lemma lower_ucs4_spec before c after :
  lower_ucs4 before c after <> []
  /\ Forall stable (lower_ucs4 before c after)
  /\ (isspace c = true -> lower_ucs4 before c after = [c])
  /\ (isspace c = false ->
      Forall (fun d => isspace d = false) (lower_ucs4 before c after)).
Proof.
  unfold lower_ucs4. destruct (N.eqb_spec c CAPITAL_SIGMA) as [->|Hc].
  - unfold handle_capital_sigma. destruct sigma_stable as [Hf Hs].
    destruct (final_sigma before after);
      (split; [discriminate|]); (split; [now constructor|]);
      (split; [intros H; cbv in H; discriminate H|]);
      intros _; (constructor; [reflexivity | constructor]).
  - split; [unfold to_lower_full; destruct (c =? 304)%N; discriminate|].
    split; [now apply to_lower_full_stable|].
    split; [apply to_lower_full_space | apply to_lower_full_nonspace].
Qed.

Lemma lower_ucs4_stable before c after :
  stable c -> lower_ucs4 before c after = [c].
Proof.
  intros H. apply stable_spec in H. destruct H as [Hc E].
  unfold lower_ucs4. apply N.eqb_neq in Hc. now rewrite Hc.
Qed.

(** *** A string *)

Lemma do_lower_stable s : forall before, Forall stable (do_lower before s).
Proof.
  induction s as [|c s IH]; intros before; cbn [do_lower]; [constructor|].
  apply Forall_app. split; [apply lower_ucs4_spec | apply IH].
Qed.

Lemma do_lower_fixed s : forall before,
  Forall stable s -> do_lower before s = s.
Proof.
  induction s as [|c s IH]; intros before H; [reflexivity|].
  inversion H as [|? ? Hc Hs]; subst. cbn [do_lower].
  now rewrite (lower_ucs4_stable _ _ _ Hc), (IH _ Hs).
Qed.

Lemma do_lower_nil s before : do_lower before s = [] <-> s = [].
Proof.
  split; [|now intros ->]. destruct s as [|c s]; [reflexivity|].
  cbn [do_lower]. intros H. apply app_eq_nil in H. destruct H as [H _].
  now apply lower_ucs4_spec in H.
Qed.

Lemma do_lower_snoc s c : forall before,
  exists prefix,
    do_lower before (s ++ [c])
    = prefix ++ lower_ucs4 (rev s ++ before) c [].
Proof.
  induction s as [|x s IH]; intros before.
  - exists []. cbn [app do_lower rev]. now rewrite app_nil_r.
  - destruct (IH (x :: before)) as [prefix E].
    exists (lower_ucs4 before x (s ++ [c]) ++ prefix).
    cbn [app do_lower rev]. rewrite E, <- !app_assoc. reflexivity.
Qed.

(** Lower-casing twice is lower-casing once. *)
Lemma lower_idem s : lower (lower s) = lower s.
Proof. apply do_lower_fixed, do_lower_stable. Qed.

Lemma lower_nil s : lower s = [] <-> s = [].
Proof. apply do_lower_nil. Qed.

(** White space has no case. *)
Lemma lower_blank s : forallb isspace s = true -> lower s = s.
Proof.
  intros H. apply do_lower_fixed. rewrite forallb_forall in H.
  apply Forall_forall. intros c Hc. apply space_stable, H, Hc.
Qed.

End CaseFacts.

(* ===================================================================== *)
(** ** Properties of the normalizer *)
(* ===================================================================== *)

Module NormalizerFacts.
Import Text Normalizer CaseFacts.

(** A string that [lstrip] leaves alone: empty, or starting with a
    character that is not white space. *)
Definition no_lead (s : str) : Prop :=
  match s with [] => True | c :: _ => isspace c = false end.

Definition no_trail (s : str) : Prop := no_lead (rev s).

Definition no_LF (s : str) : Prop := Forall (fun c => c <> LF) s.

Lemma dropwhile_snoc {A} (p : A -> bool) l x :
  p x = false -> dropwhile p (l ++ [x]) = dropwhile p l ++ [x].
Proof.
  intros Hx. induction l as [|y l IH]; simpl.
  - now rewrite Hx.
  - destruct (p y); [exact IH | reflexivity].
Qed.

Lemma dropwhile_Forall {A} (p : A -> bool) (P : A -> Prop) l :
  Forall P l -> Forall P (dropwhile p l).
Proof.
  induction 1 as [|x l Hx Hl IH]; simpl; [constructor|].
  destruct (p x); [exact IH | now constructor].
Qed.

Lemma lstrip_no_lead s : no_lead (lstrip s).
Proof.
  unfold lstrip. induction s as [|c s IH]; simpl; [exact I|].
  destruct (isspace c) eqn:E; [exact IH | exact E].
Qed.

Lemma lstrip_fixed s : no_lead s -> lstrip s = s.
Proof.
  unfold lstrip. destruct s as [|c s]; simpl; [reflexivity|]. intros ->. reflexivity.
Qed.

Lemma rev_rstrip s : rev (rstrip s) = lstrip (rev s).
Proof. unfold rstrip. now rewrite rev_involutive. Qed.

Lemma rstrip_no_trail s : no_trail (rstrip s).
Proof. unfold no_trail. rewrite rev_rstrip. apply lstrip_no_lead. Qed.

Lemma rstrip_fixed s : no_trail s -> rstrip s = s.
Proof.
  intros H. unfold rstrip. fold (lstrip (rev s)).
  rewrite (lstrip_fixed _ H). apply rev_involutive.
Qed.

Lemma rstrip_no_lead s : no_lead s -> no_lead (rstrip s).
Proof.
  destruct s as [|c s]; [intros _; exact I|]. simpl. intros Hc.
  unfold rstrip. simpl. rewrite (dropwhile_snoc _ _ _ Hc), rev_app_distr.
  exact Hc.
Qed.

Lemma strip_no_lead s : no_lead (strip s).
Proof. apply rstrip_no_lead, lstrip_no_lead. Qed.

Lemma strip_no_trail s : no_trail (strip s).
Proof. apply rstrip_no_trail. Qed.

Lemma strip_fixed s : no_lead s -> no_trail s -> strip s = s.
Proof.
  intros Hl Ht. unfold strip. rewrite (lstrip_fixed _ Hl). now apply rstrip_fixed.
Qed.

Lemma strip_no_LF s : no_LF s -> no_LF (strip s).
Proof.
  intros H. unfold strip, rstrip, lstrip, no_LF.
  apply Forall_rev, dropwhile_Forall, Forall_rev, dropwhile_Forall, H.
Qed.

(** [split] cuts at every line feed, so no piece contains one. *)
Lemma split_no_LF s : Forall no_LF (split LF s).
Proof.
  induction s as [|c s IH]; simpl.
  - repeat constructor.
  - destruct (N.eqb_spec c LF) as [->|Hc].
    + constructor; [constructor | exact IH].
    + destruct (split LF s) as [|l ls]; [repeat constructor; exact Hc|].
      inversion IH; subst. constructor; [now constructor | assumption].
Qed.

Lemma split_without_LF s : no_LF s -> split LF s = [s].
Proof.
  induction 1 as [|c s Hc Hs IH]; simpl; [reflexivity|].
  destruct (N.eqb_spec c LF); [contradiction|]. now rewrite IH.
Qed.

(** *** Lower-casing a line *)

Lemma lower_no_lead s : no_lead s -> no_lead (lower s).
Proof.
  destruct s as [|c s]; [intros _; exact I|]. cbn [no_lead]. intros Hc.
  unfold lower. cbn [do_lower].
  destruct (lower_ucs4_spec [] c s) as (Hne & _ & _ & Hns).
  specialize (Hns Hc).
  destruct (lower_ucs4 [] c s) as [|d p]; [contradiction|].
  cbn [app no_lead]. now inversion Hns.
Qed.

Lemma lower_no_trail s : no_trail s -> no_trail (lower s).
Proof.
  unfold no_trail. destruct (rev s) as [|c r] eqn:E.
  - apply (f_equal (@rev _)) in E. rewrite rev_involutive in E. subst s.
    intros _. exact I.
  - apply (f_equal (@rev _)) in E. rewrite rev_involutive in E. subst s.
    cbn [no_lead rev]. intros Hc.
    destruct (do_lower_snoc (rev r) c []) as [prefix Hp].
    unfold lower. rewrite Hp, rev_app_distr.
    destruct (lower_ucs4_spec (rev (rev r) ++ []) c []) as (Hne & _ & _ & Hns).
    specialize (Hns Hc). apply Forall_rev in Hns.
    destruct (rev (lower_ucs4 (rev (rev r) ++ []) c [])) as [|d p] eqn:Ep.
    + apply (f_equal (@rev _)) in Ep. rewrite rev_involutive in Ep.
      contradiction.
    + cbn [app no_lead]. now inversion Hns.
Qed.

Lemma do_lower_no_LF s : forall before,
  no_LF s -> no_LF (do_lower before s).
Proof.
  unfold no_LF. induction s as [|c s IH]; intros before H; [constructor|].
  inversion H as [|? ? Hc Hs]; subst. cbn [do_lower].
  apply Forall_app. split; [|now apply IH].
  destruct (lower_ucs4_spec before c s) as (_ & _ & Hsp & Hns).
  destruct (isspace c) eqn:E.
  - rewrite (Hsp eq_refl). now constructor.
  - eapply Forall_impl; [|exact (Hns eq_refl)].
    intros d Hd ->. discriminate Hd.
Qed.

Lemma lower_no_LF s : no_LF s -> no_LF (lower s).
Proof. apply do_lower_no_LF. Qed.

(** What every normalized line is, and what the joined result still is:
    not empty, free of line feeds, with no white space at either end, and
    made of characters that lower-casing leaves as they are. *)
Record clean (s : str) : Prop := {
  clean_nonempty : s <> [];
  clean_no_LF : no_LF s;
  clean_no_lead : no_lead s;
  clean_no_trail : no_trail s;
  clean_lower : Forall stable s
}.

Lemma clean_lower_fixed s : clean s -> lower s = s.
Proof. intros H. apply do_lower_fixed, H. Qed.

Lemma normalize_line_clean line :
  no_LF line -> truthy (strip line) = true ->
  clean (normalize_line line).
Proof.
  intros HLF Hne. unfold normalize_line. split.
  - rewrite lower_nil. destruct (strip line); [discriminate | discriminate].
  - apply lower_no_LF, strip_no_LF, HLF.
  - apply lower_no_lead, strip_no_lead.
  - apply lower_no_trail, strip_no_trail.
  - apply do_lower_stable.
Qed.

Lemma join_clean p rest :
  clean p -> Forall clean rest -> clean (join [SPACE] (p :: rest)).
Proof.
  intros Hp Hrest. revert p Hp.
  induction Hrest as [|q rest Hq Hrest IH]; intros p Hp; [exact Hp|].
  specialize (IH q Hq).
  change (join [SPACE] (p :: q :: rest))
    with (p ++ [SPACE] ++ join [SPACE] (q :: rest)).
  set (j := join [SPACE] (q :: rest)) in *.
  destruct Hp as [Hp1 Hp2 Hp3 Hp4 Hp5], IH as [Hj1 Hj2 Hj3 Hj4 Hj5].
  split.
  - destruct p; [contradiction | discriminate].
  - unfold no_LF in *. apply Forall_app; split; [assumption|].
    apply Forall_app; split; [|assumption].
    constructor; [discriminate | constructor].
  - destruct p; [contradiction | exact Hp3].
  - unfold no_trail in *. rewrite !rev_app_distr.
    destruct (rev j) eqn:E; [|exact Hj4].
    apply (f_equal (@rev _)) in E. rewrite rev_involutive in E.
    contradiction.
  - apply Forall_app; split; [assumption|].
    apply Forall_app; split; [|assumption].
    constructor; [now apply space_stable | constructor].
Qed.

Lemma get_file_structure_clean_or_empty content :
  get_file_structure content = [] \/ clean (get_file_structure content).
Proof.
  unfold get_file_structure. cbv zeta.
  assert (H : Forall clean
    (map normalize_line
         (filter (fun line => truthy (strip line)) (split LF content)))).
  { rewrite Forall_map, Forall_forall. intros l Hl.
    apply filter_In in Hl. destruct Hl as [Hin Hne].
    apply normalize_line_clean; [|exact Hne].
    pose proof (split_no_LF content) as HF.
    rewrite Forall_forall in HF. now apply HF. }
  destruct (map _ _) as [|p rest]; [now left|].
  right. inversion H; subst. now apply join_clean.
Qed.

Lemma get_file_structure_of_clean r :
  clean r -> get_file_structure r = r.
Proof.
  intros Hc. pose proof (clean_lower_fixed r Hc) as Hl.
  destruct Hc as [H1 H2 H3 H4 H5]. unfold get_file_structure.
  rewrite (split_without_LF _ H2). cbn [filter].
  rewrite (strip_fixed _ H3 H4).
  destruct r as [|c r]; [contradiction|]. cbn [truthy map join].
  unfold normalize_line. now rewrite (strip_fixed _ H3 H4).
Qed.

Definition space_range (c : codepoint) : Prop :=
  (9 <= c <= 13 \/ 28 <= c <= 32 \/ c = 133 \/ c = 160 \/ c = 5760
   \/ 8192 <= c <= 8202 \/ c = 8232 \/ c = 8233 \/ c = 8239 \/ c = 8287
   \/ c = 12288)%N.

Lemma isspace_spec c : isspace c = true <-> space_range c.
Proof.
  unfold isspace, space_range.
  rewrite !orb_true_iff, !andb_true_iff, !N.leb_le, !N.eqb_eq. tauto.
Qed.

Lemma isspace_false c : isspace c = false <-> ~ space_range c.
Proof.
  rewrite <- isspace_spec. destruct (isspace c); split; congruence.
Qed.

(** C9. Normalization is idempotent: normalizing an already normalized text
    returns it unchanged, [normalize (normalize x) = normalize x] for every
    text [x]. *)
Theorem get_file_structure_idempotent (x : str) :
  get_file_structure (get_file_structure x) = get_file_structure x.
Proof.
  destruct (get_file_structure_clean_or_empty x) as [E|Hc].
  - rewrite E. reflexivity.
  - now apply get_file_structure_of_clean.
Qed.

End NormalizerFacts.

(* ===================================================================== *)
(** ** Properties of [process_files] *)
(* ===================================================================== *)

Module ProcessFacts.
Import Text Normalizer Codec Vectorizer Pipeline.

(** The structure of a file, when its bytes decode. *)
Definition structure_of (file : UploadedFile) : option str :=
  option_map get_file_structure (decode (getvalue file)).

(** The files that survive the loop of [process_files]. *)
Definition survives (file : UploadedFile) : bool :=
  match structure_of file with
  | Some structure => truthy structure
  | None => false
  end.

Definition structure_or_empty (file : UploadedFile) : str :=
  match structure_of file with
  | Some structure => structure
  | None => []
  end.

Lemma process_file_step pf ss file :
  process_file (pf, ss) file
  = if survives file then (pf ++ [file], ss ++ [structure_or_empty file])
    else (pf, ss).
Proof.
  unfold process_file, survives, structure_or_empty, structure_of.
  destruct (decode (getvalue file)) as [content|]; simpl; reflexivity.
Qed.

Lemma process_loop files : forall pf ss,
  fold_left process_file files (pf, ss)
  = (pf ++ filter survives files,
     ss ++ map structure_or_empty (filter survives files)).
Proof.
  induction files as [|file files IH]; intros pf ss; cbn [fold_left filter].
  - cbn [map]. now rewrite !app_nil_r.
  - rewrite process_file_step. destruct (survives file); cbn [map].
    + rewrite IH, <- !app_assoc. reflexivity.
    + apply IH.
Qed.

(** [process_files] in closed form. *)
Lemma process_files_spec files :
  process_files files =
  match filter survives files with
  | [] => Ok None
  | pf =>
      let structures := map structure_or_empty pf in
      match vocabulary structures with
      | [] => Raise (ValueError
                "empty vocabulary; perhaps the documents only contain stop words")
      | _ :: _ =>
          Ok (Some (pf, map name pf, map (transform_row structures) structures))
      end
  end.
Proof.
  unfold process_files. rewrite process_loop. simpl.
  destruct (filter survives files) as [|f pf]; [reflexivity|].
  unfold vectorize_structures, fit_transform.
  cbv zeta. destruct (vocabulary _); reflexivity.
Qed.

Lemma process_files_inv files pf names X :
  process_files files = Ok (Some (pf, names, X)) ->
  pf = filter survives files /\ names = map name pf
  /\ X = map (transform_row (map structure_or_empty pf)) (map structure_or_empty pf).
Proof.
  rewrite process_files_spec.
  destruct (filter survives files) as [|f fs]; [discriminate|].
  cbv zeta. destruct (vocabulary _); [discriminate|].
  intros [= <- <- <-]. auto.
Qed.

End ProcessFacts.

(* ===================================================================== *)
(** ** Properties of the depth-first search of [dbscan_inner] *)
(* ===================================================================== *)

Module SearchFacts.
Import Dbscan.

Lemma length_update labels i x : List.length (update labels i x) = List.length labels.
Proof.
  revert i. induction labels as [|l labels IH]; intros [|i]; simpl; auto.
Qed.

Lemma nth_error_update_same labels i x :
  (i < List.length labels)%nat -> nth_error (update labels i x) i = Some x.
Proof.
  revert i. induction labels as [|l labels IH]; intros [|i]; simpl; try lia.
  - reflexivity.
  - intros H. apply IH. lia.
Qed.

Lemma nth_error_update_other labels i j x :
  i <> j -> nth_error (update labels i x) j = nth_error labels j.
Proof.
  revert i j. induction labels as [|l labels IH]; intros [|i] [|j] H; simpl;
    try reflexivity; try congruence.
  apply IH. congruence.
Qed.

Lemma unlabeled_spec labels v :
  unlabeled labels v = true <-> nth_error labels v = Some NOISE.
Proof.
  unfold unlabeled. destruct (nth_error labels v) as [l|]; [|split; discriminate].
  destruct (Z.eqb_spec l NOISE); split; congruence.
Qed.

Lemma unlabeled_lt labels v : unlabeled labels v = true -> (v < List.length labels)%nat.
Proof.
  rewrite unlabeled_spec. intros H. apply nth_error_Some. congruence.
Qed.

Section Search.
Variable is_core : list bool.
Variable neighborhoods : list (list nat).
Variable label_num : nat.

Local Abbreviation visit := (visit is_core neighborhoods label_num).
Local Abbreviation expand := (expand is_core neighborhoods label_num).

(** A round writes at most one label, the current cluster number, and
    only over [NOISE]. *)
Lemma visit_labels labels stack i labels' stack' j :
  visit labels stack i = (labels', stack') ->
  nth_error labels' j = nth_error labels j
  \/ (j = i /\ nth_error labels j = Some NOISE
      /\ nth_error labels' j = Some (Z.of_nat label_num)).
Proof.
  unfold Dbscan.visit. destruct (unlabeled labels i) eqn:U.
  - assert (Hl : labels' = update labels i (Z.of_nat label_num) ->
      nth_error labels' j = nth_error labels j
      \/ (j = i /\ nth_error labels j = Some NOISE
          /\ nth_error labels' j = Some (Z.of_nat label_num))).
    { intros ->. destruct (Nat.eq_dec i j) as [<-|N].
      - right. split; [reflexivity|]. split; [now apply unlabeled_spec|].
        now apply nth_error_update_same, unlabeled_lt.
      - left. now apply nth_error_update_other. }
    destruct (nth i is_core false); intros [= <- _]; now apply Hl.
  - intros [= <- _]. now left.
Qed.

Lemma visit_length labels stack i labels' stack' :
  visit labels stack i = (labels', stack') ->
  List.length labels' = List.length labels.
Proof.
  unfold Dbscan.visit. destruct (unlabeled labels i).
  - destruct (nth i is_core false); intros [= <- _]; apply length_update.
  - now intros [= <- _].
Qed.

(** After a round, the visited sample has a label. *)
Lemma visit_labelled labels stack i labels' stack' :
  visit labels stack i = (labels', stack') ->
  nth_error labels' i <> Some NOISE.
Proof.
  intros H. destruct (visit_labels _ _ _ _ _ i H) as [E|(_ & _ & E)].
  - unfold Dbscan.visit in H. destruct (unlabeled labels i) eqn:U.
    + exfalso. apply unlabeled_spec in U.
      assert (Hi : (i < List.length labels)%nat)
        by (apply nth_error_Some; congruence).
      assert (E' : labels' = update labels i (Z.of_nat label_num))
        by (destruct (nth i is_core false); now inversion H).
      rewrite E', (nth_error_update_same _ _ _ Hi), U in E.
      injection E as E. unfold NOISE in E. lia.
    + inversion H; subst. intros C. apply unlabeled_spec in C. congruence.
  - rewrite E. intros [= C]. unfold NOISE in C. lia.
Qed.

(** What a round pushes is a neighbour of the visited sample, which is
    then a core sample. *)
Lemma visit_stack labels stack i labels' stack' v :
  visit labels stack i = (labels', stack') -> In v stack' ->
  In v stack
  \/ (nth i is_core false = true /\ In v (nth i neighborhoods [])
      /\ unlabeled labels i = true).
Proof.
  unfold Dbscan.visit. destruct (unlabeled labels i) eqn:U.
  - destruct (nth i is_core false) eqn:C; intros [= _ <-]; [|now left].
    unfold push_all. rewrite in_app_iff, <- in_rev, filter_In.
    intros [[H _]|H]; [right | left]; auto.
  - intros [= _ <-]. now left.
Qed.

(** Induction along the rounds of the search. *)
Lemma expand_rounds (P : list Z -> list nat -> nat -> list Z -> Prop) :
  (forall labels stack i labels',
      visit labels stack i = (labels', []) -> P labels stack i labels') ->
  (forall labels stack i labels' v rest,
      visit labels stack i = (labels', v :: rest) ->
      P labels' rest v (expand labels' rest v) ->
      P labels stack i (expand labels' rest v)) ->
  forall labels stack i, P labels stack i (expand labels stack i).
Proof.
  intros Hstop Hnext labels stack i.
  pose (Q := fun ic nb ln labels stack i (r : list Z) =>
    ic = is_core -> nb = neighborhoods -> ln = label_num -> P labels stack i r).
  enough (HQ : Q is_core neighborhoods label_num labels stack i
                 (expand labels stack i)) by now apply HQ.
  apply (expand_elim Q); unfold Q.
  - intros ic nb ln labels0 stack0 i0 labels' e _ -> -> ->. now apply Hstop.
  - intros ic nb ln labels0 stack0 i0 labels' v rest e IH _ -> -> ->.
    apply Hnext; [exact e | now apply IH].
Qed.

Lemma expand_length labels stack i :
  List.length (expand labels stack i) = List.length labels.
Proof.
  apply (expand_rounds (fun labels _ _ r => List.length r = List.length labels)).
  - intros. eapply visit_length; eassumption.
  - intros ? ? ? ? ? ? Hv IH. rewrite IH. eapply visit_length; eassumption.
Qed.

(** The search only turns [NOISE] into the current cluster number. *)
Lemma expand_labels labels stack i j :
  nth_error (expand labels stack i) j = nth_error labels j
  \/ (nth_error labels j = Some NOISE
      /\ nth_error (expand labels stack i) j = Some (Z.of_nat label_num)).
Proof.
  apply (expand_rounds (fun labels _ _ r =>
    nth_error r j = nth_error labels j
    \/ (nth_error labels j = Some NOISE
        /\ nth_error r j = Some (Z.of_nat label_num)))).
  - intros ? ? ? ? Hv.
    destruct (visit_labels _ _ _ _ _ j Hv) as [E|(_ & E1 & E2)]; auto.
  - intros ? ? ? ? ? ? Hv IH.
    destruct (visit_labels _ _ _ _ _ j Hv) as [E|(_ & E1 & E2)].
    + rewrite <- E. exact IH.
    + destruct IH as [IH|[IH _]].
      * right. split; [exact E1 | now rewrite IH].
      * rewrite E2 in IH. injection IH as IH. unfold NOISE in IH. lia.
Qed.

Lemma expand_keeps_label labels stack i j l :
  nth_error labels j = Some l -> l <> NOISE ->
  nth_error (expand labels stack i) j = Some l.
Proof.
  intros H N. destruct (expand_labels labels stack i j) as [E|[E _]];
    congruence.
Qed.

(** The sample the search starts from has a label when it ends. *)
Lemma expand_labelled labels stack i :
  nth_error (expand labels stack i) i <> Some NOISE.
Proof.
  apply (expand_rounds (fun _ _ i r => nth_error r i <> Some NOISE)).
  - intros ? ? ? ? Hv. eapply visit_labelled; eassumption.
  - intros labels0 stack0 i0 labels' v rest Hv _.
    pose proof (visit_labelled _ _ _ _ _ Hv) as Hl.
    destruct (expand_labels labels' rest v i0) as [E|[E _]]; congruence.
Qed.

(** A sample that is neither visited first, nor on the stack, nor a
    neighbour of any other core sample, is never visited. *)
Lemma expand_untouched j labels stack i :
  (forall k, k <> j -> nth k is_core false = true ->
             ~ In j (nth k neighborhoods [])) ->
  j <> i -> ~ In j stack ->
  nth_error (expand labels stack i) j = nth_error labels j.
Proof.
  intros Hfar.
  apply (expand_rounds (fun labels stack i r =>
    j <> i -> ~ In j stack -> nth_error r j = nth_error labels j)).
  - intros ? ? i0 ? Hv Hi _.
    destruct (visit_labels _ _ _ _ _ j Hv) as [E|(E & _)]; congruence.
  - intros labels0 stack0 i0 labels' v rest Hv IH Hi Hs.
    assert (Hj : ~ In j (v :: rest)).
    { intros Hin. destruct (visit_stack _ _ _ _ _ j Hv Hin) as [H|(C & H & _)].
      - contradiction.
      - apply (Hfar i0); auto. }
    rewrite IH.
    + destruct (visit_labels _ _ _ _ _ j Hv) as [E|(E & _)]; congruence.
    + intros ->. apply Hj. now left.
    + intros H. apply Hj. now right.
Qed.
(** A search that pushes nothing ends after its first round. *)
Lemma expand_stop labels stack i labels' :
  visit labels stack i = (labels', []) -> expand labels stack i = labels'.
Proof.
  revert labels'.
  apply (expand_rounds (fun labels stack i r =>
    forall labels', visit labels stack i = (labels', []) -> r = labels')).
  - intros ? ? ? ? Hv l' Hv'. congruence.
  - intros ? ? ? ? ? ? Hv _ l' Hv'. congruence.
Qed.
End Search.

Section Clusters.
Variable is_core : list bool.
Variable neighborhoods : list (list nat).

Local Abbreviation grow := (fold_left (start_cluster is_core neighborhoods)).

Lemma start_cluster_labels labels n i j :
  let st := start_cluster is_core neighborhoods (labels, n) i in
  nth_error (fst st) j = nth_error labels j
  \/ (nth_error labels j = Some NOISE /\ nth_error (fst st) j = Some (Z.of_nat n)).
Proof.
  unfold start_cluster.
  destruct (negb (unlabeled labels i) || negb (nth i is_core false)); simpl.
  - now left.
  - apply expand_labels.
Qed.

Lemma start_cluster_length labels n i :
  List.length (fst (start_cluster is_core neighborhoods (labels, n) i))
  = List.length labels.
Proof.
  unfold start_cluster.
  destruct (negb (unlabeled labels i) || negb (nth i is_core false)); simpl.
  - reflexivity.
  - apply expand_length.
Qed.

Lemma grow_length l : forall st,
  List.length (fst (grow l st)) = List.length (fst st).
Proof.
  induction l as [|i l IH]; intros [labels n]; simpl; [reflexivity|].
  rewrite IH. apply start_cluster_length.
Qed.

Lemma grow_keeps_label l : forall st j x,
  nth_error (fst st) j = Some x -> x <> NOISE ->
  nth_error (fst (grow l st)) j = Some x.
Proof.
  induction l as [|i l IH]; intros [labels n] j x H N; simpl; [exact H|].
  apply IH; [|exact N].
  destruct (start_cluster_labels labels n i j) as [E|[E _]]; simpl in *; congruence.
Qed.

(** Labels are [NOISE] or a cluster number, never below [-1]. *)
Lemma grow_lower_bound l : forall st,
  (forall j x, nth_error (fst st) j = Some x -> (-1 <= x)%Z) ->
  forall j x, nth_error (fst (grow l st)) j = Some x -> (-1 <= x)%Z.
Proof.
  induction l as [|i l IH]; intros [labels n] Hst j x; simpl; [apply Hst|].
  apply IH. clear j x. intros j x Hx.
  destruct (start_cluster_labels labels n i j) as [E|[_ E]]; simpl in *.
  - apply (Hst j). congruence.
  - rewrite E in Hx. injection Hx as <-. lia.
Qed.

(** Every core sample the loop passes ends with a label. *)
Lemma grow_labels_core l : forall st i,
  In i l -> nth i is_core false = true ->
  nth_error (fst (grow l st)) i <> Some NOISE.
Proof.
  induction l as [|a l IH]; intros [labels n] i Hin Hcore; [contradiction|].
  cbn [fold_left]. destruct Hin as [->|Hin]; [|now apply IH].
  assert (H : nth_error (fst (start_cluster is_core neighborhoods (labels, n) i)) i
              <> Some NOISE).
  { unfold start_cluster. rewrite Hcore. simpl. rewrite orb_false_r.
    destruct (unlabeled labels i) eqn:U; simpl.
    - apply expand_labelled.
    - intros C. apply unlabeled_spec in C. congruence. }
  destruct (nth_error (fst (start_cluster is_core neighborhoods (labels, n) i)) i)
    as [x|] eqn:E.
  - rewrite (grow_keeps_label l _ i x E); congruence.
  - apply nth_error_None in E. intros C.
    assert (Hlt : (i < List.length
      (fst (grow l (start_cluster is_core neighborhoods (labels, n) i))))%nat)
      by (apply nth_error_Some; congruence).
    rewrite grow_length in Hlt. lia.
Qed.

(** A sample that starts no cluster in this part of the loop, being no core
    sample or not in the range of the loop, and that is a neighbour of no
    other core sample, keeps the label it has. *)
Lemma grow_untouched j l : forall st,
  nth j is_core false = false \/ ~ In j l ->
  (forall k, k <> j -> nth k is_core false = true ->
             ~ In j (nth k neighborhoods [])) ->
  nth_error (fst (grow l st)) j = nth_error (fst st) j.
Proof.
  intros st Hj Hfar. revert st.
  induction l as [|i l IH]; intros [labels n]; cbn [fold_left]; [reflexivity|].
  rewrite IH
    by (destruct Hj as [Hj|Hj]; [now left | right; intros H; apply Hj; now right]).
  unfold start_cluster.
  destruct (negb (unlabeled labels i) || negb (nth i is_core false)) eqn:E;
    simpl; [reflexivity|].
  apply expand_untouched; auto.
  intros ->. destruct Hj as [Hj|Hj].
  - rewrite Hj in E. simpl in E. now rewrite orb_true_r in E.
  - apply Hj. now left.
Qed.

Lemma start_cluster_num labels n i :
  (n <= snd (start_cluster is_core neighborhoods (labels, n) i))%nat.
Proof.
  unfold start_cluster.
  destruct (negb (unlabeled labels i) || negb (nth i is_core false)); simpl; lia.
Qed.

(** The loop only turns [NOISE] into a cluster number not yet used when it
    starts. *)
Lemma grow_labels l : forall st j,
  nth_error (fst (grow l st)) j = nth_error (fst st) j
  \/ (nth_error (fst st) j = Some NOISE
      /\ exists m, (snd st <= m)%nat
                   /\ nth_error (fst (grow l st)) j = Some (Z.of_nat m)).
Proof.
  induction l as [|i l IH]; intros [labels n] j; cbn [fold_left]; [now left|].
  pose proof (start_cluster_num labels n i) as Hn.
  destruct (start_cluster is_core neighborhoods (labels, n) i) as [labels1 n1] eqn:E.
  pose proof (start_cluster_labels labels n i j) as H1. rewrite E in H1.
  cbn [fst snd] in *.
  destruct (IH (labels1, n1) j) as [H2|(H2 & m & Hm & H3)]; cbn [fst snd] in *.
  - destruct H1 as [H1|[H1 H1']].
    + left. congruence.
    + right. split; [exact H1|]. exists n. split; [lia | congruence].
  - destruct H1 as [H1|[H1 H1']].
    + right. split; [congruence|]. exists m. split; [lia | exact H3].
    + rewrite H1' in H2. injection H2 as H2. unfold NOISE in H2. lia.
Qed.

(** Every label is below the number of the next cluster. *)
Lemma grow_upper_bound l : forall st,
  (forall j x, nth_error (fst st) j = Some x -> (x < Z.of_nat (snd st))%Z) ->
  forall j x, nth_error (fst (grow l st)) j = Some x ->
              (x < Z.of_nat (snd (grow l st)))%Z.
Proof.
  induction l as [|i l IH]; intros [labels n] Hst; cbn [fold_left]; [exact Hst|].
  apply IH. intros j x Hx.
  pose proof (start_cluster_num labels n i) as Hn.
  pose proof (start_cluster_labels labels n i j) as H1.
  destruct (start_cluster is_core neighborhoods (labels, n) i) as [labels1 n1] eqn:E.
  cbn [fst snd] in *.
  destruct H1 as [H1|[_ H1]].
  - specialize (Hst j x). rewrite <- H1 in Hst. specialize (Hst Hx). lia.
  - assert (n1 = S n).
    { unfold start_cluster in E.
      destruct (negb (unlabeled labels i) || negb (nth i is_core false)) eqn:C.
      - injection E as <- <-.
        pose proof (start_cluster_labels labels n i j) as H2.
        unfold start_cluster in H2. rewrite C in H2. cbn [fst] in H2.
        destruct H2 as [H2|[H2 H2']].
        + specialize (Hst j x). rewrite Hx in H1. injection H1 as ->.
          specialize (Hst Hx). lia.
        + rewrite H2 in Hx. injection Hx as <-. rewrite H2 in H1.
          injection H1 as H1. unfold NOISE in H1. lia.
      - now injection E. }
    rewrite Hx in H1. injection H1 as ->. lia.
Qed.

Lemma dbscan_inner_length labels :
  List.length (dbscan_inner is_core neighborhoods labels) = List.length labels.
Proof. unfold dbscan_inner. now rewrite grow_length. Qed.
End Clusters.

End SearchFacts.

(* ===================================================================== *)
(** ** Properties of norms and of the cosine distance *)
(* ===================================================================== *)

Module MetricFacts.
Import Vectorizer Metric.
Local Open Scope R_scope.

Definition zero_vector (v : vector) : Prop := Forall (fun x => x = 0) v.

Lemma sum_squares_nonneg v : 0 <= sum_squares v.
Proof.
  induction v as [|x v IH]; simpl; [lra|].
  pose proof (Rle_0_sqr x) as H. unfold Rsqr in H. lra.
Qed.

Lemma sum_squares_zero v : sum_squares v = 0 <-> zero_vector v.
Proof.
  unfold zero_vector. induction v as [|x v IH]; simpl.
  - split; [constructor | reflexivity].
  - pose proof (Rle_0_sqr x) as Hx. unfold Rsqr in Hx.
    pose proof (sum_squares_nonneg v) as Hv. split.
    + intros H. assert (Hx0 : x * x = 0) by lra.
      constructor.
      * destruct (Rmult_integral _ _ Hx0); assumption.
      * apply IH. lra.
    + intros H. inversion H as [|? ? -> Hv0]; subst.
      apply IH in Hv0. rewrite Hv0. lra.
Qed.

Lemma l2_norm_zero v : l2_norm v = 0 <-> zero_vector v.
Proof.
  rewrite <- sum_squares_zero. unfold l2_norm. split.
  - intros H. apply sqrt_eq_0; [apply sum_squares_nonneg | exact H].
  - intros ->. apply sqrt_0.
Qed.

Lemma l2_norm_nonneg v : 0 <= l2_norm v.
Proof. apply sqrt_pos. Qed.

Lemma handle_zero_nonzero n : n <> 0 -> handle_zero n = n.
Proof.
  intros H. unfold handle_zero.
  destruct (Req_dec_T n 0); [contradiction | reflexivity].
Qed.

Lemma handle_zero_zero : handle_zero 0 = 1.
Proof. unfold handle_zero. destruct (Req_dec_T 0 0); [reflexivity | contradiction]. Qed.

Lemma zero_vector_map_div v n : zero_vector v -> zero_vector (map (fun x => x / n) v).
Proof.
  unfold zero_vector. rewrite Forall_map. apply Forall_impl.
  intros x ->. unfold Rdiv. apply Rmult_0_l.
Qed.

(** A zero row stays zero. *)
Lemma normalize_zero v : zero_vector v -> zero_vector (normalize v).
Proof. apply zero_vector_map_div. Qed.

Lemma sum_squares_scaled v n :
  n <> 0 -> sum_squares (map (fun x => x / n) v) = sum_squares v / (n * n).
Proof.
  intros Hn. induction v as [|x v IH]; simpl.
  - unfold Rdiv. now rewrite Rmult_0_l.
  - rewrite IH. field. exact Hn.
Qed.

(** Any other row comes out with norm one. *)
Lemma l2_norm_normalize v : ~ zero_vector v -> l2_norm (normalize v) = 1.
Proof.
  intros Hv. assert (Hn : l2_norm v <> 0) by now rewrite l2_norm_zero.
  unfold normalize. rewrite (handle_zero_nonzero _ Hn).
  unfold l2_norm at 1. rewrite (sum_squares_scaled _ _ Hn).
  unfold l2_norm. rewrite sqrt_sqrt by apply sum_squares_nonneg.
  unfold Rdiv. rewrite Rinv_r; [apply sqrt_1|].
  now rewrite sum_squares_zero.
Qed.

Lemma dot_self v : dot v v = sum_squares v.
Proof. induction v as [|x v IH]; simpl; [reflexivity | now rewrite IH]. Qed.

Lemma dot_zero_l u v : zero_vector u -> dot u v = 0.
Proof.
  intros H. revert v. induction H as [|x u -> _ IH]; intros [|y v]; simpl;
    try reflexivity.
  rewrite IH. lra.
Qed.

Lemma dot_zero_r u v : zero_vector v -> dot u v = 0.
Proof.
  intros H. revert u. induction H as [|y v -> _ IH]; intros [|x u]; simpl;
    try reflexivity.
  rewrite IH. lra.
Qed.

Lemma cosine_similarity_self v : ~ zero_vector v -> cosine_similarity v v = 1.
Proof.
  intros Hv. unfold cosine_similarity. rewrite dot_self.
  pose proof (l2_norm_normalize v Hv) as H. unfold l2_norm in H.
  rewrite <- (sqrt_sqrt (sum_squares (normalize v))) by apply sum_squares_nonneg.
  rewrite H. lra.
Qed.

Lemma cosine_similarity_zero_l u v : zero_vector u -> cosine_similarity u v = 0.
Proof. intros H. apply dot_zero_l, normalize_zero, H. Qed.

Lemma cosine_similarity_zero_r u v : zero_vector v -> cosine_similarity u v = 0.
Proof. intros H. apply dot_zero_r, normalize_zero, H. Qed.

Lemma clip_bounds x : 0 <= clip 0 2 x <= 2.
Proof.
  unfold clip, Rmin, Rmax.
  destruct (Rle_dec 0 x); destruct (Rle_dec 2 _); lra.
Qed.

Lemma clip_inside x : 0 <= x <= 2 -> clip 0 2 x = x.
Proof.
  intros H. unfold clip, Rmin, Rmax.
  destruct (Rle_dec 0 x); destruct (Rle_dec 2 _); lra.
Qed.

Lemma cosine_distances_nonneg b X i j : 0 <= cosine_distances b X i j.
Proof.
  unfold cosine_distances. destruct (b && (i =? j)%nat); [lra|].
  apply clip_bounds.
Qed.

Lemma cosine_distances_diagonal X i : cosine_distances true X i i = 0.
Proof. unfold cosine_distances. now rewrite Nat.eqb_refl. Qed.

(** Without the diagonal overwrite, a row that is not zero is at distance
    zero from itself... *)
Lemma cosine_distances_self X i :
  ~ zero_vector (nth i X []) -> cosine_distances false X i i = 0.
Proof.
  intros H. unfold cosine_distances. cbn [andb].
  rewrite cosine_similarity_self by exact H.
  replace (1 - 1) with 0 by lra. apply clip_inside. lra.
Qed.

(** ... and a zero row is at distance one from every row, itself included. *)
Lemma cosine_distances_zero_l X i j :
  zero_vector (nth i X []) -> cosine_distances false X i j = 1.
Proof.
  intros H. unfold cosine_distances. cbn [andb].
  rewrite cosine_similarity_zero_l by exact H.
  replace (1 - 0) with 1 by lra. apply clip_inside. lra.
Qed.

Lemma cosine_distances_zero_r X i j :
  zero_vector (nth j X []) -> cosine_distances false X i j = 1.
Proof.
  intros H. unfold cosine_distances. cbn [andb].
  rewrite cosine_similarity_zero_r by exact H.
  replace (1 - 0) with 1 by lra. apply clip_inside. lra.
Qed.

Lemma cosine_distances_off_diagonal b X i j :
  i <> j -> cosine_distances b X i j = cosine_distances false X i j.
Proof.
  intros H. unfold cosine_distances.
  destruct (Nat.eqb_spec i j); [contradiction|]. now rewrite andb_false_r.
Qed.

Lemma dot_comm u : forall v, dot u v = dot v u.
Proof.
  induction u as [|x u IH]; intros [|y v]; simpl; try reflexivity.
  rewrite IH. lra.
Qed.

(** The distance is symmetric. *)
Lemma cosine_distances_sym b X i j :
  cosine_distances b X i j = cosine_distances b X j i.
Proof.
  unfold cosine_distances, cosine_similarity.
  rewrite (Nat.eqb_sym i j), dot_comm. reflexivity.
Qed.

(** Two rows, the first of them zero. *)
Definition zero_and_unit : matrix := [[0]; [1]].

(** Two zero rows. *)
Definition two_zero_rows : matrix := [[0]; [0]].

(** Two orthogonal unit rows. *)
Definition two_unit_rows : matrix := [[1; 0]; [0; 1]].

Lemma zero_vector_0 : zero_vector [0].
Proof. repeat constructor. Qed.

Lemma l2_norm_unit_1 : l2_norm [1; 0] = 1.
Proof.
  unfold l2_norm, sum_squares. cbn [fold_right].
  replace (1 * 1 + (0 * 0 + 0)) with 1 by lra. apply sqrt_1.
Qed.

Lemma l2_norm_unit_2 : l2_norm [0; 1] = 1.
Proof.
  unfold l2_norm, sum_squares. cbn [fold_right].
  replace (0 * 0 + (1 * 1 + 0)) with 1 by lra. apply sqrt_1.
Qed.

(** The two rows of [two_unit_rows] are at distance one from each other. *)
Lemma two_unit_rows_distance b :
  cosine_distances b two_unit_rows 0 1 = 1
  /\ cosine_distances b two_unit_rows 1 0 = 1.
Proof.
  unfold cosine_distances, cosine_similarity, normalize.
  cbn [Nat.eqb nth two_unit_rows]. rewrite andb_false_r.
  rewrite l2_norm_unit_1, l2_norm_unit_2, handle_zero_nonzero by lra.
  cbn [map dot].
  replace (1 / 1 * (0 / 1) + (0 / 1 * (1 / 1) + 0)) with 0 by field.
  replace (0 / 1 * (1 / 1) + (1 / 1 * (0 / 1) + 0)) with 0 by field.
  replace (1 - 0) with 1 by lra. split; apply clip_inside; lra.
Qed.

End MetricFacts.

(* ===================================================================== *)
(** ** Properties of [fit_predict] *)
(* ===================================================================== *)

Module DbscanFacts.
Import Vectorizer Metric Neighbors Dbscan SearchFacts MetricFacts.
Local Open Scope R_scope.

Lemma Rleb_true x y : Rleb x y = true <-> x <= y.
Proof. unfold Rleb. destruct (Rle_dec x y); split; auto; discriminate. Qed.

Lemma Rleb_false x y : Rleb x y = false <-> y < x.
Proof.
  unfold Rleb. destruct (Rle_dec x y); split; auto; try discriminate; lra.
Qed.

Lemma nth_map_in {A B} (f : A -> B) l i d d' :
  (i < List.length l)%nat -> nth i (map f l) d = f (nth i l d').
Proof.
  revert i. induction l as [|a l IH]; intros [|i] H; simpl in *; try lia.
  - reflexivity.
  - apply IH. lia.
Qed.

Lemma nth_map_seq {A} (f : nat -> A) n i d :
  (i < n)%nat -> nth i (map f (seq 0 n)) d = f i.
Proof.
  intros H. rewrite (nth_map_in f _ i d O) by now rewrite length_seq.
  now rewrite seq_nth.
Qed.

Lemma length_radius_neighbors X radius :
  List.length (radius_neighbors X radius) = List.length X.
Proof. unfold radius_neighbors. now rewrite length_map, length_seq. Qed.

(** The neighbourhood of [i]: the rows within [radius] of row [i]. *)
Lemma in_radius_neighbors X radius i j :
  In j (nth i (radius_neighbors X radius) [])
  <-> (i < List.length X)%nat /\ (j < List.length X)%nat
      /\ cosine_distances false X i j <= radius.
Proof.
  destruct (Nat.lt_ge_cases i (List.length X)) as [Hi|Hi].
  - unfold radius_neighbors. rewrite nth_map_seq by exact Hi.
    rewrite filter_In, in_seq, Rleb_true. intuition lia.
  - rewrite nth_overflow by now rewrite length_radius_neighbors.
    simpl. intuition lia.
Qed.

Definition core_samples (X : matrix) (eps : R) (min_samples : nat) : list bool :=
  map (fun neighbors => (min_samples <=? List.length neighbors)%nat)
      (radius_neighbors X eps).

Lemma core_samples_spec X eps min_samples i :
  nth i (core_samples X eps min_samples) false = true
  <-> (i < List.length X)%nat
      /\ (min_samples <= List.length (nth i (radius_neighbors X eps) []))%nat.
Proof.
  unfold core_samples.
  destruct (Nat.lt_ge_cases i (List.length X)) as [Hi|Hi].
  - rewrite (nth_map_in _ _ i false []) by now rewrite length_radius_neighbors.
    rewrite Nat.leb_le. intuition.
  - rewrite nth_overflow by now rewrite length_map, length_radius_neighbors.
    split; [discriminate | lia].
Qed.

(** [fit_predict] on valid parameters: it returns, with the labels
    [dbscan_inner] computes. *)
Lemma fit_predict_valid X eps min_samples :
  0 < eps -> (1 <= min_samples)%nat -> X <> [] ->
  fit_predict X eps min_samples
  = Ok (dbscan_inner (core_samples X eps min_samples) (radius_neighbors X eps)
          (repeat NOISE (List.length X))).
Proof.
  intros He Hm HX. unfold fit_predict.
  replace (Rleb eps 0) with false by (symmetry; now apply Rleb_false).
  destruct (Nat.eqb_spec min_samples 0); [lia|].
  destruct (Nat.eqb_spec (List.length X) 0) as [E|_].
  - destruct X; [contradiction | discriminate].
  - reflexivity.
Qed.

Lemma fit_predict_length X eps min_samples labels :
  fit_predict X eps min_samples = Ok labels ->
  List.length labels = List.length X.
Proof.
  unfold fit_predict.
  destruct (Rleb eps 0); [discriminate|].
  destruct (min_samples =? 0)%nat; [discriminate|].
  destruct (List.length X =? 0)%nat; [discriminate|].
  intros [= <-]. now rewrite dbscan_inner_length, repeat_length.
Qed.

Lemma nth_error_repeat {A} (x : A) n i :
  (i < n)%nat -> nth_error (repeat x n) i = Some x.
Proof.
  revert i. induction n as [|n IH]; intros [|i] H; simpl; try lia; auto.
  apply IH. lia.
Qed.

(** With [min_samples = 1] a sample is a core sample as soon as it is its
    own neighbour. *)
Lemma self_neighbor_core X eps i :
  (i < List.length X)%nat -> cosine_distances false X i i <= eps ->
  nth i (core_samples X eps 1) false = true.
Proof.
  intros Hi Hd. apply core_samples_spec. split; [exact Hi|].
  assert (Hin : In i (nth i (radius_neighbors X eps) []))
    by (apply in_radius_neighbors; auto).
  destruct (nth i (radius_neighbors X eps) []); [contradiction | simpl; lia].
Qed.

(** Every core sample gets a cluster number. *)
Lemma core_sample_labelled X eps min_samples i :
  (i < List.length X)%nat ->
  nth i (core_samples X eps min_samples) false = true ->
  exists l, nth_error (dbscan_inner (core_samples X eps min_samples)
                         (radius_neighbors X eps)
                         (repeat NOISE (List.length X))) i = Some l
            /\ (0 <= l)%Z.
Proof.
  intros Hi Hc. unfold dbscan_inner. rewrite repeat_length.
  set (st0 := (repeat NOISE (List.length X), O)).
  set (r := fst (fold_left _ _ st0)).
  assert (Hlen : List.length r = List.length X)
    by (unfold r; rewrite grow_length; apply repeat_length).
  destruct (nth_error r i) as [l|] eqn:E.
  - exists l. split; [reflexivity|].
    assert (Hn : Some l <> Some NOISE).
    { rewrite <- E. unfold r. apply grow_labels_core; [|exact Hc].
      apply in_seq. lia. }
    assert (Hb : (-1 <= l)%Z).
    { apply (grow_lower_bound (core_samples X eps min_samples)
               (radius_neighbors X eps) (seq 0 (List.length X)) st0) with (j := i).
      - intros j x Hx. simpl in Hx.
        apply nth_error_In, repeat_spec in Hx. subst. unfold NOISE. lia.
      - exact E. }
    unfold NOISE in Hn. assert (l <> (-1)%Z) by congruence. lia.
  - apply nth_error_None in E. lia.
Qed.

(** A sample that is within [eps] of no sample, and that no sample is
    within [eps] of, is noise whatever [min_samples] is. *)
Lemma far_sample_noise X eps min_samples i :
  0 < eps -> (1 <= min_samples)%nat -> (i < List.length X)%nat ->
  (forall j, (j < List.length X)%nat ->
     eps < cosine_distances false X i j /\ eps < cosine_distances false X j i) ->
  exists labels, fit_predict X eps min_samples = Ok labels
                 /\ nth_error labels i = Some NOISE.
Proof.
  intros He Hm Hi Hfar.
  assert (HX : X <> []) by (intros ->; simpl in Hi; lia).
  rewrite (fit_predict_valid _ _ _ He Hm HX). eexists. split; [reflexivity|].
  unfold dbscan_inner. rewrite grow_untouched.
  - simpl. now apply nth_error_repeat.
  - left. destruct (nth i (core_samples X eps min_samples) false) eqn:C;
      [|reflexivity].
    apply core_samples_spec in C. destruct C as [_ C].
    destruct (nth i (radius_neighbors X eps) []) as [|j nb] eqn:E;
      [simpl in C; lia|].
    assert (Hj : In j (nth i (radius_neighbors X eps) []))
      by (rewrite E; now left).
    apply in_radius_neighbors in Hj. destruct Hj as (_ & Hj & Hd).
    destruct (Hfar j Hj). lra.
  - intros k _ _ Hin. apply in_radius_neighbors in Hin.
    destruct Hin as (Hk & _ & Hd). destruct (Hfar k Hk). lra.
Qed.

Lemma filter_singleton (f : nat -> bool) l i :
  NoDup l -> In i l -> (forall j, In j l -> (f j = true <-> j = i)) ->
  filter f l = [i].
Proof.
  induction 1 as [|a l Ha Hl IH]; intros Hin Hf; [contradiction|].
  simpl. destruct (f a) eqn:E.
  - assert (a = i) by (apply Hf; [now left | exact E]). subst a. f_equal.
    clear IH Hin. induction l as [|b l IH]; [reflexivity|]. simpl.
    destruct (f b) eqn:Eb.
    + exfalso. apply Ha. left. apply Hf; [right; now left | exact Eb].
    + apply IH.
      * intros H. apply Ha. now right.
      * now inversion Hl.
      * intros j [<-|Hj]; apply Hf; [now left | right; now right].
  - destruct Hin as [->|Hin].
    + assert (f i = true) by (apply Hf; [now left | reflexivity]). congruence.
    + apply IH; [exact Hin|]. intros j Hj. apply Hf. now right.
Qed.

(** The neighbourhood of a sample that is its own neighbour and has no
    other. *)
Lemma lonely_neighborhood X eps i :
  (i < List.length X)%nat -> cosine_distances false X i i <= eps ->
  (forall j, (j < List.length X)%nat -> j <> i ->
             eps < cosine_distances false X i j) ->
  nth i (radius_neighbors X eps) [] = [i].
Proof.
  intros Hi Hself Hfar. unfold radius_neighbors.
  rewrite nth_map_seq by exact Hi.
  apply filter_singleton; [apply seq_NoDup | apply in_seq; lia|].
  intros j Hj. apply in_seq in Hj. rewrite Rleb_true. split.
  - intros Hd. destruct (Nat.eq_dec j i) as [E|E]; [exact E|].
    specialize (Hfar j (proj2 Hj) E). lra.
  - now intros ->.
Qed.

(** With [min_samples = 1], a sample that has no neighbour but itself is
    alone in its cluster. *)
Lemma lonely_sample_singleton X eps i :
  (i < List.length X)%nat -> cosine_distances false X i i <= eps ->
  (forall j, (j < List.length X)%nat -> j <> i ->
             eps < cosine_distances false X i j) ->
  let labels := dbscan_inner (core_samples X eps 1) (radius_neighbors X eps)
                  (repeat NOISE (List.length X)) in
  forall j, j <> i -> nth_error labels j <> nth_error labels i.
Proof.
  intros Hi Hself Hlone labels j Hj. unfold labels, dbscan_inner.
  rewrite repeat_length.
  set (ic := core_samples X eps 1). set (nb := radius_neighbors X eps).
  assert (Hcore : nth i ic false = true) by now apply self_neighbor_core.
  assert (Hnb : nth i nb [] = [i]) by now apply lonely_neighborhood.
  assert (Hfar : forall k, k <> i -> nth k ic false = true -> ~ In i (nth k nb [])).
  { intros k Hk _ Hin. apply in_radius_neighbors in Hin.
    destruct Hin as (Hk' & _ & Hd). rewrite cosine_distances_sym in Hd.
    specialize (Hlone k Hk' Hk). lra. }
  set (st0 := (repeat NOISE (List.length X), O)).
  assert (Hseq : seq 0 (List.length X)
                 = seq 0 i ++ i :: seq (S i) (List.length X - S i)).
  { replace (List.length X) with (i + S (List.length X - S i))%nat at 1 by lia.
    rewrite seq_app. reflexivity. }
  rewrite Hseq, fold_left_app. cbn [fold_left].
  assert (H1i : nth_error (fst (fold_left (start_cluster ic nb) (seq 0 i) st0)) i
                = Some NOISE).
  { rewrite grow_untouched; [now apply nth_error_repeat| |exact Hfar].
    right. rewrite in_seq. lia. }
  assert (H1b : forall j x,
    nth_error (fst (fold_left (start_cluster ic nb) (seq 0 i) st0)) j = Some x ->
    (x < Z.of_nat (snd (fold_left (start_cluster ic nb) (seq 0 i) st0)))%Z).
  { apply grow_upper_bound. intros k x Hx. simpl in Hx.
    apply nth_error_In, repeat_spec in Hx. subst. unfold NOISE. simpl. lia. }
  destruct (fold_left (start_cluster ic nb) (seq 0 i) st0) as [L1 n1].
  cbn [fst snd] in H1i, H1b.
  assert (Hlt : (i < List.length L1)%nat) by (apply nth_error_Some; congruence).
  assert (Hst : start_cluster ic nb (L1, n1) i
                = (update L1 i (Z.of_nat n1), S n1)).
  { unfold start_cluster.
    rewrite (proj2 (unlabeled_spec L1 i) H1i), Hcore. cbn [negb orb].
    f_equal. apply expand_stop. unfold visit.
    rewrite (proj2 (unlabeled_spec L1 i) H1i), Hcore, Hnb. f_equal.
    cbn [filter]. unfold unlabeled.
    rewrite nth_error_update_same by exact Hlt.
    destruct (Z.eqb_spec (Z.of_nat n1) NOISE) as [E|_]; [|reflexivity].
    unfold NOISE in E. lia. }
  rewrite Hst.
  set (st2 := (update L1 i (Z.of_nat n1), S n1)).
  assert (H3i : nth_error
                  (fst (fold_left (start_cluster ic nb)
                          (seq (S i) (List.length X - S i)) st2)) i
                = Some (Z.of_nat n1)).
  { apply grow_keeps_label.
    - simpl. now apply nth_error_update_same.
    - unfold NOISE. lia. }
  rewrite H3i.
  destruct (grow_labels ic nb (seq (S i) (List.length X - S i)) st2 j)
    as [H|(_ & m & Hm & H)]; rewrite H.
  - simpl. rewrite nth_error_update_other by congruence.
    intros C. specialize (H1b j _ C). lia.
  - simpl in Hm. intros [= C]. lia.
Qed.

(** A zero row is at distance one from every row, in both directions. *)
Lemma zero_row_distances X i j :
  zero_vector (nth i X []) ->
  cosine_distances false X i j = 1 /\ cosine_distances false X j i = 1.
Proof.
  intros H. split;
    [now apply cosine_distances_zero_l | now apply cosine_distances_zero_r].
Qed.

Lemma zero_row_noise X eps min_samples i :
  0 < eps < 1 -> (1 <= min_samples)%nat -> (i < List.length X)%nat ->
  zero_vector (nth i X []) ->
  exists labels, fit_predict X eps min_samples = Ok labels
                 /\ nth_error labels i = Some NOISE.
Proof.
  intros He Hm Hi Hz. apply far_sample_noise; try assumption; [lra|].
  intros j _. destruct (zero_row_distances X i j Hz) as [-> ->]. lra.
Qed.

(** C5, as stated, fails: with [min_samples = 1] and [eps = 1/2] the zero
    row of [zero_and_unit] is labelled noise. *)
Lemma min_points_one_noise_counterexample :
  ~ (forall X eps labels,
       0 < eps -> fit_predict X eps 1 = Ok labels -> ~ In NOISE labels).
Proof.
  intros H.
  destruct (zero_row_noise zero_and_unit (1/2) 1 0) as (labels & E & N).
  - lra.
  - lia.
  - simpl. lia.
  - exact zero_vector_0.
  - apply (H zero_and_unit (1/2) labels); [lra | exact E|].
    eapply nth_error_In. exact N.
Qed.

(** C5, amended.  For every non-empty corpus of vectors and every
    [eps > 0], clustering with [min_samples = 1] returns one label per
    document, and a document is labelled noise exactly when no document,
    itself included, is within [eps] of it by the distances the clusterer
    computes.  So a document that is within [eps] of itself is never
    noise, and it is alone in its cluster when no other document is
    within [eps] of it; an all-zero row, which is at distance 1 from
    itself, is noise whenever [eps < 1]. *)
Theorem min_points_one_no_noise (X : matrix) (eps : R) :
  X <> [] -> 0 < eps ->
  exists labels,
    fit_predict X eps 1 = Ok labels
    /\ List.length labels = List.length X
    /\ (forall i, (i < List.length X)%nat ->
          (nth_error labels i = Some NOISE
           <-> forall j, (j < List.length X)%nat ->
                         eps < cosine_distances false X i j))
    /\ (forall i, (i < List.length X)%nat ->
          cosine_distances false X i i <= eps ->
          (exists l, nth_error labels i = Some l /\ (0 <= l)%Z)
          /\ ((forall j, (j < List.length X)%nat -> j <> i ->
                         eps < cosine_distances false X i j) ->
              forall j, j <> i -> nth_error labels j <> nth_error labels i))
    /\ (forall i, (i < List.length X)%nat -> zero_vector (nth i X []) ->
          eps < 1 -> nth_error labels i = Some NOISE).
Proof.
  intros HX He.
  pose proof (fit_predict_valid X eps 1 He (Nat.le_refl 1) HX) as Hfit.
  set (labels := dbscan_inner (core_samples X eps 1) (radius_neighbors X eps)
                   (repeat NOISE (List.length X))) in *.
  assert (Hnoise : forall i, (i < List.length X)%nat ->
            (forall j, (j < List.length X)%nat ->
                       eps < cosine_distances false X i j) ->
            nth_error labels i = Some NOISE).
  { intros i Hi Hfar.
    destruct (far_sample_noise X eps 1 i He (Nat.le_refl 1) Hi) as (ls & E & N).
    - intros j Hj. split; [now apply Hfar|].
      rewrite cosine_distances_sym. now apply Hfar.
    - rewrite Hfit in E. injection E as <-. exact N. }
  assert (Hcore : forall i j, (i < List.length X)%nat ->
            (j < List.length X)%nat -> cosine_distances false X i j <= eps ->
            exists l, nth_error labels i = Some l /\ (0 <= l)%Z).
  { intros i j Hi Hj Hd. apply core_sample_labelled; [exact Hi|].
    apply core_samples_spec. split; [exact Hi|].
    assert (Hin : In j (nth i (radius_neighbors X eps) []))
      by (apply in_radius_neighbors; auto).
    destruct (nth i (radius_neighbors X eps) []); [contradiction | simpl; lia]. }
  exists labels. split; [exact Hfit|]. split; [|split; [|split]].
  - unfold labels. now rewrite dbscan_inner_length, repeat_length.
  - intros i Hi. split; [|now apply Hnoise].
    intros HN j Hj.
    destruct (Rlt_le_dec eps (cosine_distances false X i j)) as [|Hd];
      [assumption|].
    destruct (Hcore i j Hi Hj Hd) as (l & El & Hl).
    rewrite El in HN. injection HN as ->. unfold NOISE in Hl. lia.
  - intros i Hi Hself. split; [exact (Hcore i i Hi Hi Hself)|].
    intros Hlone. exact (lonely_sample_singleton X eps i Hi Hself Hlone).
  - intros i Hi Hz H1. apply Hnoise; [exact Hi|].
    intros j _. rewrite cosine_distances_zero_l by exact Hz. exact H1.
Qed.

Lemma min_points_one_no_noise_witness :
  exists labels,
    fit_predict zero_and_unit (1/2) 1 = Ok labels
    /\ List.length labels = List.length zero_and_unit
    /\ (forall i, (i < List.length zero_and_unit)%nat ->
          (nth_error labels i = Some NOISE
           <-> forall j, (j < List.length zero_and_unit)%nat ->
                         1/2 < cosine_distances false zero_and_unit i j))
    /\ (forall i, (i < List.length zero_and_unit)%nat ->
          cosine_distances false zero_and_unit i i <= 1/2 ->
          (exists l, nth_error labels i = Some l /\ (0 <= l)%Z)
          /\ ((forall j, (j < List.length zero_and_unit)%nat -> j <> i ->
                         1/2 < cosine_distances false zero_and_unit i j) ->
              forall j, j <> i -> nth_error labels j <> nth_error labels i))
    /\ (forall i, (i < List.length zero_and_unit)%nat ->
          zero_vector (nth i zero_and_unit []) ->
          1/2 < 1 -> nth_error labels i = Some NOISE).
Proof.
  apply (min_points_one_no_noise zero_and_unit (1/2)).
  - discriminate.
  - lra.
Defined.

Lemma Rleb_refl x : Rleb x x = true.
Proof. apply Rleb_true. lra. Qed.

(** C8, as stated, fails at [eps = 1]: the two zero rows of
    [two_zero_rows] are within [eps] of each other, and they are put in the
    same cluster. *)
Lemma zero_vectors_cluster_together :
  ~ (forall X eps i j,
       0 < eps -> (i < List.length X)%nat -> (j < List.length X)%nat ->
       i <> j -> zero_vector (nth i X []) ->
       eps < cosine_distances false X i j)
  /\ fit_predict two_zero_rows 1 1 = Ok [0%Z; 0%Z].
Proof.
  split.
  - intros H. specialize (H two_zero_rows 1 O 1%nat).
    rewrite cosine_distances_zero_l in H by exact zero_vector_0.
    simpl in H. assert (1 < 1); [apply H; try lia; try lra|lra].
    exact zero_vector_0.
  - rewrite fit_predict_valid by (try lra; try lia; discriminate).
    assert (Hnb : radius_neighbors two_zero_rows 1 = [[0; 1]; [0; 1]]%nat).
    { unfold radius_neighbors. cbn [two_zero_rows List.length seq map filter].
      rewrite !cosine_distances_zero_l by exact zero_vector_0.
      rewrite Rleb_refl. reflexivity. }
    unfold core_samples. rewrite Hnb. reflexivity.
Qed.

(** C8, amended.  The clusterer returns on all-zero rows too.  An all-zero
    row is at cosine distance exactly 1 (not the maximal distance 2) from
    every row, itself and other all-zero rows included; so for every
    [eps] with [0 < eps < 1], and every [min_samples >= 1], it is within
    [eps] of no row and is labelled noise. *)
Theorem zero_row_isolated (X : matrix) (eps : R) (min_samples i : nat) :
  0 < eps < 1 -> (1 <= min_samples)%nat -> (i < List.length X)%nat ->
  zero_vector (nth i X []) ->
  (forall j, cosine_distances false X i j = 1
             /\ cosine_distances false X j i = 1)
  /\ (forall j, ~ cosine_distances false X i j <= eps)
  /\ exists labels, fit_predict X eps min_samples = Ok labels
                    /\ List.length labels = List.length X
                    /\ nth_error labels i = Some NOISE.
Proof.
  intros He Hm Hi Hz. split; [|split].
  - intros j. now apply zero_row_distances.
  - intros j. rewrite cosine_distances_zero_l by exact Hz. lra.
  - destruct (zero_row_noise X eps min_samples i He Hm Hi Hz) as (labels & E & N).
    exists labels. split; [exact E|]. split; [|exact N].
    eapply fit_predict_length; eassumption.
Qed.

Lemma zero_row_isolated_witness :
  (forall j, cosine_distances false zero_and_unit 0 j = 1
             /\ cosine_distances false zero_and_unit j 0 = 1)
  /\ (forall j, ~ cosine_distances false zero_and_unit 0 j <= 1/2)
  /\ exists labels, fit_predict zero_and_unit (1/2) 2 = Ok labels
                    /\ List.length labels = 2%nat
                    /\ nth_error labels 0 = Some NOISE.
Proof.
  apply (zero_row_isolated zero_and_unit (1/2) 2 0).
  - lra.
  - lia.
  - simpl. lia.
  - exact zero_vector_0.
Defined.


End DbscanFacts.

(* ===================================================================== *)
(** ** Properties of [kneighbors] and [plot_k_distance] *)
(* ===================================================================== *)

Module NeighborsFacts.
Import Vectorizer Metric Neighbors Dbscan MetricFacts DbscanFacts.
Local Open Scope R_scope.

(** *** The sort *)

Lemma insert_perm x l : Permutation (insert x l) (x :: l).
Proof.
  induction l as [|y l IH]; simpl; [reflexivity|].
  destruct (Rleb x y); [reflexivity|].
  rewrite IH. apply perm_swap.
Qed.

Lemma sort_perm l : Permutation (sort l) l.
Proof.
  induction l as [|x l IH]; simpl; [reflexivity|].
  rewrite insert_perm. now constructor.
Qed.

Lemma length_sort l : List.length (sort l) = List.length l.
Proof. apply Permutation_length, sort_perm. Qed.

Lemma insert_sorted x l :
  StronglySorted Rle l -> StronglySorted Rle (insert x l).
Proof.
  induction 1 as [|y l Hl IH Hy]; simpl.
  - repeat constructor.
  - destruct (Rleb x y) eqn:E.
    + apply Rleb_true in E. constructor; [now constructor|].
      constructor; [exact E|].
      eapply Forall_impl; [|exact Hy]. intros z Hz. lra.
    + assert (Hyx : y <= x).
      { unfold Rleb in E. destruct (Rle_dec x y); [discriminate | lra]. }
      constructor; [exact IH|].
      eapply Permutation_Forall; [apply Permutation_sym, insert_perm|].
      now constructor.
Qed.

Lemma sort_sorted l : StronglySorted Rle (sort l).
Proof.
  induction l as [|x l IH]; simpl; [constructor | now apply insert_sorted].
Qed.

(** *** The k-th smallest element of a list, stated without sorting *)

Definition Rltb (x y : R) : bool := if Rlt_dec x y then true else false.

(** How many elements are below [v], and how many are not above it. *)
Definition count_lt (v : R) (l : list R) : nat :=
  List.length (filter (fun x => Rltb x v) l).

Definition count_le (v : R) (l : list R) : nat :=
  List.length (filter (fun x => Rleb x v) l).

(** [v] is the k-th smallest element of [l], counting from 1 and with
    repetitions: it occurs in [l], fewer than [k] elements are below it and
    at least [k] are not above it. *)
Definition kth_smallest (k : nat) (v : R) (l : list R) : Prop :=
  In v l /\ (count_lt v l < k)%nat /\ (k <= count_le v l)%nat.

Lemma filter_perm {A} (f : A -> bool) l l' :
  Permutation l l' -> Permutation (filter f l) (filter f l').
Proof.
  induction 1 as [|x l l' _ IH|x y l|l l' l'' _ IH1 _ IH2]; simpl.
  - constructor.
  - destruct (f x); [now constructor | exact IH].
  - destruct (f x), (f y); try reflexivity. apply perm_swap.
  - now transitivity (filter f l').
Qed.

Lemma count_lt_perm v l l' : Permutation l l' -> count_lt v l = count_lt v l'.
Proof. intros H. apply Permutation_length, filter_perm, H. Qed.

Lemma count_le_perm v l l' : Permutation l l' -> count_le v l = count_le v l'.
Proof. intros H. apply Permutation_length, filter_perm, H. Qed.

Lemma kth_smallest_perm k v l l' :
  Permutation l l' -> kth_smallest k v l -> kth_smallest k v l'.
Proof.
  intros H (Hin & Hlt & Hle). unfold kth_smallest.
  rewrite <- (count_lt_perm v _ _ H), <- (count_le_perm v _ _ H).
  split; [eapply Permutation_in; eassumption | auto].
Qed.

Lemma count_lt_cons v x l :
  count_lt v (x :: l) = ((if Rltb x v then 1 else 0) + count_lt v l)%nat.
Proof. unfold count_lt. simpl. now destruct (Rltb x v). Qed.

Lemma count_le_cons v x l :
  count_le v (x :: l) = ((if Rleb x v then 1 else 0) + count_le v l)%nat.
Proof. unfold count_le. simpl. now destruct (Rleb x v). Qed.

Lemma count_lt_none v l : Forall (fun x => v <= x) l -> count_lt v l = O.
Proof.
  induction 1 as [|x l Hx _ IH]; [reflexivity|].
  rewrite count_lt_cons, IH. unfold Rltb.
  destruct (Rlt_dec x v); [lra | reflexivity].
Qed.

(** In a sorted list the element at position [p] is the [(p+1)]-th
    smallest. *)
Lemma sorted_nth_kth s :
  StronglySorted Rle s ->
  forall p, (p < List.length s)%nat -> kth_smallest (S p) (nth p s 0) s.
Proof.
  induction 1 as [|a s Hs IH Ha]; intros p Hp; simpl in Hp; [lia|].
  destruct p as [|p]; simpl nth.
  - split; [now left|]. rewrite count_lt_cons, count_le_cons.
    rewrite (count_lt_none a s Ha).
    unfold Rltb, Rleb. destruct (Rlt_dec a a); [lra|].
    destruct (Rle_dec a a); [lia | lra].
  - destruct (IH p) as (Hin & Hlt & Hle); [lia|].
    split; [now right|]. rewrite count_lt_cons, count_le_cons.
    assert (Hav : a <= nth p s 0).
    { rewrite Forall_forall in Ha. now apply Ha. }
    unfold Rleb. destruct (Rle_dec a (nth p s 0)); [|contradiction].
    destruct (Rltb a (nth p s 0)); lia.
Qed.

(** The k-th smallest of a list that holds a 0 and otherwise elements that
    are not negative: 0 for [k = 1], and for [k >= 2] the (k-1)-th smallest
    of the other elements. *)
Lemma kth_smallest_with_zero k v others :
  Forall (fun x => 0 <= x) others ->
  kth_smallest k v (0 :: others) ->
  (k = 1%nat -> v = 0)
  /\ ((2 <= k)%nat -> kth_smallest (k - 1) v others).
Proof.
  intros Hpos (Hin & Hlt & Hle).
  rewrite count_lt_cons in Hlt. rewrite count_le_cons in Hle.
  assert (Hv : 0 <= v).
  { destruct Hin as [<-|Hin]; [lra|].
    rewrite Forall_forall in Hpos. now apply Hpos. }
  unfold Rleb in Hle. destruct (Rle_dec 0 v); [|contradiction].
  unfold Rltb in Hlt. destruct (Rlt_dec 0 v) as [Hv0|Hv0].
  - split; [intros ->; lia|]. intros Hk. split; [|lia].
    destruct Hin as [<-|Hin]; [lra | exact Hin].
  - assert (E : v = 0) by lra. subst v.
    split; [reflexivity|]. intros Hk.
    assert (Hnone : count_lt 0 others = O) by now apply count_lt_none.
    split; [|lia].
    assert (Hsome : (1 <= count_le 0 others)%nat) by lia.
    unfold count_le in Hsome.
    destruct (filter (fun x => Rleb x 0) others) as [|x xs] eqn:F;
      [simpl in Hsome; lia|].
    assert (Hx : In x (filter (fun x => Rleb x 0) others))
      by (rewrite F; now left).
    apply filter_In in Hx. destruct Hx as [Hx Hx0].
    apply Rleb_true in Hx0.
    rewrite Forall_forall in Hpos. specialize (Hpos x Hx).
    replace 0 with x by lra. exact Hx.
Qed.

(** *** [plot_k_distance] *)

(** The distances from row [i] to the other rows. *)
Definition other_distances (X : matrix) (i : nat) : list R :=
  map (cosine_distances true X i)
      (filter (fun j => negb (j =? i)%nat) (seq 0 (List.length X))).

(** The value [distances[i, k - 1]] of each row [i], before the final sort. *)
Definition kth_distances (X : matrix) (k : nat) : list R :=
  map (fun i => nth (k - 1) (sort (distances_from X i)) 0)
      (seq 0 (List.length X)).

Lemma kneighbors_ok X k :
  (1 <= k <= List.length X)%nat ->
  kneighbors X k
  = Ok (map (fun i => firstn k (sort (distances_from X i)))
            (seq 0 (List.length X))).
Proof.
  intros H. unfold kneighbors.
  destruct (Nat.eqb_spec k 0); [lia|].
  destruct (Nat.eqb_spec (List.length X) 0); [lia|].
  destruct (Nat.ltb_spec (List.length X) k); [lia | reflexivity].
Qed.

Lemma plot_k_distance_ok X k :
  (1 <= k <= List.length X)%nat ->
  plot_k_distance X k = Ok (sort (kth_distances X k)).
Proof.
  intros H. unfold plot_k_distance. rewrite (kneighbors_ok X k H).
  cbn [bind]. rewrite map_map. do 2 f_equal. apply map_ext.
  intros i. rewrite nth_firstn.
  destruct (Nat.ltb_spec (k - 1) k); [reflexivity | lia].
Qed.

Lemma plot_k_distance_too_many X k :
  (1 <= k)%nat -> (List.length X < k)%nat ->
  exists message, plot_k_distance X k = Raise (ValueError message).
Proof.
  intros H1 H2. unfold plot_k_distance, kneighbors.
  destruct (Nat.eqb_spec k 0); [lia|].
  destruct (Nat.eqb_spec (List.length X) 0); [eexists; reflexivity|].
  destruct (Nat.ltb_spec (List.length X) k); [eexists; reflexivity | lia].
Qed.

Lemma seq_split_at (l : list nat) i :
  NoDup l -> In i l ->
  Permutation l (i :: filter (fun j => negb (j =? i)%nat) l).
Proof.
  induction 1 as [|a l Ha Hl IH]; intros Hin; [contradiction|]. simpl.
  destruct (Nat.eqb_spec a i) as [->|Hai]; simpl.
  - constructor. clear IH Hl Hin. induction l as [|b l IH]; simpl; [constructor|].
    destruct (Nat.eqb_spec b i) as [->|_]; simpl.
    + exfalso. apply Ha. now left.
    + constructor. apply IH. intros H. apply Ha. now right.
  - destruct Hin as [->|Hin]; [contradiction|].
    rewrite (IH Hin) at 1. apply perm_swap.
Qed.

(** The row of distances holds the distance 0 of the row to itself, then
    the distances to the other rows. *)
Lemma distances_from_self X i :
  (i < List.length X)%nat ->
  Permutation (distances_from X i) (0 :: other_distances X i).
Proof.
  intros Hi. unfold distances_from, other_distances.
  eapply Permutation_trans.
  - apply Permutation_map, (seq_split_at _ i);
      [apply seq_NoDup | apply in_seq; lia].
  - cbn [map]. rewrite cosine_distances_diagonal. reflexivity.
Qed.

Lemma other_distances_nonneg X i : Forall (fun x => 0 <= x) (other_distances X i).
Proof.
  unfold other_distances. rewrite Forall_map, Forall_forall.
  intros j _. apply cosine_distances_nonneg.
Qed.

Lemma length_distances_from X i : List.length (distances_from X i) = List.length X.
Proof. unfold distances_from. now rewrite length_map, length_seq. Qed.

(** What [plot_k_distance] returns for [1 <= k <= N]. *)
Lemma plot_k_distance_spec X k :
  (1 <= k <= List.length X)%nat ->
  plot_k_distance X k = Ok (sort (kth_distances X k))
  /\ StronglySorted Rle (sort (kth_distances X k))
  /\ Permutation (sort (kth_distances X k)) (kth_distances X k)
  /\ List.length (kth_distances X k) = List.length X
  /\ forall i, (i < List.length X)%nat ->
       let v := nth i (kth_distances X k) 0 in
       kth_smallest k v (distances_from X i)
       /\ (k = 1%nat -> v = 0)
       /\ ((2 <= k)%nat -> kth_smallest (k - 1) v (other_distances X i)).
Proof.
  intros Hk. split; [now apply plot_k_distance_ok|].
  split; [apply sort_sorted|]. split; [apply sort_perm|].
  split; [unfold kth_distances; now rewrite length_map, length_seq|].
  intros i Hi. unfold kth_distances. rewrite nth_map_seq by exact Hi.
  cbv zeta.
  assert (Hkth : kth_smallest k (nth (k - 1) (sort (distances_from X i)) 0)
                   (distances_from X i)).
  { apply (kth_smallest_perm _ _ (sort (distances_from X i)));
      [apply sort_perm|].
    replace k with (S (k - 1)) at 1 by lia.
    apply sorted_nth_kth; [apply sort_sorted|].
    rewrite length_sort, length_distances_from. lia. }
  split; [exact Hkth|].
  apply kth_smallest_with_zero; [apply other_distances_nonneg|].
  eapply kth_smallest_perm; [apply distances_from_self, Hi | exact Hkth].
Qed.

(** *** The k-distance and the core samples of the clusterer *)

Lemma count_le_mono v w l : v <= w -> (count_le v l <= count_le w l)%nat.
Proof.
  intros H. induction l as [|x l IH]; [reflexivity|].
  rewrite !count_le_cons. unfold Rleb.
  destruct (Rle_dec x v), (Rle_dec x w); try lia. lra.
Qed.

Lemma count_le_below v w l : w < v -> (count_le w l <= count_lt v l)%nat.
Proof.
  intros H. induction l as [|x l IH]; [reflexivity|].
  rewrite count_le_cons, count_lt_cons. unfold Rleb, Rltb.
  destruct (Rle_dec x w), (Rlt_dec x v); try lia. lra.
Qed.

(** The k-th smallest element is within a bound exactly when at least [k]
    elements are. *)
Lemma kth_smallest_threshold k v l bound :
  kth_smallest k v l -> (v <= bound <-> (k <= count_le bound l)%nat).
Proof.
  intros (_ & Hlt & Hle). split.
  - intros H. pose proof (count_le_mono v bound l H). lia.
  - intros H. destruct (Rle_dec v bound) as [|Hn]; [assumption|].
    pose proof (count_le_below v bound l ltac:(lra)). lia.
Qed.

(** C1, as stated, fails: for the two orthogonal unit rows and [k = 1] the
    values returned are not the distances to the nearest other row. *)
Lemma nearest_neighbor_is_self :
  ~ (forall X k ds,
       (2 <= List.length X)%nat -> (1 <= k <= List.length X - 1)%nat ->
       plot_k_distance X k = Ok ds ->
       forall v, In v ds ->
         exists i, (i < List.length X)%nat
                   /\ kth_smallest k v (other_distances X i)).
Proof.
  intros H.
  destruct (plot_k_distance_spec two_unit_rows 1) as (E & _ & Hp & Hlen & Hv);
    [simpl; lia|].
  specialize (H two_unit_rows 1%nat _ (le_n 2) (conj (le_n 1) (le_n 1)) E).
  destruct (Hv O) as (_ & Hzero & _); [simpl; lia|].
  specialize (Hzero eq_refl).
  destruct (H 0) as (i & Hi & Hin & _).
  - apply (Permutation_in _ (Permutation_sym Hp)).
    rewrite <- Hzero. apply nth_In. rewrite Hlen. simpl. lia.
  - destruct (two_unit_rows_distance true) as [D01 D10].
    unfold other_distances in Hin. simpl in Hi.
    destruct i as [|[|i]]; [| |lia];
      cbn [two_unit_rows List.length seq filter Nat.eqb negb map In] in Hin;
      rewrite ?D01, ?D10 in Hin; destruct Hin as [Hin|[]]; lra.
Qed.

(** C1, amended.  For every corpus of [N >= 1] vectors and every [k] with
    [1 <= k <= N], the returned sequence is sorted ascending and holds, for
    each document, the k-th smallest cosine distance from that document to
    all documents of the corpus, the document itself included (at distance
    0): so the value is 0 for [k = 1], and for [k >= 2] it is the
    (k-1)-th smallest distance to the other documents. *)
Theorem k_distance_counts_self (X : matrix) (k : nat) :
  (1 <= k <= List.length X)%nat ->
  exists ds per_document,
    plot_k_distance X k = Ok ds
    /\ StronglySorted Rle ds
    /\ Permutation ds per_document
    /\ List.length per_document = List.length X
    /\ forall i, (i < List.length X)%nat ->
         let v := nth i per_document 0 in
         kth_smallest k v (distances_from X i)
         /\ (k = 1%nat -> v = 0)
         /\ ((2 <= k)%nat -> kth_smallest (k - 1) v (other_distances X i)).
Proof.
  intros Hk. exists (sort (kth_distances X k)), (kth_distances X k).
  now apply plot_k_distance_spec.
Qed.

Lemma k_distance_counts_self_witness :
  exists ds per_document,
    plot_k_distance two_unit_rows 2 = Ok ds
    /\ StronglySorted Rle ds
    /\ Permutation ds per_document
    /\ List.length per_document = 2%nat
    /\ forall i, (i < 2)%nat ->
         let v := nth i per_document 0 in
         kth_smallest 2 v (distances_from two_unit_rows i)
         /\ (2%nat = 1%nat -> v = 0)
         /\ ((2 <= 2)%nat -> kth_smallest 1 v (other_distances two_unit_rows i)).
Proof.
  apply (k_distance_counts_self two_unit_rows 2). simpl. lia.
Defined.

(** C3, as stated, fails: for a corpus of one document and [k = 1] the
    operation returns the distance of the document to itself. *)
Lemma single_document_no_error :
  plot_k_distance [[1]] 1 = Ok [0]
  /\ ~ (forall X k, (List.length X <= k)%nat ->
          exists e, plot_k_distance X k = Raise e).
Proof.
  assert (E : plot_k_distance [[1]] 1 = Ok [0]).
  { rewrite plot_k_distance_ok by (simpl; lia).
    unfold kth_distances, distances_from.
    cbn [List.length seq map]. rewrite cosine_distances_diagonal.
    cbn [sort fold_right insert Nat.sub nth]. reflexivity. }
  split; [exact E|].
  intros H. destruct (H [[1]] 1%nat (le_n 1)) as [e He].
  rewrite E in He. discriminate.
Qed.

(** C3, amended.  For every corpus of size [N] and every [k >= 1]: when
    [N < k] the operation fails with the [ValueError] of the neighbours
    search; when [k <= N], and so for [k = N] and for a single document
    with [k = 1], it returns [N] distances. *)
Theorem k_distance_fails_above_corpus_size (X : matrix) (k : nat) :
  (1 <= k)%nat ->
  ((List.length X < k)%nat ->
     exists message, plot_k_distance X k = Raise (ValueError message))
  /\ ((k <= List.length X)%nat ->
        exists ds, plot_k_distance X k = Ok ds
                   /\ List.length ds = List.length X).
Proof.
  intros Hk. split.
  - now apply plot_k_distance_too_many.
  - intros HN. exists (sort (kth_distances X k)).
    split; [now apply plot_k_distance_ok|].
    unfold kth_distances. now rewrite length_sort, length_map, length_seq.
Qed.

Lemma k_distance_fails_above_corpus_size_witness :
  ((List.length two_unit_rows < 3)%nat ->
     exists message, plot_k_distance two_unit_rows 3 = Raise (ValueError message))
  /\ ((3 <= List.length two_unit_rows)%nat ->
        exists ds, plot_k_distance two_unit_rows 3 = Ok ds
                   /\ List.length ds = List.length two_unit_rows).
Proof.
  apply (k_distance_fails_above_corpus_size two_unit_rows 3). lia.
Defined.

End NeighborsFacts.

(* ===================================================================== *)
(** ** Properties of the vectorizer *)
(* ===================================================================== *)

Module VectorizerFacts.
Import Text Codec Vectorizer MetricFacts NormalizerFacts CaseFacts.
Local Open Scope R_scope.

(** *** N-grams *)

Lemma windows_nonempty n s :
  (n <= List.length s)%nat -> s <> [] -> windows n s <> [].
Proof.
  intros Hn Hs. destruct s as [|c s]; [contradiction|].
  cbn [windows]. destruct (Nat.leb_spec n (List.length (c :: s))); [|lia].
  discriminate.
Qed.

(** A text has an n-gram exactly when it has at least three characters. *)
Lemma char_ngrams_nil text :
  char_ngrams text = [] <-> (List.length text < 3)%nat.
Proof.
  unfold char_ngrams, min_n, max_n. split.
  - intros H. destruct (Nat.lt_ge_cases (List.length text) 3) as [|Hge];
      [assumption|]. exfalso.
    assert (Hs : exists m, (Nat.min (5 + 1) (List.length text + 1) - 3 = S m)%nat).
    { exists (Nat.min (5 + 1) (List.length text + 1) - 4)%nat. lia. }
    destruct Hs as [m Hm]. rewrite Hm in H. cbn [seq flat_map] in H.
    apply app_eq_nil in H. destruct H as [H _].
    apply (windows_nonempty 3 text); [lia| |exact H].
    intros ->. simpl in Hge. lia.
  - intros H.
    replace (Nat.min (5 + 1) (List.length text + 1) - 3)%nat with O by lia.
    reflexivity.
Qed.

Lemma analyze_nil doc :
  analyze doc = [] <-> (List.length (collapse_spaces (lower doc)) < 3)%nat.
Proof. apply char_ngrams_nil. Qed.

(** A text made of white space only collapses to at most one character. *)
Lemma collapse_blank s : forall pending,
  forallb isspace s = true ->
  (List.length (collapse_from pending s) <= 1)%nat.
Proof.
  induction s as [|c s IH]; intros pending H.
  - destruct pending; simpl; lia.
  - simpl in H. apply andb_true_iff in H. destruct H as [Hc Hs].
    destruct pending; cbn [collapse_from]; rewrite Hc; now apply IH.
Qed.

Lemma analyze_blank doc : forallb isspace doc = true -> analyze doc = [].
Proof.
  intros H. apply analyze_nil. rewrite (lower_blank _ H).
  pose proof (collapse_blank doc None H). unfold collapse_spaces. lia.
Qed.

(** *** The vocabulary *)

Lemma str_compare_eq a : forall b, str_compare a b = Eq -> a = b.
Proof.
  induction a as [|x a IH]; intros [|y b]; simpl; try discriminate; auto.
  destruct (N.compare_spec x y) as [->| |]; try discriminate.
  intros H. now rewrite (IH b H).
Qed.

Lemma in_insert_term t u sorted :
  In t (insert_term u sorted) <-> t = u \/ In t sorted.
Proof.
  induction sorted as [|w rest IH]; simpl; [intuition|].
  destruct (str_compare u w) eqn:E; simpl.
  - apply str_compare_eq in E. subst. intuition.
  - intuition.
  - rewrite IH. intuition.
Qed.

Lemma in_vocabulary corpus t :
  In t (vocabulary corpus) <-> exists doc, In doc corpus /\ In t (analyze doc).
Proof.
  unfold vocabulary. rewrite <- in_flat_map.
  induction (flat_map analyze corpus) as [|u l IH]; simpl; [reflexivity|].
  rewrite in_insert_term, IH. intuition.
Qed.

(** *** Weights *)

Lemma df_le corpus t : (df corpus t <= List.length corpus)%nat.
Proof. unfold df. apply filter_length_le. Qed.

Lemma idf_ge_1 corpus t : 1 <= idf corpus t.
Proof.
  unfold idf.
  assert (Hd : 0 < INR (1 + df corpus t)) by (apply lt_0_INR; lia).
  assert (Hle : INR (1 + df corpus t) <= INR (1 + List.length corpus)).
  { apply le_INR. pose proof (df_le corpus t). lia. }
  assert (H1 : 1 <= INR (1 + List.length corpus) / INR (1 + df corpus t)).
  { apply (Rmult_le_reg_r (INR (1 + df corpus t))); [exact Hd|].
    unfold Rdiv. rewrite Rmult_assoc, Rinv_l by lra. lra. }
  assert (Hln : 0 <= ln (INR (1 + List.length corpus) / INR (1 + df corpus t))).
  { rewrite <- ln_1. destruct H1 as [H1|H1].
    - left. apply ln_increasing; lra.
    - rewrite <- H1. lra. }
  lra.
Qed.

Lemma tf_pos t doc : In t (analyze doc) -> (1 <= tf t doc)%nat.
Proof. intros H. unfold tf. now apply count_occ_In. Qed.

(** A document without n-grams has a zero row... *)
Lemma tfidf_row_zero corpus doc :
  analyze doc = [] -> zero_vector (tfidf_row corpus doc).
Proof.
  intros H. unfold tfidf_row, zero_vector, tf. rewrite H, Forall_map.
  apply Forall_forall. intros t _. simpl. lra.
Qed.

(** ... and a document of the corpus with an n-gram has not. *)
Lemma tfidf_row_nonzero corpus doc :
  In doc corpus -> analyze doc <> [] -> ~ zero_vector (tfidf_row corpus doc).
Proof.
  intros Hin Hne Hz. destruct (analyze doc) as [|t ts] eqn:E; [contradiction|].
  assert (Ht : In t (analyze doc)) by (rewrite E; now left).
  assert (Hv : In t (vocabulary corpus)) by (apply in_vocabulary; eauto).
  unfold zero_vector, tfidf_row in Hz. rewrite Forall_map, Forall_forall in Hz.
  specialize (Hz t Hv).
  pose proof (idf_ge_1 corpus t) as Hi.
  assert (Hc : 1 <= INR (tf t doc)).
  { change 1 with (INR 1). apply le_INR, tf_pos, Ht. }
  nra.
Qed.

Lemma transform_row_zero corpus doc :
  analyze doc = [] -> zero_vector (transform_row corpus doc).
Proof. intros H. apply normalize_zero, tfidf_row_zero, H. Qed.

Lemma transform_row_unit corpus doc :
  In doc corpus -> analyze doc <> [] -> l2_norm (transform_row corpus doc) = 1.
Proof. intros Hin H. now apply l2_norm_normalize, tfidf_row_nonzero. Qed.

Lemma fit_transform_inv corpus X :
  fit_transform corpus = Ok X -> X = map (transform_row corpus) corpus.
Proof.
  unfold fit_transform. destruct (vocabulary corpus); [discriminate|].
  now intros [= <-].
Qed.

(** A corpus of a two-letter document and a five-letter one. *)
Definition short_and_long : list str := [of_string "ab"; of_string "hello"].

(** C6, as stated, fails: the document [ab] is not blank, and its row has
    norm 0. *)
Lemma short_document_zero_row :
  ~ (forall corpus X i doc row,
       fit_transform corpus = Ok X ->
       nth_error corpus i = Some doc -> nth_error X i = Some row ->
       existsb (fun c => negb (isspace c)) doc = true ->
       l2_norm row = 1).
Proof.
  intros H.
  specialize (H short_and_long (map (transform_row short_and_long) short_and_long)
                O (of_string "ab") (transform_row short_and_long (of_string "ab"))
                eq_refl eq_refl eq_refl eq_refl).
  assert (Hz : l2_norm (transform_row short_and_long (of_string "ab")) = 0).
  { apply l2_norm_zero, transform_row_zero. reflexivity. }
  lra.
Qed.

(** C6, amended.  Whenever the vectorizer returns, every document whose
    text, after runs of white space are collapsed, has at least three
    characters gets a row of Euclidean norm 1, and every document with
    fewer characters than that, in particular every all-blank document,
    gets the zero row. *)
Theorem vector_norm (corpus : list str) (X : matrix) (i : nat) (doc : str) :
  fit_transform corpus = Ok X -> nth_error corpus i = Some doc ->
  exists row,
    nth_error X i = Some row
    /\ ((3 <= List.length (collapse_spaces (lower doc)))%nat -> l2_norm row = 1)
    /\ ((List.length (collapse_spaces (lower doc)) < 3)%nat -> zero_vector row)
    /\ (forallb isspace doc = true -> zero_vector row).
Proof.
  intros HX Hdoc. apply fit_transform_inv in HX. subst X.
  exists (transform_row corpus doc). split; [now apply map_nth_error|].
  split; [|split].
  - intros H. apply transform_row_unit; [eapply nth_error_In; eassumption|].
    rewrite analyze_nil. lia.
  - intros H. now apply transform_row_zero, analyze_nil.
  - intros H. now apply transform_row_zero, analyze_blank.
Qed.

Lemma vector_norm_witness :
  exists row,
    nth_error (map (transform_row short_and_long) short_and_long) 1 = Some row
    /\ ((3 <= 5)%nat -> l2_norm row = 1)
    /\ ((5 < 3)%nat -> zero_vector row)
    /\ (false = true -> zero_vector row).
Proof.
  apply (vector_norm short_and_long
           (map (transform_row short_and_long) short_and_long) 1
           (of_string "hello")); reflexivity.
Defined.

(** The batch fails when no document has an n-gram. *)
Example fit_transform_empty_vocabulary :
  exists message, fit_transform [of_string "ab"] = Raise (ValueError message).
Proof. eexists. reflexivity. Qed.

End VectorizerFacts.

(* ===================================================================== *)
(** ** Properties of the archive and of the whole run *)
(* ===================================================================== *)

Module PipelineFacts.
Import Text Normalizer Codec Vectorizer Neighbors Dbscan Pipeline.
Import ProcessFacts VectorizerFacts DbscanFacts NeighborsFacts.

(** *** Folder names *)

Lemma of_string_inj a b : of_string a = of_string b -> a = b.
Proof.
  unfold of_string. intros H.
  rewrite <- (string_of_list_ascii_of_string a),
          <- (string_of_list_ascii_of_string b).
  f_equal. revert H.
  generalize (list_ascii_of_string a) (list_ascii_of_string b).
  induction l as [|x l IH]; intros [|y l']; simpl; try discriminate; auto.
  intros [= Hxy Hl]. apply Nat2N.inj in Hxy. f_equal; [|now apply IH].
  rewrite <- (ascii_nat_embedding x), <- (ascii_nat_embedding y). now f_equal.
Qed.

Lemma str_of_Z_inj a b : str_of_Z a = str_of_Z b -> a = b.
Proof.
  unfold str_of_Z. intros H. apply of_string_inj in H.
  apply DecimalZ.to_int_inj.
  assert (E : Some (Z.to_int a) = Some (Z.to_int b))
    by (rewrite <- !NilEmpty.isi; now f_equal).
  now injection E.
Qed.

(** Two labels never share a folder. *)
Lemma folder_name_inj a b : folder_name a = folder_name b -> a = b.
Proof.
  unfold folder_name. intros H. apply app_inv_head in H. now apply str_of_Z_inj.
Qed.

(** *** The archive *)

Definition entry_of (p : UploadedFile * Z) : ZipEntry :=
  {| folder := folder_name (snd p); filename := name (fst p);
     content := getvalue (fst p) |}.

Lemma save_loop pairs : forall zip_file,
  fold_left (fun zip_file '(file, label) =>
               writestr zip_file (folder_name label) (name file) (getvalue file))
            pairs zip_file
  = zip_file ++ map entry_of pairs.
Proof.
  induction pairs as [|[f l] pairs IH]; intros z; simpl.
  - now rewrite app_nil_r.
  - rewrite IH. unfold writestr. now rewrite <- app_assoc.
Qed.

(** [save_clustered_files] in closed form: one entry per pair, in order. *)
Lemma save_clustered_files_spec pf labels :
  save_clustered_files pf labels = map entry_of (combine pf labels).
Proof. unfold save_clustered_files. now rewrite save_loop. Qed.


Lemma nth_error_combine {A B} (l : list A) (l' : list B) i a b :
  nth_error l i = Some a -> nth_error l' i = Some b ->
  nth_error (combine l l') i = Some (a, b).
Proof.
  revert l l'. induction i as [|i IH]; intros [|x l] [|y l']; simpl;
    try discriminate.
  - now intros [= ->] [= ->].
  - apply IH.
Qed.

Lemma nth_error_save pf labels i f label :
  nth_error pf i = Some f -> nth_error labels i = Some label ->
  nth_error (save_clustered_files pf labels) i
  = Some {| folder := folder_name label; filename := name f;
            content := getvalue f |}.
Proof.
  intros Hf Hl. rewrite save_clustered_files_spec.
  now rewrite (map_nth_error entry_of i _ (nth_error_combine _ _ _ _ _ Hf Hl)).
Qed.

(** *** Groups *)









(** *** What survives [process_files] *)

Lemma survives_spec file :
  survives file = true
  <-> exists content, decode (getvalue file) = Some content
                      /\ get_file_structure content <> [].
Proof.
  unfold survives, structure_of.
  destruct (decode (getvalue file)) as [content|]; simpl.
  - split.
    + intros H. exists content. split; [reflexivity|].
      intros E. rewrite E in H. discriminate.
    + intros (c & [= <-] & H). destruct (get_file_structure content);
        [contradiction | reflexivity].
  - split; [discriminate | intros (c & H & _); discriminate].
Qed.

(** *** Example uploads *)

Definition upload (file_name text : string) : UploadedFile :=
  {| name := of_string file_name; getvalue := bytes_of_string text |}.

(** A file of white space only, a file that is not UTF-8, and two files
    with text. *)
Definition blank_file : UploadedFile :=
  {| name := of_string "blank.txt"; getvalue := [x20; x0a; x09; x0a] |}.

Definition binary_file : UploadedFile :=
  {| name := of_string "binary.txt"; getvalue := [xff; xfe; x41] |}.

Definition file_a : UploadedFile := upload "a.txt" "Hello World".
Definition file_b : UploadedFile := upload "b.txt" "hello world!".

Definition uploads : list UploadedFile :=
  [binary_file; file_a; blank_file; file_b].

Definition structures_ab : list str :=
  [of_string "hello world"; of_string "hello world!"].

Definition X_ab : matrix := map (transform_row structures_ab) structures_ab.

Lemma process_uploads :
  process_files uploads
  = Ok (Some ([file_a; file_b], [of_string "a.txt"; of_string "b.txt"], X_ab)).
Proof. reflexivity. Qed.

(** *** C2 *)

(** C2, as stated, fails: [blank_file] normalizes to the empty string and
    is not among the processed files. *)
Lemma blank_document_not_retained :
  ~ (forall files f text pf names X,
       In f files -> decode (getvalue f) = Some text ->
       get_file_structure text = [] ->
       process_files files = Ok (Some (pf, names, X)) -> In f pf).
Proof.
  intros H.
  specialize (H uploads blank_file [32; 10; 9; 10]%N
                [file_a; file_b] [of_string "a.txt"; of_string "b.txt"] X_ab).
  assert (Hin : In blank_file [file_a; file_b]).
  { apply H; try reflexivity. right; right; left; reflexivity. }
  simpl in Hin. destruct Hin as [E|[E|[]]]; discriminate.
Qed.

(** C2, amended.  A document whose normalization yields the empty string is
    dropped by [process_files] before vectorization: it is not among the
    processed files, which all have a non-empty structure, and there are as
    many names and vector rows as processed files, so that it gets no
    vector, no label and no archive entry. *)
Theorem blank_document_dropped (files : list UploadedFile) (f : UploadedFile)
    (text : str) (pf : list UploadedFile) (names : list str) (X : matrix) :
  decode (getvalue f) = Some text -> get_file_structure text = [] ->
  process_files files = Ok (Some (pf, names, X)) ->
  ~ In f pf
  /\ Forall (fun g => exists content, decode (getvalue g) = Some content
                        /\ get_file_structure content <> []) pf
  /\ List.length names = List.length pf
  /\ List.length X = List.length pf.
Proof.
  intros Hdec Hempty Hrun.
  apply process_files_inv in Hrun. destruct Hrun as (-> & -> & ->).
  split; [|split; [|split]].
  - intros Hin. apply filter_In in Hin. destruct Hin as [_ Hs].
    apply survives_spec in Hs. destruct Hs as (c & Hc & Hne).
    rewrite Hdec in Hc. injection Hc as <-. contradiction.
  - apply Forall_forall. intros g Hg. apply filter_In in Hg.
    now apply survives_spec.
  - now rewrite length_map.
  - now rewrite !length_map.
Qed.

Lemma blank_document_dropped_witness :
  ~ In blank_file [file_a; file_b]
  /\ Forall (fun g => exists content, decode (getvalue g) = Some content
                        /\ get_file_structure content <> []) [file_a; file_b]
  /\ List.length [of_string "a.txt"; of_string "b.txt"] = 2%nat
  /\ List.length X_ab = 2%nat.
Proof.
  apply (blank_document_dropped uploads blank_file
           [32; 10; 9; 10]%N
           [file_a; file_b] [of_string "a.txt"; of_string "b.txt"] X_ab);
    reflexivity.
Defined.

(** *** C7 *)




(** *** C10 *)



(** *** C4 *)

Local Open Scope R_scope.

Lemma main_nothing_uploaded k eps min_samples save :
  main [] k eps min_samples save = ([], Ok None).
Proof. reflexivity. Qed.

(** A run in which the clusterer raises: two stages are complete by then. *)
Lemma main_stops_at_clustering files k eps min_samples save pf names X ds e :
  process_files files = Ok (Some (pf, names, X)) ->
  plot_k_distance X k = Ok ds ->
  fit_predict X eps min_samples = Raise e ->
  main files k eps min_samples save = ([Vectorized; KDistancePlotted], Raise e).
Proof.
  intros Hp Hk Hf. destruct files as [|file files]; [discriminate|].
  unfold main, main_body, bind_run, lift, done. rewrite Hp, Hk, Hf. reflexivity.
Qed.

Lemma fit_predict_invalid X eps min_samples :
  eps <= 0 \/ min_samples = O ->
  exists message,
    fit_predict X eps min_samples = Raise (InvalidParameterError message).
Proof.
  intros H. unfold fit_predict. destruct (Rleb eps 0) eqn:E.
  - eexists. reflexivity.
  - destruct H as [H| ->]; [|eexists; reflexivity].
    apply Rleb_false in E. lra.
Qed.

(** Nothing compares the names of the uploaded files: the same files
    uploaded twice are all processed. *)
Lemma process_files_twice files pf names X :
  process_files files = Ok (Some (pf, names, X)) ->
  exists X2,
    process_files (files ++ files) = Ok (Some (pf ++ pf, names ++ names, X2)).
Proof.
  intros H. pose proof (process_files_inv _ _ _ _ H) as (Hpf & Hn & _).
  rewrite process_files_spec in H |- *. rewrite filter_app, <- Hpf in *.
  destruct pf as [|f pf]; [discriminate|].
  cbv zeta in H |- *. cbn [app].
  change (f :: pf ++ f :: pf) with ((f :: pf) ++ f :: pf).
  destruct (vocabulary (map structure_or_empty (f :: pf))) as [|t ts] eqn:V;
    [discriminate|].
  assert (Ht : In t (vocabulary (map structure_or_empty ((f :: pf) ++ f :: pf)))).
  { apply in_vocabulary.
    assert (Ht : In t (vocabulary (map structure_or_empty (f :: pf))))
      by (rewrite V; now left).
    apply in_vocabulary in Ht. destruct Ht as (doc & Hd & Hin).
    exists doc. split; [|exact Hin]. rewrite map_app. apply in_or_app. now left. }
  destruct (vocabulary (map structure_or_empty ((f :: pf) ++ f :: pf)));
    [contradiction|].
  eexists. rewrite Hn, map_app. reflexivity.
Qed.

(** C4, as stated, fails: with an empty document list the run ends
    without an exception. *)
Lemma empty_upload_no_error :
  main [] 1 (1/20) 1 false = ([], Ok None)
  /\ ~ (forall files k eps min_samples save,
          files = [] \/ eps <= 0 \/ min_samples = O
          \/ ~ NoDup (map name files) ->
          exists e, main files k eps min_samples save = ([], Raise e)).
Proof.
  split; [reflexivity|]. intros H.
  destruct (H [] 1%nat (1/20) 1%nat false) as [e He]; [now left|].
  discriminate.
Qed.

(** C4, amended.  There is no validation step and no [ConfigurationError]:
    [eps <= 0] or [min_samples < 1] is rejected by the clusterer itself
    with its [InvalidParameterError], after the vectorization and the
    k-distance computation are done; with an empty document list the run
    ends with nothing clustered and without an exception; duplicate
    document ids are not looked for, the same files given twice are all
    processed. *)
Theorem validation_is_late (files pf : list UploadedFile) (names : list str)
    (X : matrix) (k min_samples : nat) (eps : R) (save : bool) :
  process_files files = Ok (Some (pf, names, X)) ->
  (1 <= k <= List.length X)%nat ->
  eps <= 0 \/ min_samples = O ->
  (exists message,
      main files k eps min_samples save
      = ([Vectorized; KDistancePlotted], Raise (InvalidParameterError message)))
  /\ main [] k eps min_samples save = ([], Ok None)
  /\ (exists X2,
        process_files (files ++ files)
        = Ok (Some (pf ++ pf, names ++ names, X2))).
Proof.
  intros Hp Hk Hbad. split; [|split].
  - destruct (fit_predict_invalid X eps min_samples Hbad) as [message Hf].
    exists message.
    eapply main_stops_at_clustering;
      [exact Hp | now apply plot_k_distance_ok | exact Hf].
  - reflexivity.
  - eapply process_files_twice. exact Hp.
Qed.

Lemma validation_is_late_witness :
  (exists message,
      main uploads 1 0 1 false
      = ([Vectorized; KDistancePlotted], Raise (InvalidParameterError message)))
  /\ main [] 1 0 1 false = ([], Ok None)
  /\ (exists X2,
        process_files (uploads ++ uploads)
        = Ok (Some ([file_a; file_b] ++ [file_a; file_b],
                    [of_string "a.txt"; of_string "b.txt"]
                    ++ [of_string "a.txt"; of_string "b.txt"], X2))).
Proof.
  apply (validation_is_late uploads [file_a; file_b]
           [of_string "a.txt"; of_string "b.txt"] X_ab 1 1 0 false).
  - reflexivity.
  - simpl. lia.
  - left. lra.
Defined.

(** *** A run with a short document *)

Definition file_short : UploadedFile := upload "s.txt" "ab".
Definition file_long : UploadedFile := upload "l.txt" "hello".

(** A document of two letters is processed, gets the zero row, and leaves
    the clusterer as noise although [min_samples = 1]. *)
Example short_document_is_noise :
  exists labels,
    main [file_short; file_long] 1 (1/2) 1 false
    = ([Vectorized; KDistancePlotted; Clustered; Visualized],
       Ok (Some (labels, None)))
    /\ nth_error labels 0 = Some NOISE.
Proof.
  set (X := map (transform_row short_and_long) short_and_long).
  assert (Hp : process_files [file_short; file_long]
               = Ok (Some ([file_short; file_long],
                           [of_string "s.txt"; of_string "l.txt"], X)))
    by reflexivity.
  assert (Hk : plot_k_distance X 1 = Ok (sort (kth_distances X 1)))
    by (apply plot_k_distance_ok; simpl; lia).
  destruct (zero_row_noise X (1/2) 1 0) as (labels & Hf & Hnoise).
  - lra.
  - lia.
  - simpl. lia.
  - apply transform_row_zero. reflexivity.
  - exists labels. split; [|exact Hnoise].
    unfold main, main_body, bind_run, lift, done, ret.
    rewrite Hp, Hk, Hf. reflexivity.
Qed.

End PipelineFacts.


(* ===================================================================== *)
(** ** More on the normalizer *)
(* ===================================================================== *)

Module NormalizerMore.
Import Text Normalizer CaseFacts NormalizerFacts.

Lemma dropwhile_nil {A} (p : A -> bool) l :
  dropwhile p l = [] <-> forallb p l = true.
Proof.
  induction l as [|x l IH]; simpl; [tauto|].
  destruct (p x); simpl; [exact IH | split; discriminate].
Qed.

Lemma forallb_rev {A} (p : A -> bool) l : forallb p (rev l) = forallb p l.
Proof.
  induction l as [|x l IH]; [reflexivity|]. simpl.
  rewrite forallb_app, IH. simpl. rewrite andb_true_r. apply andb_comm.
Qed.

(** A line strips to nothing exactly when it is white space only. *)
Lemma strip_nil l : strip l = [] <-> forallb isspace l = true.
Proof.
  split.
  - intros H. apply dropwhile_nil. fold (lstrip l).
    pose proof (lstrip_no_lead l) as Hl.
    unfold strip, rstrip in H.
    apply (f_equal (@rev _)) in H. rewrite rev_involutive in H. simpl in H.
    apply dropwhile_nil in H. rewrite forallb_rev in H.
    destruct (lstrip l) as [|c s]; [reflexivity|].
    simpl in Hl, H. rewrite Hl in H. discriminate.
  - intros H. unfold strip, lstrip.
    rewrite (proj2 (dropwhile_nil isspace l) H). reflexivity.
Qed.

Lemma split_nonempty sep s : split sep s <> [].
Proof.
  destruct s as [|c s]; simpl; [discriminate|].
  destruct (c =? sep)%N; [discriminate|].
  destruct (split sep s); discriminate.
Qed.

(** A text is white space only exactly when each of its lines is. *)
Lemma split_blank s :
  Forall (fun l => forallb isspace l = true) (split LF s)
  <-> forallb isspace s = true.
Proof.
  induction s as [|c s IH]; simpl.
  - split; [reflexivity | repeat constructor].
  - destruct (N.eqb_spec c LF) as [->|Hc].
    + change (isspace LF) with true. simpl. rewrite <- IH. split.
      * intros H. now inversion H.
      * intros H. now constructor.
    + pose proof (split_nonempty LF s) as Hne.
      destruct (split LF s) as [|l ls]; [contradiction|].
      rewrite andb_true_iff, <- IH. split.
      * intros H. inversion H as [|? ? H1 H2]; subst. simpl in H1.
        apply andb_true_iff in H1. destruct H1. split; [assumption|].
        now constructor.
      * intros [H1 H2]. inversion H2; subst.
        constructor; [simpl; now rewrite H1 | assumption].
Qed.

Lemma filter_nil {A} (f : A -> bool) l :
  filter f l = [] <-> Forall (fun x => f x = false) l.
Proof.
  induction l as [|x l IH]; simpl; [split; [constructor | reflexivity]|].
  destruct (f x) eqn:E.
  - split; [discriminate|]. intros H. inversion H; congruence.
  - rewrite IH. split; [now constructor | intros H; now inversion H].
Qed.

(** The lines [get_file_structure] keeps, once normalized. *)
Definition cleaned_lines (file_content : str) : list str :=
  map normalize_line
      (filter (fun line => truthy (strip line)) (split LF file_content)).

Lemma get_file_structure_join x :
  get_file_structure x = join [SPACE] (cleaned_lines x).
Proof. reflexivity. Qed.

Lemma cleaned_lines_clean x : Forall clean (cleaned_lines x).
Proof.
  unfold cleaned_lines. rewrite Forall_map, Forall_forall. intros l Hl.
  apply filter_In in Hl. destruct Hl as [Hin Hne].
  apply normalize_line_clean; [|exact Hne].
  pose proof (split_no_LF x) as HF. rewrite Forall_forall in HF. now apply HF.
Qed.

Lemma join_nil x : get_file_structure x = [] <-> cleaned_lines x = [].
Proof.
  rewrite get_file_structure_join. split; [|now intros ->].
  pose proof (cleaned_lines_clean x) as Hc.
  destruct (cleaned_lines x) as [|p rest]; [reflexivity|].
  inversion Hc; subst. intros H.
  destruct (join_clean p rest) as [Hne _ _ _ _]; try assumption.
  contradiction.
Qed.

Lemma structure_nil_iff_blank (x : str) :
  get_file_structure x = [] <-> forallb isspace x = true.
Proof.
  rewrite join_nil, <- split_blank. unfold cleaned_lines.
  split.
  - intros H. apply map_eq_nil in H. apply filter_nil in H.
    eapply Forall_impl; [|exact H]. intros l Hl. cbv beta in Hl.
    apply strip_nil. destruct (strip l); [reflexivity | discriminate].
  - intros H.
    assert (E : filter (fun line => truthy (strip line)) (split LF x) = []).
    { apply filter_nil. eapply Forall_impl; [|exact H]. intros l Hl.
      cbv beta. apply strip_nil in Hl. now rewrite Hl. }
    now rewrite E.
Qed.

(** X1.  The structure of a text is empty exactly when the text is made of
    white space only (line feeds included): these are the texts
    [process_files] drops for having no structure. *)
Theorem structure_empty_iff_blank (x : str) :
  get_file_structure x = [] <-> forallb isspace x = true.
Proof. apply structure_nil_iff_blank. Qed.

Lemma structure_clean_line (x : str) :
  Forall (fun c => c <> LF) (get_file_structure x)
  /\ strip (get_file_structure x) = get_file_structure x
  /\ lower (get_file_structure x) = get_file_structure x.
Proof.
  destruct (get_file_structure_clean_or_empty x) as [E|Hc].
  - rewrite E. repeat split; constructor.
  - pose proof (clean_lower_fixed _ Hc) as Hl.
    destruct Hc as [_ H2 H3 H4 _]. split; [exact H2|].
    split; [now apply strip_fixed | exact Hl].
Qed.

(** X2.  The structure of a text is one clean line: it holds no line feed,
    it neither starts nor ends with white space, and it is in lower
    case. *)
Theorem structure_is_one_clean_line (x : str) :
  Forall (fun c => c <> LF) (get_file_structure x)
  /\ strip (get_file_structure x) = get_file_structure x
  /\ lower (get_file_structure x) = get_file_structure x.
Proof. apply structure_clean_line. Qed.

Lemma split_app a b :
  split LF (a ++ LF :: b) = split LF a ++ split LF b.
Proof.
  induction a as [|c a IH]; simpl.
  - reflexivity.
  - destruct (N.eqb_spec c LF) as [->|Hc]; [now rewrite IH|].
    rewrite IH. pose proof (split_nonempty LF a) as Hne.
    destruct (split LF a) as [|l ls]; [contradiction | reflexivity].
Qed.

Lemma cleaned_lines_app a b :
  cleaned_lines (a ++ LF :: b) = cleaned_lines a ++ cleaned_lines b.
Proof.
  unfold cleaned_lines. now rewrite split_app, filter_app, map_app.
Qed.

Lemma join_app (l1 l2 : list str) :
  l1 <> [] -> l2 <> [] ->
  join [SPACE] (l1 ++ l2) = join [SPACE] l1 ++ SPACE :: join [SPACE] l2.
Proof.
  intros H1 H2. induction l1 as [|p l1 IH]; [contradiction|].
  destruct l1 as [|q l1].
  - destruct l2 as [|r l2]; [contradiction | reflexivity].
  - change (join [SPACE] ((p :: q :: l1) ++ l2))
      with (p ++ [SPACE] ++ join [SPACE] ((q :: l1) ++ l2)).
    rewrite IH by discriminate.
    change (join [SPACE] (p :: q :: l1))
      with (p ++ [SPACE] ++ join [SPACE] (q :: l1)).
    now rewrite <- !app_assoc.
Qed.

(** X3.  Structures compose along line feeds: the structure of [a], a line
    feed and [b] is the structure of [a], a space and the structure of [b];
    when one of the two structures is empty it is the other one alone. *)
Theorem structure_of_lines (a b : str) :
  get_file_structure (a ++ LF :: b)
  = match get_file_structure a, get_file_structure b with
    | [], rb => rb
    | ra, [] => ra
    | ra, rb => ra ++ SPACE :: rb
    end.
Proof.
  pose proof (proj1 (join_nil a)) as Ha. pose proof (proj1 (join_nil b)) as Hb.
  rewrite !get_file_structure_join in *. rewrite cleaned_lines_app.
  destruct (cleaned_lines a) as [|p la] eqn:Ea.
  - reflexivity.
  - destruct (cleaned_lines b) as [|q lb] eqn:Eb.
    + rewrite app_nil_r. change (join [SPACE] (@nil str)) with (@nil codepoint).
      now destruct (join [SPACE] (p :: la)).
    + rewrite join_app by discriminate.
      destruct (join [SPACE] (p :: la)) eqn:Ja;
        [specialize (Ha eq_refl); discriminate|].
      destruct (join [SPACE] (q :: lb)) eqn:Jb;
        [specialize (Hb eq_refl); discriminate|].
      reflexivity.
Qed.

(** *** Lower-casing and white space *)

Definition spaces : list codepoint :=
  [9; 10; 11; 12; 13; 28; 29; 30; 31; 32; 133; 160; 5760; 8192; 8193; 8194;
   8195; 8196; 8197; 8198; 8199; 8200; 8201; 8202; 8232; 8233; 8239; 8287;
   12288]%N.

Lemma isspace_spaces c : isspace c = true -> In c spaces.
Proof.
  rewrite isspace_spec. unfold space_range, spaces. cbn [In]. lia.
Qed.

(** White space is neither cased nor case-ignorable: the search for the
    characters around a capital sigma stops at it, as it does at the end
    of the string. *)
Lemma space_break c :
  isspace c = true -> is_case_ignorable c = false /\ is_cased c = false.
Proof.
  intros H. apply isspace_spaces in H.
  assert (Hall : forallb (fun c => negb (is_case_ignorable c)
                                   && negb (is_cased c)) spaces = true)
    by (vm_compute; reflexivity).
  rewrite forallb_forall in Hall. specialize (Hall c H).
  apply andb_true_iff in Hall. destruct Hall as [H1 H2].
  apply negb_true_iff in H1, H2. now split.
Qed.

Lemma final_sigma_before p w q after :
  isspace w = true -> final_sigma (p ++ w :: q) after = final_sigma p after.
Proof.
  intros H. destruct (space_break w H) as [Hi Hc]. unfold final_sigma.
  f_equal. induction p as [|c p IH]; cbn [app dropwhile].
  - rewrite Hi. cbv beta iota. exact Hc.
  - destruct (is_case_ignorable c); [exact IH | reflexivity].
Qed.

Lemma final_sigma_after before a w b :
  isspace w = true -> final_sigma before (a ++ w :: b) = final_sigma before a.
Proof.
  intros H. destruct (space_break w H) as [Hi Hc]. unfold final_sigma.
  f_equal. induction a as [|c a IH]; cbn [app dropwhile].
  - rewrite Hi. cbv beta iota. now rewrite Hc.
  - destruct (is_case_ignorable c); [exact IH | reflexivity].
Qed.

Lemma do_lower_before s : forall p w q,
  isspace w = true -> do_lower (p ++ w :: q) s = do_lower p s.
Proof.
  induction s as [|c s IH]; intros p w q H; [reflexivity|].
  cbn [do_lower]. f_equal.
  - unfold lower_ucs4, handle_capital_sigma.
    now rewrite final_sigma_before.
  - apply (IH (c :: p) w q H).
Qed.

(** Lower-casing goes through white space: what is before a white space
    character and what is after it are lower-cased apart. *)
Lemma do_lower_break a : forall before w b,
  isspace w = true ->
  do_lower before (a ++ w :: b) = do_lower before a ++ w :: do_lower [] b.
Proof.
  induction a as [|c a IH]; intros before w b H.
  - cbn [app do_lower].
    destruct (lower_ucs4_spec before w b) as (_ & _ & Hs & _).
    rewrite (Hs H). cbn [app]. f_equal.
    apply (do_lower_before b [] w before H).
  - cbn [app do_lower]. rewrite (IH _ w b H), app_assoc. f_equal. f_equal.
    unfold lower_ucs4, handle_capital_sigma.
    now rewrite final_sigma_after.
Qed.

Lemma lower_break a w b :
  isspace w = true -> lower (a ++ w :: b) = lower a ++ w :: lower b.
Proof. apply do_lower_break. Qed.

Lemma lstrip_lower s : lstrip (lower s) = lower (lstrip s).
Proof.
  unfold lstrip. induction s as [|c s IH]; [reflexivity|].
  cbn [dropwhile]. destruct (isspace c) eqn:E.
  - pose proof (lower_break [] c s E) as Hb.
    change (lower []) with (@nil codepoint) in Hb. cbn [app] in Hb.
    rewrite Hb. cbn [dropwhile]. rewrite E. exact IH.
  - apply (lstrip_fixed (lower (c :: s))), lower_no_lead. exact E.
Qed.

Lemma rstrip_space s c : isspace c = true -> rstrip (s ++ [c]) = rstrip s.
Proof.
  intros H. unfold rstrip. rewrite rev_app_distr. cbn [rev app dropwhile].
  now rewrite H.
Qed.

Lemma rstrip_lower s : rstrip (lower s) = lower (rstrip s).
Proof.
  induction s as [|c s IH] using rev_ind; [reflexivity|].
  destruct (isspace c) eqn:E.
  - rewrite (lower_break s c [] E).
    change (lower []) with (@nil codepoint).
    now rewrite !(rstrip_space _ c E).
  - assert (Ht : no_trail (s ++ [c]))
      by (unfold no_trail; rewrite rev_app_distr; exact E).
    now rewrite (rstrip_fixed _ Ht), (rstrip_fixed _ (lower_no_trail _ Ht)).
Qed.

Lemma strip_lower s : strip (lower s) = lower (strip s).
Proof. unfold strip. now rewrite lstrip_lower, rstrip_lower. Qed.

Lemma first_line s :
  no_LF s \/ exists a b, s = a ++ LF :: b /\ no_LF a.
Proof.
  induction s as [|c s IH]; [left; constructor|].
  destruct (N.eq_dec c LF) as [->|Hc].
  - right. exists [], s. split; [reflexivity | constructor].
  - destruct IH as [H|(a & b & -> & Ha)].
    + left. now constructor.
    + right. exists (c :: a), b. split; [reflexivity | now constructor].
Qed.

Lemma split_lower_bounded n : forall s,
  (List.length s <= n)%nat -> split LF (lower s) = map lower (split LF s).
Proof.
  induction n as [|n IH]; intros s Hn.
  - destruct s; [reflexivity | simpl in Hn; lia].
  - destruct (first_line s) as [H|(a & b & -> & Ha)].
    + now rewrite (split_without_LF s H),
        (split_without_LF _ (lower_no_LF s H)).
    + rewrite (lower_break a LF b eq_refl), !split_app.
      rewrite (split_without_LF a Ha), (split_without_LF _ (lower_no_LF a Ha)).
      cbn [app map]. f_equal. apply IH.
      rewrite length_app in Hn. simpl in Hn. lia.
Qed.

Lemma split_lower s : split LF (lower s) = map lower (split LF s).
Proof. apply (split_lower_bounded (List.length s)). lia. Qed.

Lemma truthy_lower s : truthy (lower s) = truthy s.
Proof.
  destruct s as [|c s]; [reflexivity|].
  destruct (lower (c :: s)) eqn:E; [|reflexivity].
  apply (proj1 (lower_nil _)) in E. discriminate E.
Qed.

(** X4.  The structure does not depend on letter case: a text and its
    lower-case form have the same structure. *)
Theorem structure_ignores_case (x : str) :
  get_file_structure (lower x) = get_file_structure x.
Proof.
  rewrite !get_file_structure_join. f_equal. unfold cleaned_lines.
  rewrite split_lower.
  induction (split LF x) as [|l ls IH]; [reflexivity|].
  cbn [map filter]. rewrite strip_lower, truthy_lower.
  destruct (truthy (strip l)); [|exact IH].
  cbn [map]. rewrite IH. f_equal.
  unfold normalize_line. rewrite strip_lower. apply lower_idem.
Qed.

End NormalizerMore.

(* ===================================================================== *)
(** ** More on decoding and on [process_files] *)
(* ===================================================================== *)

Module ProcessMore.
Import Text Normalizer Codec Vectorizer Pipeline.
Import NormalizerFacts ProcessFacts VectorizerFacts PipelineFacts NormalizerMore.

(** *** Decoding *)

(** A Unicode scalar value: at most U+10FFFF and no surrogate. *)
Definition scalar_value (c : codepoint) : Prop :=
  (c <= 1114111 /\ ~ (55296 <= c <= 57343))%N.

Lemma continuation_spec b : continuation b = true <-> (128 <= b <= 191)%N.
Proof. unfold continuation. rewrite andb_true_iff, !N.leb_le. tauto. Qed.

Lemma decode_values_scalar : forall n bs s,
  (List.length bs <= n)%nat -> decode_values bs = Some s ->
  Forall scalar_value s /\ (List.length s <= List.length bs)%nat.
Proof.
  induction n as [|n IH]; intros bs s Hn H.
  - destruct bs; [|simpl in Hn; lia]. injection H as <-. split; [constructor | simpl; lia].
  - destruct bs as [|b0 r0]; [injection H as <-; split; [constructor | simpl; lia]|].
    cbn [decode_values] in H. simpl in Hn.
    destruct (N.ltb_spec b0 128) as [H0|H0].
    { destruct (decode_values r0) as [s0|] eqn:E; [|discriminate].
      injection H as <-. destruct (IH r0 s0 ltac:(lia) E) as [Hv Hl].
      split; [constructor; [unfold scalar_value; lia | exact Hv] | simpl; lia]. }
    destruct r0 as [|b1 r1]; [discriminate|]. simpl in Hn.
    destruct (continuation b1) eqn:C1; [|discriminate]. cbn [negb] in H.
    apply continuation_spec in C1.
    destruct ((194 <=? b0) && (b0 <=? 223))%N eqn:L2.
    { apply andb_true_iff in L2. rewrite !N.leb_le in L2.
      destruct (decode_values r1) as [s1|] eqn:E; [|discriminate].
      injection H as <-. destruct (IH r1 s1 ltac:(lia) E) as [Hv Hl].
      split; [constructor; [unfold scalar_value; lia | exact Hv] | simpl; lia]. }
    destruct r1 as [|b2 r2]; [discriminate|]. simpl in Hn.
    destruct (continuation b2) eqn:C2; [|discriminate]. cbn [negb] in H.
    apply continuation_spec in C2.
    destruct ((224 <=? b0) && (b0 <=? 239))%N eqn:L3.
    { apply andb_true_iff in L3. rewrite !N.leb_le in L3. cbv zeta in H.
      destruct ((2048 <=? _) && negb _)%N eqn:V; [|discriminate].
      apply andb_true_iff in V. destruct V as [V1 V2].
      apply negb_true_iff, andb_false_iff in V2. rewrite !N.leb_gt in V2.
      destruct (decode_values r2) as [s2|] eqn:E; [|discriminate].
      injection H as <-. destruct (IH r2 s2 ltac:(lia) E) as [Hv Hl].
      split; [constructor; [unfold scalar_value; lia | exact Hv] | simpl; lia]. }
    destruct r2 as [|b3 r3]; [discriminate|]. simpl in Hn.
    destruct (continuation b3) eqn:C3; [|discriminate]. cbn [negb] in H.
    destruct ((240 <=? b0) && (b0 <=? 244))%N eqn:L4; [|discriminate].
    cbv zeta in H.
    destruct ((65536 <=? _) && (_ <=? 1114111))%N eqn:V; [|discriminate].
    apply andb_true_iff in V. rewrite !N.leb_le in V.
    destruct (decode_values r3) as [s3|] eqn:E; [|discriminate].
    injection H as <-. destruct (IH r3 s3 ltac:(lia) E) as [Hv Hl].
    split; [constructor; [unfold scalar_value; lia | exact Hv] | simpl; lia].
Qed.

(** X5.  What decodes, decodes to Unicode scalar values only (no
    surrogate, nothing above U+10FFFF), and to at most as many characters
    as there are bytes. *)
Theorem decode_scalar_values (data : bytes) (text : str) :
  decode data = Some text ->
  Forall scalar_value text /\ (List.length text <= List.length data)%nat.
Proof.
  unfold decode. intros H.
  destruct (decode_values_scalar _ _ _ (Nat.le_refl _) H) as [Hv Hl].
  split; [exact Hv|]. now rewrite length_map in Hl.
Qed.

Lemma decode_scalar_values_witness :
  Forall scalar_value [1055; 1088; 1080]%N
  /\ (List.length [1055; 1088; 1080]%N
      <= List.length [xd0; x9f; xd1; x80; xd0; xb8])%nat.
Proof.
  apply (decode_scalar_values [xd0; x9f; xd1; x80; xd0; xb8]). reflexivity.
Defined.

(** X6.  Bytes below 128 always decode, each to the character of the same
    number: a plain ASCII file is never rejected by the decoding step. *)
Theorem decode_ascii (data : bytes) :
  Forall (fun b => (Byte.to_N b < 128)%N) data ->
  decode data = Some (map Byte.to_N data).
Proof.
  unfold decode. induction 1 as [|b data Hb _ IH]; [reflexivity|].
  cbn [map decode_values].
  destruct (N.ltb_spec (Byte.to_N b) 128); [|lia]. now rewrite IH.
Qed.

Lemma decode_ascii_witness :
  decode (bytes_of_string "Hello") = Some (map Byte.to_N (bytes_of_string "Hello")).
Proof.
  apply (decode_ascii (bytes_of_string "Hello")).
  repeat constructor.
Defined.

(** *** [process_files] *)

Lemma not_blank text :
  existsb (fun c => negb (isspace c)) text = true
  <-> forallb isspace text <> true.
Proof.
  induction text as [|c text IH]; simpl.
  - split; [discriminate | intros H; now contradiction H].
  - destruct (isspace c); simpl; [exact IH|].
    split; [discriminate | reflexivity].
Qed.

(** A file survives the loop exactly when it decodes to a text that has a
    character other than white space. *)
Lemma survives_content file :
  survives file = true
  <-> exists text, decode (getvalue file) = Some text
                   /\ existsb (fun c => negb (isspace c)) text = true.
Proof.
  rewrite survives_spec. split; intros (text & Hd & H); exists text;
    (split; [exact Hd|]).
  - apply not_blank. now rewrite <- structure_nil_iff_blank.
  - rewrite structure_nil_iff_blank. now apply not_blank.
Qed.

(** X7.  The files [process_files] returns are exactly the uploaded files
    that decode as UTF-8 to a text with at least one character that is not
    white space; all other files are left out. *)
Theorem processed_files_are_the_readable_ones (files pf : list UploadedFile)
    (names : list str) (X : matrix) (f : UploadedFile) :
  process_files files = Ok (Some (pf, names, X)) ->
  In f pf
  <-> In f files
      /\ exists text, decode (getvalue f) = Some text
                      /\ existsb (fun c => negb (isspace c)) text = true.
Proof.
  intros H. apply process_files_inv in H. destruct H as (-> & _ & _).
  now rewrite filter_In, survives_content.
Qed.

Lemma processed_files_are_the_readable_ones_witness :
  In blank_file [file_a; file_b]
  <-> In blank_file uploads
      /\ exists text, decode (getvalue blank_file) = Some text
                      /\ existsb (fun c => negb (isspace c)) text = true.
Proof.
  apply (processed_files_are_the_readable_ones uploads [file_a; file_b]
           [of_string "a.txt"; of_string "b.txt"] X_ab blank_file).
  reflexivity.
Defined.

Lemma vocabulary_nil corpus :
  vocabulary corpus = [] <-> Forall (fun doc => analyze doc = []) corpus.
Proof.
  split.
  - intros H. apply Forall_forall. intros doc Hd.
    destruct (analyze doc) as [|t ts] eqn:E; [reflexivity|].
    assert (Ht : In t (vocabulary corpus)).
    { apply in_vocabulary. exists doc. split; [exact Hd|]. rewrite E. now left. }
    rewrite H in Ht. contradiction.
  - intros H. destruct (vocabulary corpus) as [|t ts] eqn:E; [reflexivity|].
    assert (Ht : In t (vocabulary corpus)) by (rewrite E; now left).
    apply in_vocabulary in Ht. destruct Ht as (doc & Hd & Hin).
    rewrite Forall_forall in H. rewrite (H doc Hd) in Hin. contradiction.
Qed.

Lemma structure_or_empty_lower f :
  lower (structure_or_empty f) = structure_or_empty f.
Proof.
  unfold structure_or_empty, structure_of.
  destruct (decode (getvalue f)); [|reflexivity].
  apply structure_clean_line.
Qed.

Definition short_structure (f : UploadedFile) : Prop :=
  (List.length (collapse_spaces (structure_or_empty f)) < 3)%nat.

(** X8.  [process_files] returns [None, None, None] exactly when no file
    survives; it lets the vectorizer's [ValueError] (empty vocabulary)
    through exactly when some file survives and every surviving structure
    has fewer than three characters once runs of white space are
    collapsed; in every other case it returns the files, names and
    matrix.  It raises nothing else. *)
Theorem process_files_outcomes (files : list UploadedFile) :
  (process_files files = Ok None <-> filter survives files = [])
  /\ ((exists e, process_files files = Raise e)
      <-> filter survives files <> []
          /\ Forall short_structure (filter survives files))
  /\ (forall e, process_files files = Raise e ->
        e = ValueError
              "empty vocabulary; perhaps the documents only contain stop words").
Proof.
  rewrite process_files_spec.
  assert (Hshort : forall pf,
    vocabulary (map structure_or_empty pf) = [] <-> Forall short_structure pf).
  { intros pf. rewrite vocabulary_nil, Forall_map.
    split; apply Forall_impl; intros f; unfold short_structure;
      rewrite analyze_nil, structure_or_empty_lower; auto. }
  destruct (filter survives files) as [|f pf] eqn:E.
  - split; [tauto|]. split; [|discriminate].
    split; [intros [e He]; discriminate | intros [H _]; now contradiction H].
  - cbv zeta. specialize (Hshort (f :: pf)).
    destruct (vocabulary (map structure_or_empty (f :: pf))) as [|t ts].
    + split; [split; discriminate|]. split.
      * split; [intros _; split; [discriminate | now apply Hshort]|].
        intros _. eexists. reflexivity.
      * now intros e [= <-].
    + split; [split; discriminate|]. split; [|discriminate].
      split; [intros [e He]; discriminate|].
      intros [_ H]. apply Hshort in H. discriminate.
Qed.

End ProcessMore.

(* ===================================================================== *)
(** ** More on the vectorizer *)
(* ===================================================================== *)

Module VectorizerMore.
Import Text Codec Vectorizer Metric MetricFacts VectorizerFacts.
Local Open Scope R_scope.

(** *** The vocabulary *)

Definition str_lt (a b : str) : Prop := str_compare a b = Lt.

Lemma str_compare_refl a : str_compare a a = Eq.
Proof.
  induction a as [|x a IH]; [reflexivity|]. simpl.
  now rewrite N.compare_refl.
Qed.

Lemma str_compare_gt a : forall b, str_compare a b = Gt -> str_compare b a = Lt.
Proof.
  induction a as [|x a IH]; intros [|y b]; simpl; try discriminate; auto.
  rewrite (N.compare_antisym x y).
  destruct (N.compare x y); simpl; auto; discriminate.
Qed.

Lemma str_lt_trans a : forall b c, str_lt a b -> str_lt b c -> str_lt a c.
Proof.
  unfold str_lt.
  induction a as [|x a IH]; intros [|y b] [|z c]; simpl; try discriminate; auto.
  destruct (N.compare_spec x y) as [->|Hxy|Hxy]; try discriminate.
  - destruct (N.compare_spec y z) as [->|Hyz|Hyz]; try discriminate; auto.
    apply IH.
  - intros _. destruct (N.compare_spec y z) as [->|Hyz|Hyz]; try discriminate.
    + intros _. destruct (N.compare_spec x z); try lia; reflexivity.
    + intros _. destruct (N.compare_spec x z); try lia; reflexivity.
Qed.

Lemma insert_term_sorted t sorted :
  Sorted str_lt sorted -> Sorted str_lt (insert_term t sorted).
Proof.
  induction 1 as [|u rest Hrest IH Hu]; simpl.
  - repeat constructor.
  - destruct (str_compare t u) eqn:E.
    + constructor; assumption.
    + constructor; [constructor; assumption | constructor; exact E].
    + constructor; [exact IH|].
      apply str_compare_gt in E.
      destruct rest as [|w rest]; simpl; [constructor; exact E|].
      inversion Hu as [|? ? Huw]; subst.
      destruct (str_compare t w); constructor; assumption.
Qed.

Lemma vocabulary_sorted corpus : Sorted str_lt (vocabulary corpus).
Proof.
  unfold vocabulary.
  induction (flat_map analyze corpus) as [|t l IH]; simpl;
    [constructor | now apply insert_term_sorted].
Qed.

Lemma windows_length n s w : In w (windows n s) -> List.length w = n.
Proof.
  induction s as [|c s IH]; [contradiction|]. cbn [windows].
  destruct (Nat.leb_spec n (List.length (c :: s))) as [H|H]; [|contradiction].
  intros [<-|Hin]; [|now apply IH].
  apply firstn_length_le, H.
Qed.

Lemma char_ngrams_length text w :
  In w (char_ngrams text) -> (3 <= List.length w <= 5)%nat.
Proof.
  unfold char_ngrams, min_n, max_n. rewrite in_flat_map.
  intros (n & Hn & Hw). apply in_seq in Hn.
  rewrite (windows_length _ _ _ Hw). lia.
Qed.

(** X9.  The vocabulary lists each n-gram of the corpus once, in the
    increasing order of strings; it holds nothing but n-grams of the
    documents, and each has three, four or five characters. *)
Theorem vocabulary_is_the_sorted_ngram_set (corpus : list str) :
  StronglySorted str_lt (vocabulary corpus)
  /\ NoDup (vocabulary corpus)
  /\ (forall t, In t (vocabulary corpus)
                <-> exists doc, In doc corpus /\ In t (analyze doc))
  /\ Forall (fun t => (3 <= List.length t <= 5)%nat) (vocabulary corpus).
Proof.
  assert (HS : StronglySorted str_lt (vocabulary corpus)).
  { apply Sorted_StronglySorted; [|apply vocabulary_sorted].
    intros a b c. apply str_lt_trans. }
  split; [exact HS|]. split; [|split].
  - induction HS as [|t l _ IH Ht]; constructor; [|exact IH].
    intros Hin. rewrite Forall_forall in Ht. specialize (Ht t Hin).
    unfold str_lt in Ht. rewrite str_compare_refl in Ht. discriminate.
  - apply in_vocabulary.
  - apply Forall_forall. intros t Ht. apply in_vocabulary in Ht.
    destruct Ht as (doc & _ & Hin). eapply char_ngrams_length. exact Hin.
Qed.

(** *** The matrix *)

Lemma idf_pos corpus t : 0 < idf corpus t.
Proof. pose proof (idf_ge_1 corpus t). lra. Qed.

Lemma tfidf_row_nonneg corpus doc : Forall (fun w => 0 <= w) (tfidf_row corpus doc).
Proof.
  unfold tfidf_row. rewrite Forall_map. apply Forall_forall. intros t _.
  apply Rmult_le_pos; [apply pos_INR | left; apply idf_pos].
Qed.

Lemma square_le_sum_squares x v : In x v -> x * x <= sum_squares v.
Proof.
  induction v as [|y v IH]; [contradiction|]. simpl.
  pose proof (sum_squares_nonneg v). pose proof (Rle_0_sqr y) as Hy.
  unfold Rsqr in Hy.
  intros [->|Hin]; [lra | specialize (IH Hin); lra].
Qed.

Lemma entry_le_norm x v : In x v -> 0 <= x -> x <= l2_norm v.
Proof.
  intros Hin Hx. unfold l2_norm. rewrite <- (sqrt_square x Hx) at 1.
  apply sqrt_le_1_alt, square_le_sum_squares, Hin.
Qed.

Lemma handle_zero_pos n : 0 <= n -> 0 < handle_zero n.
Proof. intros H. unfold handle_zero. destruct (Req_dec_T n 0); lra. Qed.

(** Normalizing a row of weights that are not negative gives weights
    between 0 and 1. *)
Lemma normalize_range v :
  Forall (fun w => 0 <= w) v -> Forall (fun w => 0 <= w <= 1) (normalize v).
Proof.
  intros Hv. unfold normalize. rewrite Forall_map, Forall_forall.
  intros x Hx. rewrite Forall_forall in Hv. specialize (Hv x Hx).
  pose proof (handle_zero_pos _ (l2_norm_nonneg v)) as Hp.
  pose proof (entry_le_norm x v Hx Hv) as Hle.
  split.
  - apply Rmult_le_pos; [exact Hv | left; now apply Rinv_0_lt_compat].
  - apply (Rmult_le_reg_r (handle_zero (l2_norm v))); [exact Hp|].
    unfold Rdiv. rewrite Rmult_assoc, Rinv_l, Rmult_1_r, Rmult_1_l by lra.
    unfold handle_zero in *. destruct (Req_dec_T (l2_norm v) 0); lra.
Qed.

Lemma length_transform_row corpus doc :
  List.length (transform_row corpus doc) = List.length (vocabulary corpus).
Proof. unfold transform_row, normalize, tfidf_row. now rewrite !length_map. Qed.

(** X10.  The matrix the vectorizer returns has one row per document and
    one column per vocabulary term, and every weight lies between 0 and
    1. *)
Theorem matrix_shape_and_range (corpus : list str) (X : matrix) :
  fit_transform corpus = Ok X ->
  List.length X = List.length corpus
  /\ Forall (fun row => List.length row = List.length (vocabulary corpus)
                        /\ Forall (fun w => 0 <= w <= 1) row) X.
Proof.
  intros H. apply fit_transform_inv in H. subst X.
  split; [apply length_map|]. rewrite Forall_map. apply Forall_forall.
  intros doc _. split; [apply length_transform_row|].
  apply normalize_range, tfidf_row_nonneg.
Qed.

Lemma matrix_shape_and_range_witness :
  List.length (map (transform_row short_and_long) short_and_long) = 2%nat
  /\ Forall (fun row => List.length row = 6%nat
                        /\ Forall (fun w => 0 <= w <= 1) row)
            (map (transform_row short_and_long) short_and_long).
Proof.
  apply (matrix_shape_and_range short_and_long). reflexivity.
Defined.

(** *** Distances between rows of weights *)

Lemma dot_nonneg u : forall v,
  Forall (fun w => 0 <= w) u -> Forall (fun w => 0 <= w) v -> 0 <= dot u v.
Proof.
  induction u as [|x u IH]; intros [|y v] Hu Hv; simpl; try lra.
  inversion Hu; inversion Hv; subst.
  pose proof (IH v ltac:(assumption) ltac:(assumption)).
  pose proof (Rmult_le_pos x y ltac:(assumption) ltac:(assumption)). lra.
Qed.

Lemma normalize_nonneg v :
  Forall (fun w => 0 <= w) v -> Forall (fun w => 0 <= w) (normalize v).
Proof.
  intros H. eapply Forall_impl; [|apply normalize_range, H].
  intros w Hw. apply Hw.
Qed.

Definition nonneg_rows (X : matrix) : Prop :=
  Forall (Forall (fun w => 0 <= w)) X.

Lemma nth_nonneg X i : nonneg_rows X -> Forall (fun w => 0 <= w) (nth i X []).
Proof.
  intros H. destruct (Nat.lt_ge_cases i (List.length X)) as [Hi|Hi].
  - unfold nonneg_rows in H. rewrite Forall_forall in H. apply H, nth_In, Hi.
  - rewrite nth_overflow by exact Hi. constructor.
Qed.

(** Rows of weights that are not negative are at distance at most 1. *)
Lemma cosine_distances_le_1 b X i j :
  nonneg_rows X -> cosine_distances b X i j <= 1.
Proof.
  intros H. unfold cosine_distances.
  destruct (b && (i =? j)%nat); [lra|].
  assert (Hs : 0 <= cosine_similarity (nth i X []) (nth j X [])).
  { apply dot_nonneg; apply normalize_nonneg, nth_nonneg, H. }
  unfold clip, Rmin, Rmax.
  destruct (Rle_dec 0 _); destruct (Rle_dec 2 _); lra.
Qed.

Lemma fit_transform_nonneg corpus X :
  fit_transform corpus = Ok X -> nonneg_rows X.
Proof.
  intros H. apply fit_transform_inv in H. subst X.
  unfold nonneg_rows. rewrite Forall_map. apply Forall_forall. intros doc _.
  apply normalize_nonneg, tfidf_row_nonneg.
Qed.

(** X11.  Two documents of a vectorized corpus are at cosine distance
    between 0 and 1: the upper half of the range of the cosine distance is
    never reached by rows of TF-IDF weights. *)
Theorem document_distances_at_most_one (corpus : list str) (X : matrix)
    (i j : nat) :
  fit_transform corpus = Ok X ->
  0 <= cosine_distances false X i j <= 1.
Proof.
  intros H. split; [apply cosine_distances_nonneg|].
  apply cosine_distances_le_1. eapply fit_transform_nonneg. exact H.
Qed.

Lemma document_distances_at_most_one_witness :
  0 <= cosine_distances false
         (map (transform_row short_and_long) short_and_long) 0 1 <= 1.
Proof.
  apply (document_distances_at_most_one short_and_long). reflexivity.
Defined.

End VectorizerMore.

(* ===================================================================== *)
(** ** More on the clusterer *)
(* ===================================================================== *)

Module ClusterMore.
Import Text Codec Vectorizer Metric Neighbors Dbscan.
Import SearchFacts MetricFacts DbscanFacts VectorizerFacts VectorizerMore.
Local Open Scope R_scope.

Section Search.
Variable is_core : list bool.
Variable neighborhoods : list (list nat).

Local Abbreviation grow := (fold_left (start_cluster is_core neighborhoods)).

(** A round never takes anything off the part of the stack it found. *)
Lemma visit_stack_mono label_num labels stack i labels' stack' v :
  visit is_core neighborhoods label_num labels stack i = (labels', stack') ->
  In v stack -> In v stack'.
Proof.
  unfold visit. destruct (unlabeled labels i).
  - destruct (nth i is_core false); intros [= _ <-]; [|auto].
    unfold push_all. intros H. apply in_or_app. now right.
  - now intros [= _ <-].
Qed.

(** A round on a core sample without label pushes each neighbour that has
    no label after the round. *)
Lemma visit_pushes label_num labels stack i labels' stack' v :
  visit is_core neighborhoods label_num labels stack i = (labels', stack') ->
  unlabeled labels i = true -> nth i is_core false = true ->
  In v (nth i neighborhoods []) -> unlabeled labels' v = true ->
  In v stack'.
Proof.
  unfold visit. intros H U C Hin Hv. rewrite U, C in H.
  injection H as <- <-. unfold push_all. apply in_or_app. left.
  rewrite <- in_rev. apply filter_In. auto.
Qed.

Lemma visit_other label_num labels stack i labels' stack' j :
  visit is_core neighborhoods label_num labels stack i = (labels', stack') ->
  j <> i -> nth_error labels' j = nth_error labels j.
Proof.
  intros H Hj.
  destruct (visit_labels _ _ _ _ _ _ _ _ j H) as [E|(E & _)]; congruence.
Qed.

(** *** Neighbours of a core sample get a label *)

Section Reach.
Variables c j : nat.
Hypothesis c_core : nth c is_core false = true.
Hypothesis j_near : In j (nth c neighborhoods []).

(** If [c] has a label, then [j] has one or is still to be visited. *)
Definition reach_inv (labels : list Z) (pending : list nat) : Prop :=
  unlabeled labels c = true \/ unlabeled labels j = false \/ In j pending.

Lemma visit_reach label_num labels stack i labels' stack' :
  visit is_core neighborhoods label_num labels stack i = (labels', stack') ->
  reach_inv labels (i :: stack) -> reach_inv labels' stack'.
Proof.
  intros H [Hc|[Hj|Hp]]; unfold reach_inv.
  - destruct (Nat.eq_dec i c) as [->|Hic].
    + destruct (unlabeled labels' j) eqn:U; [|now right; left].
      right; right. eapply visit_pushes; eauto.
    + left. unfold unlabeled in *.
      now rewrite (visit_other _ _ _ _ _ _ _ H (not_eq_sym Hic)).
  - right; left. unfold unlabeled in *.
    destruct (visit_labels _ _ _ _ _ _ _ _ j H) as [E|(_ & E & _)].
    + now rewrite E.
    + rewrite E in Hj. unfold NOISE in Hj. discriminate.
  - destruct Hp as [<-|Hp].
    + right; left. pose proof (visit_labelled _ _ _ _ _ _ _ _ H) as Hl.
      destruct (unlabeled labels' i) eqn:U; [|reflexivity].
      apply unlabeled_spec in U. contradiction.
    + right; right. eapply visit_stack_mono; eauto.
Qed.

Lemma expand_reach label_num labels stack i :
  reach_inv labels (i :: stack) ->
  reach_inv (expand is_core neighborhoods label_num labels stack i) [].
Proof.
  apply (expand_rounds is_core neighborhoods label_num
           (fun labels stack i r => reach_inv labels (i :: stack) -> reach_inv r [])).
  - intros ? ? ? ? Hv Hinv. exact (visit_reach _ _ _ _ _ _ Hv Hinv).
  - intros ? ? ? ? ? ? Hv IH Hinv. apply IH.
    exact (visit_reach _ _ _ _ _ _ Hv Hinv).
Qed.

Lemma grow_reach l : forall st,
  reach_inv (fst st) [] -> reach_inv (fst (grow l st)) [].
Proof.
  induction l as [|i l IH]; intros [labels n] H; cbn [fold_left]; [exact H|].
  apply IH. unfold start_cluster.
  destruct (negb (unlabeled labels i) || negb (nth i is_core false));
    cbn [fst]; [exact H|].
  apply expand_reach. destruct H as [H|[H|[]]]; [now left | now right; left].
Qed.
End Reach.

(** *** Two core samples that are neighbours share their label *)

Section Pair.
Variables a b : nat.
Hypothesis a_core : nth a is_core false = true.
Hypothesis b_core : nth b is_core false = true.
Hypothesis b_near_a : In b (nth a neighborhoods []).
Hypothesis a_near_b : In a (nth b neighborhoods []).

(** Both have the same label, or one has the label of the cluster being
    grown and the other is still to be visited. *)
Definition pair_inv (label_num : nat) (labels : list Z) (pending : list nat)
  : Prop :=
  nth_error labels a = nth_error labels b
  \/ (nth_error labels a = Some (Z.of_nat label_num)
      /\ nth_error labels b = Some NOISE /\ In b pending)
  \/ (nth_error labels b = Some (Z.of_nat label_num)
      /\ nth_error labels a = Some NOISE /\ In a pending).

Lemma of_nat_not_noise n : Some (Z.of_nat n) <> Some NOISE.
Proof. unfold NOISE. intros [= H]. lia. Qed.

Lemma visit_first label_num labels stack x y labels' stack' :
  nth x is_core false = true -> In y (nth x neighborhoods []) -> x <> y ->
  visit is_core neighborhoods label_num labels stack x = (labels', stack') ->
  nth_error labels x = nth_error labels y ->
  nth_error labels' x = nth_error labels' y
  \/ (nth_error labels' x = Some (Z.of_nat label_num)
      /\ nth_error labels' y = Some NOISE /\ In y stack').
Proof.
  intros Cx Hy Hxy H E.
  destruct (unlabeled labels x) eqn:U.
  - right. pose proof (proj1 (unlabeled_spec _ _) U) as Ux.
    destruct (visit_labels _ _ _ _ _ _ _ _ x H) as [E'|(_ & _ & E')].
    + pose proof (visit_labelled _ _ _ _ _ _ _ _ H). congruence.
    + split; [exact E'|].
      rewrite (visit_other _ _ _ _ _ _ _ H (not_eq_sym Hxy)).
      split; [congruence|].
      eapply visit_pushes; eauto. apply unlabeled_spec.
      rewrite (visit_other _ _ _ _ _ _ _ H (not_eq_sym Hxy)). congruence.
  - left. unfold visit in H. rewrite U in H. injection H as <- <-. exact E.
Qed.

Lemma visit_pair label_num labels stack i labels' stack' :
  a <> b ->
  visit is_core neighborhoods label_num labels stack i = (labels', stack') ->
  pair_inv label_num labels (i :: stack) -> pair_inv label_num labels' stack'.
Proof.
  intros Hab H [E|[(Ea & Eb & Hp)|(Eb & Ea & Hp)]]; unfold pair_inv.
  - destruct (Nat.eq_dec i a) as [->|Hia];
      [|destruct (Nat.eq_dec i b) as [->|Hib]].
    + destruct (visit_first _ _ _ _ _ _ _ a_core b_near_a Hab H E)
        as [E'|E']; auto.
    + destruct (visit_first _ _ _ _ _ _ _ b_core a_near_b
                  (not_eq_sym Hab) H (eq_sym E)) as [E'|E']; auto.
    + left.
      rewrite (visit_other _ _ _ _ _ _ _ H (not_eq_sym Hia)),
              (visit_other _ _ _ _ _ _ _ H (not_eq_sym Hib)). exact E.
  - assert (Ea' : nth_error labels' a = Some (Z.of_nat label_num)).
    { destruct (visit_labels _ _ _ _ _ _ _ _ a H) as [E'|(_ & E' & _)];
        [congruence|].
      rewrite Ea in E'. now apply of_nat_not_noise in E'. }
    destruct Hp as [<-|Hp].
    + left. rewrite Ea'.
      destruct (visit_labels _ _ _ _ _ _ _ _ i H) as [E'|(_ & _ & E')];
        [|now rewrite E'].
      pose proof (visit_labelled _ _ _ _ _ _ _ _ H). congruence.
    + destruct (visit_labels _ _ _ _ _ _ _ _ b H) as [E'|(_ & _ & E')].
      * right; left. split; [exact Ea'|]. split; [congruence|].
        eapply visit_stack_mono; eauto.
      * left. congruence.
  - assert (Eb' : nth_error labels' b = Some (Z.of_nat label_num)).
    { destruct (visit_labels _ _ _ _ _ _ _ _ b H) as [E'|(_ & E' & _)];
        [congruence|].
      rewrite Eb in E'. now apply of_nat_not_noise in E'. }
    destruct Hp as [<-|Hp].
    + left. rewrite Eb'.
      destruct (visit_labels _ _ _ _ _ _ _ _ i H) as [E'|(_ & _ & E')];
        [|now rewrite E'].
      pose proof (visit_labelled _ _ _ _ _ _ _ _ H). congruence.
    + destruct (visit_labels _ _ _ _ _ _ _ _ a H) as [E'|(_ & _ & E')].
      * right; right. split; [exact Eb'|]. split; [congruence|].
        eapply visit_stack_mono; eauto.
      * left. congruence.
Qed.

Lemma pair_inv_done label_num labels :
  pair_inv label_num labels [] -> nth_error labels a = nth_error labels b.
Proof. intros [E|[(_ & _ & [])|(_ & _ & [])]]. exact E. Qed.

Lemma expand_pair label_num labels stack i :
  a <> b -> pair_inv label_num labels (i :: stack) ->
  pair_inv label_num (expand is_core neighborhoods label_num labels stack i) [].
Proof.
  intros Hab.
  apply (expand_rounds is_core neighborhoods label_num
           (fun labels stack i r =>
              pair_inv label_num labels (i :: stack) -> pair_inv label_num r [])).
  - intros ? ? ? ? Hv Hinv. exact (visit_pair _ _ _ _ _ _ Hab Hv Hinv).
  - intros ? ? ? ? ? ? Hv IH Hinv. apply IH.
    exact (visit_pair _ _ _ _ _ _ Hab Hv Hinv).
Qed.

Lemma grow_pair l : forall st,
  nth_error (fst st) a = nth_error (fst st) b ->
  nth_error (fst (grow l st)) a = nth_error (fst (grow l st)) b.
Proof.
  destruct (Nat.eq_dec a b) as [<-|Hab]; [reflexivity|].
  induction l as [|i l IH]; intros [labels n] H; cbn [fold_left]; [exact H|].
  apply IH. unfold start_cluster.
  destruct (negb (unlabeled labels i) || negb (nth i is_core false));
    cbn [fst]; [exact H|].
  apply (pair_inv_done n), expand_pair; [exact Hab | now left].
Qed.
End Pair.

(** *** Cluster numbers *)

Lemma grow_num l : forall st, (snd (grow l st) <= snd st + List.length l)%nat.
Proof.
  induction l as [|i l IH]; intros [labels n]; cbn [fold_left]; [simpl; lia|].
  specialize (IH (start_cluster is_core neighborhoods (labels, n) i)).
  assert (snd (start_cluster is_core neighborhoods (labels, n) i) <= S n)%nat.
  { unfold start_cluster.
    destruct (negb (unlabeled labels i) || negb (nth i is_core false));
      simpl; lia. }
  simpl in *. lia.
Qed.

(** The first sample, when it is a core sample, opens cluster 0. *)
Lemma grow_first n :
  nth 0 is_core false = true ->
  nth_error (fst (grow (seq 0 (S n)) (repeat NOISE (S n), O))) 0 = Some 0%Z.
Proof.
  intros C. cbn [seq fold_left]. apply grow_keeps_label; [|discriminate].
  unfold start_cluster. cbn [repeat unlabeled nth_error].
  rewrite Z.eqb_refl, C. cbn [negb orb fst].
  pose proof (expand_labelled is_core neighborhoods 0
                (NOISE :: repeat NOISE n) [] 0) as Hl.
  destruct (expand_labels is_core neighborhoods 0
              (NOISE :: repeat NOISE n) [] 0 0) as [E|[_ E]].
  - rewrite E in Hl. now contradiction Hl.
  - exact E.
Qed.

End Search.

(** *** [fit_predict] *)

Lemma fit_predict_inv X eps min_samples labels :
  fit_predict X eps min_samples = Ok labels ->
  0 < eps /\ (1 <= min_samples)%nat /\ X <> []
  /\ labels = dbscan_inner (core_samples X eps min_samples)
                (radius_neighbors X eps) (repeat NOISE (List.length X)).
Proof.
  unfold fit_predict. destruct (Rleb eps 0) eqn:E; [discriminate|].
  apply Rleb_false in E.
  destruct (Nat.eqb_spec min_samples 0); [discriminate|].
  destruct (Nat.eqb_spec (List.length X) 0); [discriminate|].
  intros [= <-]. repeat split; try lia; try assumption.
  intros ->. simpl in *. lia.
Qed.

Lemma nth_error_labels_some X eps min_samples i :
  (i < List.length X)%nat ->
  exists l,
    nth_error (dbscan_inner (core_samples X eps min_samples)
                 (radius_neighbors X eps) (repeat NOISE (List.length X))) i
    = Some l.
Proof.
  intros Hi.
  destruct (nth_error _ i) as [l|] eqn:E; [now exists l|].
  apply nth_error_None in E.
  rewrite dbscan_inner_length, repeat_length in E. lia.
Qed.

(** X12.  On valid parameters and a non-empty matrix the clusterer returns
    one label per document, and each label is -1 or a cluster number below
    the number of documents. *)
Theorem labels_in_range (X : matrix) (eps : R) (min_samples : nat) :
  0 < eps -> (1 <= min_samples)%nat -> X <> [] ->
  exists labels,
    fit_predict X eps min_samples = Ok labels
    /\ List.length labels = List.length X
    /\ Forall (fun l => (-1 <= l < Z.of_nat (List.length X))%Z) labels.
Proof.
  intros He Hm HX. rewrite (fit_predict_valid X eps min_samples He Hm HX).
  eexists. split; [reflexivity|].
  split; [now rewrite dbscan_inner_length, repeat_length|].
  apply Forall_forall. intros l Hl. apply In_nth_error in Hl.
  destruct Hl as [i Hi]. unfold dbscan_inner in Hi.
  rewrite repeat_length in Hi.
  set (ic := core_samples X eps min_samples) in *.
  set (nb := radius_neighbors X eps) in *.
  set (st0 := (repeat NOISE (List.length X), O)) in *.
  assert (Hinit : forall j x, nth_error (fst st0) j = Some x -> x = NOISE).
  { intros j x Hx. simpl in Hx. now apply nth_error_In, repeat_spec in Hx. }
  split.
  - apply (grow_lower_bound ic nb (seq 0 (List.length X)) st0) with (j := i);
      [|exact Hi].
    intros j x Hx. rewrite (Hinit j x Hx). unfold NOISE. lia.
  - assert (Hu : (l < Z.of_nat (snd (fold_left (start_cluster ic nb)
                                       (seq 0 (List.length X)) st0)))%Z).
    { apply (grow_upper_bound ic nb (seq 0 (List.length X)) st0) with (j := i);
        [|exact Hi].
      intros j x Hx. rewrite (Hinit j x Hx). unfold NOISE. simpl. lia. }
    pose proof (grow_num ic nb (seq 0 (List.length X)) st0) as Hn.
    rewrite length_seq in Hn. simpl in Hn. lia.
Qed.

Lemma labels_in_range_witness :
  exists labels,
    fit_predict two_unit_rows (1/2) 2 = Ok labels
    /\ List.length labels = 2%nat
    /\ Forall (fun l => (-1 <= l < 2)%Z) labels.
Proof.
  apply (labels_in_range two_unit_rows (1/2) 2); [lra | lia | discriminate].
Defined.

(** X13.  A document is labelled noise exactly when it is not a core
    sample and no core sample has it within [eps]. *)
Theorem noise_characterization (X : matrix) (eps : R) (min_samples j : nat) :
  0 < eps -> (1 <= min_samples)%nat -> (j < List.length X)%nat ->
  exists labels,
    fit_predict X eps min_samples = Ok labels
    /\ (nth_error labels j = Some NOISE
        <-> nth j (core_samples X eps min_samples) false = false
            /\ forall c, nth c (core_samples X eps min_samples) false = true ->
                         eps < cosine_distances false X c j).
Proof.
  intros He Hm Hj.
  assert (HX : X <> []) by (intros ->; simpl in Hj; lia).
  rewrite (fit_predict_valid X eps min_samples He Hm HX).
  eexists. split; [reflexivity|].
  set (ic := core_samples X eps min_samples).
  set (nb := radius_neighbors X eps).
  unfold dbscan_inner. rewrite repeat_length.
  set (st0 := (repeat NOISE (List.length X), O)).
  assert (Hcore : forall c, nth c ic false = true ->
            nth_error (fst (fold_left (start_cluster ic nb)
                              (seq 0 (List.length X)) st0)) c <> Some NOISE).
  { intros c Hc. apply grow_labels_core; [|exact Hc].
    apply core_samples_spec in Hc. apply in_seq. lia. }
  split.
  - intros Hn. split.
    + destruct (nth j ic false) eqn:C; [|reflexivity].
      now contradiction (Hcore j C).
    + intros c Hc. destruct (Rlt_dec eps (cosine_distances false X c j))
        as [|Hd]; [assumption|]. exfalso.
      assert (Hin : In j (nth c nb [])).
      { apply in_radius_neighbors. apply core_samples_spec in Hc.
        repeat split; try lia. lra. }
      destruct (grow_reach ic nb c j Hc Hin (seq 0 (List.length X)) st0)
        as [U|[U|[]]].
      * left. unfold unlabeled. simpl.
        apply core_samples_spec in Hc.
        now rewrite nth_error_repeat by lia.
      * apply unlabeled_spec in U. now apply (Hcore c Hc).
      * unfold unlabeled in U. rewrite Hn in U. discriminate.
  - intros [Hnc Hfar]. rewrite grow_untouched.
    + simpl. now apply nth_error_repeat.
    + now left.
    + intros c _ Hc Hin. apply in_radius_neighbors in Hin.
      specialize (Hfar c Hc). lra.
Qed.

Lemma noise_characterization_witness :
  exists labels,
    fit_predict zero_and_unit (1/2) 1 = Ok labels
    /\ (nth_error labels 0 = Some NOISE
        <-> nth 0 (core_samples zero_and_unit (1/2) 1) false = false
            /\ forall c, nth c (core_samples zero_and_unit (1/2) 1) false = true ->
                         1/2 < cosine_distances false zero_and_unit c 0).
Proof.
  apply (noise_characterization zero_and_unit (1/2) 1 0);
    [lra | lia | simpl; lia].
Defined.

Lemma core_pair_labels X eps min_samples a b :
  0 < eps -> (1 <= min_samples)%nat ->
  nth a (core_samples X eps min_samples) false = true ->
  nth b (core_samples X eps min_samples) false = true ->
  cosine_distances false X a b <= eps ->
  exists labels l,
    fit_predict X eps min_samples = Ok labels
    /\ nth_error labels a = Some l /\ nth_error labels b = Some l
    /\ (0 <= l)%Z.
Proof.
  intros He Hm Ha Hb Hd.
  pose proof (proj1 (core_samples_spec _ _ _ _) Ha) as [Ha' _].
  pose proof (proj1 (core_samples_spec _ _ _ _) Hb) as [Hb' _].
  assert (HX : X <> []) by (intros ->; simpl in Ha'; lia).
  rewrite (fit_predict_valid X eps min_samples He Hm HX).
  destruct (core_sample_labelled X eps min_samples a Ha' Ha) as (l & El & Hl).
  eexists. exists l. split; [reflexivity|]. split; [exact El|].
  split; [|exact Hl]. rewrite <- El. symmetry.
  unfold dbscan_inner. apply grow_pair; try assumption.
  - apply in_radius_neighbors. auto.
  - apply in_radius_neighbors. rewrite cosine_distances_sym. auto.
  - simpl. rewrite !nth_error_repeat by assumption. reflexivity.
Qed.

(** X14.  Two core samples within [eps] of each other always get the same
    cluster number. *)
Theorem core_neighbors_share_cluster (X : matrix) (eps : R)
    (min_samples a b : nat) :
  0 < eps -> (1 <= min_samples)%nat ->
  nth a (core_samples X eps min_samples) false = true ->
  nth b (core_samples X eps min_samples) false = true ->
  cosine_distances false X a b <= eps ->
  exists labels l,
    fit_predict X eps min_samples = Ok labels
    /\ nth_error labels a = Some l /\ nth_error labels b = Some l
    /\ (0 <= l)%Z.
Proof. exact (core_pair_labels X eps min_samples a b). Qed.

Lemma unit_row_nonzero : ~ zero_vector [1; 0].
Proof. intros H. inversion H. lra. Qed.

Lemma unit_row_nonzero' : ~ zero_vector [0; 1].
Proof. intros H. inversion H as [|? ? _ H']. inversion H'. lra. Qed.

Lemma two_unit_rows_core eps i :
  0 <= eps -> (i < 2)%nat -> nth i (core_samples two_unit_rows eps 1) false = true.
Proof.
  intros He Hi. apply self_neighbor_core; [exact Hi|].
  rewrite cosine_distances_self; [exact He|].
  destruct i as [|[|i]]; [exact unit_row_nonzero | exact unit_row_nonzero' | lia].
Qed.

Lemma core_neighbors_share_cluster_witness :
  exists labels l,
    fit_predict two_unit_rows (3/2) 1 = Ok labels
    /\ nth_error labels 0 = Some l /\ nth_error labels 1 = Some l
    /\ (0 <= l)%Z.
Proof.
  apply (core_neighbors_share_cluster two_unit_rows (3/2) 1 0 1).
  - lra.
  - lia.
  - apply two_unit_rows_core; [lra | lia].
  - apply two_unit_rows_core; [lra | lia].
  - rewrite (proj1 (two_unit_rows_distance false)). lra.
Defined.

(** *** Documents with the same row *)

Lemma filter_all {A} (f : A -> bool) l :
  (forall x, In x l -> f x = true) -> filter f l = l.
Proof.
  induction l as [|x l IH]; intros H; [reflexivity|]. simpl.
  rewrite (H x (or_introl eq_refl)), IH; [reflexivity|].
  intros y Hy. apply H. now right.
Qed.

Lemma all_equal_repeat {A} (x : A) l n :
  List.length l = n -> (forall i, (i < n)%nat -> nth_error l i = Some x) ->
  l = repeat x n.
Proof.
  revert n. induction l as [|y l IH]; intros [|n] Hl H; try discriminate.
  - reflexivity.
  - simpl. f_equal.
    + specialize (H O ltac:(lia)). simpl in H. now injection H.
    + apply IH; [simpl in Hl; lia|]. intros i Hi.
      apply (H (S i)). lia.
Qed.

Lemma nonneg_rows_one_cluster X eps min_samples :
  nonneg_rows X -> 1 <= eps ->
  (1 <= min_samples <= List.length X)%nat ->
  fit_predict X eps min_samples = Ok (repeat 0%Z (List.length X)).
Proof.
  intros Hnn He Hm.
  assert (Hne : X <> []) by (intros ->; simpl in Hm; lia).
  rewrite (fit_predict_valid X eps min_samples ltac:(lra) ltac:(lia) Hne).
  f_equal.
  set (ic := core_samples X eps min_samples).
  set (nb := radius_neighbors X eps).
  assert (Hnear : forall i j, (i < List.length X)%nat -> (j < List.length X)%nat ->
                              In j (nth i nb [])).
  { intros i j Hi Hj. apply in_radius_neighbors. repeat split; try assumption.
    pose proof (cosine_distances_le_1 false X i j Hnn). lra. }
  assert (Hcore : forall i, (i < List.length X)%nat -> nth i ic false = true).
  { intros i Hi. apply core_samples_spec. split; [exact Hi|].
    unfold radius_neighbors. rewrite nth_map_seq by exact Hi.
    rewrite filter_all, length_seq; [lia|].
    intros j Hj. apply in_seq in Hj. apply Rleb_true.
    pose proof (cosine_distances_le_1 false X i j Hnn). lra. }
  apply all_equal_repeat; [now rewrite dbscan_inner_length, repeat_length|].
  intros i Hi. unfold dbscan_inner. rewrite repeat_length.
  destruct (List.length X) as [|n] eqn:EN; [lia|].
  rewrite <- (grow_first ic nb n (Hcore O ltac:(lia))).
  apply grow_pair.
  - now apply Hcore.
  - apply Hcore. lia.
  - apply Hnear; lia.
  - apply Hnear; lia.
  - cbn [fst]. rewrite !nth_error_repeat by lia. reflexivity.
Qed.

(** X16.  With [eps >= 1] every document of a vectorized corpus is within
    [eps] of every other one, so for [min_samples] up to the number of
    documents they all land in cluster 0. *)
Theorem wide_radius_one_cluster (corpus : list str) (X : matrix) (eps : R)
    (min_samples : nat) :
  fit_transform corpus = Ok X -> 1 <= eps ->
  (1 <= min_samples <= List.length X)%nat ->
  fit_predict X eps min_samples = Ok (repeat 0%Z (List.length X)).
Proof.
  intros HX He Hm. apply nonneg_rows_one_cluster; [|exact He|exact Hm].
  eapply fit_transform_nonneg. exact HX.
Qed.

Lemma wide_radius_one_cluster_witness :
  fit_predict (map (transform_row short_and_long) short_and_long) 1 2
  = Ok (repeat 0%Z 2).
Proof.
  apply (wide_radius_one_cluster short_and_long
           (map (transform_row short_and_long) short_and_long) 1 2).
  - reflexivity.
  - lra.
  - simpl. lia.
Defined.

(** X17.  When [min_samples] exceeds the number of documents there is no
    core sample, and every document is labelled noise. *)
Theorem too_many_min_samples_all_noise (X : matrix) (eps : R)
    (min_samples : nat) :
  0 < eps -> X <> [] -> (List.length X < min_samples)%nat ->
  fit_predict X eps min_samples = Ok (repeat NOISE (List.length X)).
Proof.
  intros He HX Hm.
  rewrite (fit_predict_valid X eps min_samples He ltac:(lia) HX). f_equal.
  assert (Hnone : forall c, nth c (core_samples X eps min_samples) false = false).
  { intros c. destruct (nth c _ false) eqn:C; [|reflexivity].
    apply core_samples_spec in C. destruct C as [Hc C].
    unfold radius_neighbors in C. rewrite nth_map_seq in C by exact Hc.
    pose proof (filter_length_le
                  (fun j => Rleb (cosine_distances false X c j) eps)
                  (seq 0 (List.length X))) as Hf.
    rewrite length_seq in Hf. lia. }
  apply all_equal_repeat; [now rewrite dbscan_inner_length, repeat_length|].
  intros i Hi. unfold dbscan_inner. rewrite repeat_length, grow_untouched.
  - simpl. now apply nth_error_repeat.
  - left. apply Hnone.
  - intros c _ Hc. rewrite Hnone in Hc. discriminate.
Qed.

Lemma too_many_min_samples_all_noise_witness :
  fit_predict two_unit_rows (3/2) 3 = Ok (repeat NOISE 2).
Proof.
  apply (too_many_min_samples_all_noise two_unit_rows (3/2) 3).
  - lra.
  - discriminate.
  - simpl. lia.
Defined.

(** X18.  Being within [eps] is symmetric: a document is in the
    neighbourhood of another exactly when the other is in its own. *)
Theorem neighborhoods_symmetric (X : matrix) (eps : R) (i j : nat) :
  In j (nth i (radius_neighbors X eps) [])
  <-> In i (nth j (radius_neighbors X eps) []).
Proof.
  rewrite !in_radius_neighbors, (cosine_distances_sym false X i j). tauto.
Qed.

End ClusterMore.

(* ===================================================================== *)
(** ** More on the k-distance curve *)
(* ===================================================================== *)

Module NeighborsMore.
Import Vectorizer Metric Neighbors Dbscan.
Import MetricFacts DbscanFacts NeighborsFacts.
Local Open Scope R_scope.

Lemma sorted_nth_le s :
  StronglySorted Rle s ->
  forall p q, (p <= q < List.length s)%nat -> nth p s 0 <= nth q s 0.
Proof.
  induction 1 as [|a l Hs IH Ha]; intros p q Hpq; [simpl in Hpq; lia|].
  destruct q as [|q].
  - assert (p = O) by lia. subst. lra.
  - destruct p as [|p]; simpl.
    + rewrite Forall_forall in Ha. apply Ha, nth_In. simpl in Hpq. lia.
    + apply IH. simpl in Hpq. lia.
Qed.

Lemma count_le_dominated v a b :
  Forall2 Rle a b -> (count_le v b <= count_le v a)%nat.
Proof.
  induction 1 as [|x y a b Hxy _ IH]; [reflexivity|].
  rewrite !count_le_cons.
  destruct (Rleb y v) eqn:Ey, (Rleb x v) eqn:Ex; try lia.
  apply Rleb_true in Ey. apply Rleb_false in Ex. lra.
Qed.

Lemma sort_dominated a b :
  Forall2 Rle a b ->
  forall p, (p < List.length a)%nat -> nth p (sort a) 0 <= nth p (sort b) 0.
Proof.
  intros Hab p Hp.
  pose proof (Forall2_length Hab) as Hlen.
  assert (Hb : kth_smallest (S p) (nth p (sort b) 0) b).
  { eapply kth_smallest_perm; [apply sort_perm|].
    apply sorted_nth_kth; [apply sort_sorted|]. rewrite length_sort. lia. }
  assert (Ha : kth_smallest (S p) (nth p (sort a) 0) a).
  { eapply kth_smallest_perm; [apply sort_perm|].
    apply sorted_nth_kth; [apply sort_sorted|]. now rewrite length_sort. }
  apply (kth_smallest_threshold _ _ _ (nth p (sort b) 0) Ha).
  destruct Hb as (_ & _ & Hb).
  pose proof (count_le_dominated (nth p (sort b) 0) a b Hab). lia.
Qed.

Lemma Forall2_of_nth (a : list R) : forall b,
  List.length a = List.length b ->
  (forall p, (p < List.length a)%nat -> nth p a 0 <= nth p b 0) ->
  Forall2 Rle a b.
Proof.
  induction a as [|x a IH]; intros [|y b] Hlen H; try discriminate;
    constructor.
  - apply (H O). simpl. lia.
  - apply IH; [simpl in Hlen; lia|].
    intros p Hp. apply (H (S p)). simpl. lia.
Qed.

Lemma Forall2_map_seq (f g : nat -> R) l :
  (forall i, In i l -> f i <= g i) -> Forall2 Rle (map f l) (map g l).
Proof.
  induction l as [|i l IH]; intros H; constructor.
  - apply H. now left.
  - apply IH. intros j Hj. apply H. now right.
Qed.

Lemma cosine_distances_range b X i j : 0 <= cosine_distances b X i j <= 2.
Proof.
  unfold cosine_distances. destruct (b && (i =? j)%nat); [lra|].
  apply clip_bounds.
Qed.

Lemma kth_distances_range X k i :
  (1 <= k <= List.length X)%nat -> (i < List.length X)%nat ->
  0 <= nth i (kth_distances X k) 0 <= 2.
Proof.
  intros Hk Hi. unfold kth_distances. rewrite nth_map_seq by exact Hi.
  assert (Hin : In (nth (k - 1) (sort (distances_from X i)) 0)
                   (distances_from X i)).
  { eapply Permutation_in; [apply sort_perm|]. apply nth_In.
    rewrite length_sort, length_distances_from. lia. }
  set (v := nth (k - 1) (sort (distances_from X i)) 0) in *.
  unfold distances_from in Hin. apply in_map_iff in Hin.
  destruct Hin as (j & <- & _). apply cosine_distances_range.
Qed.

Lemma length_kth_distances X k : List.length (kth_distances X k) = List.length X.
Proof. unfold kth_distances. now rewrite length_map, length_seq. Qed.

(** X20.  The curve for [k + 1] lies on or above the curve for [k], point
    by point, and every value plotted is a cosine distance, between 0
    and 2. *)
Theorem curve_rises_with_k (X : matrix) (k : nat) :
  (1 <= k)%nat -> (S k <= List.length X)%nat ->
  exists ds ds',
    plot_k_distance X k = Ok ds
    /\ plot_k_distance X (S k) = Ok ds'
    /\ Forall2 Rle ds ds'
    /\ Forall (fun v => 0 <= v <= 2) ds'.
Proof.
  intros Hk HS.
  exists (sort (kth_distances X k)), (sort (kth_distances X (S k))).
  split; [apply plot_k_distance_ok; lia|].
  split; [apply plot_k_distance_ok; lia|].
  split.
  - apply Forall2_of_nth; [now rewrite !length_sort, !length_kth_distances|].
    intros p Hp. rewrite length_sort in Hp. apply sort_dominated; [|exact Hp].
    unfold kth_distances. apply Forall2_map_seq. intros i Hi.
    apply sorted_nth_le; [apply sort_sorted|].
    rewrite length_sort, length_distances_from. lia.
  - apply (Permutation_Forall (Permutation_sym (sort_perm _))).
    apply Forall_forall. intros v Hv.
    destruct (In_nth _ _ 0 Hv) as (i & Hi & <-).
    rewrite length_kth_distances in Hi.
    apply kth_distances_range; [lia | exact Hi].
Qed.

Lemma curve_rises_with_k_witness :
  exists ds ds',
    plot_k_distance two_unit_rows 1 = Ok ds
    /\ plot_k_distance two_unit_rows 2 = Ok ds'
    /\ Forall2 Rle ds ds'
    /\ Forall (fun v => 0 <= v <= 2) ds'.
Proof.
  apply (curve_rises_with_k two_unit_rows 1).
  - lia.
  - simpl. lia.
Defined.

End NeighborsMore.

(* ===================================================================== *)
(** ** More on the archive and on a whole run *)
(* ===================================================================== *)

Module PipelineMore.
Import Text Normalizer Codec Vectorizer Metric Neighbors Dbscan Pipeline.
Import ProcessFacts MetricFacts DbscanFacts NeighborsFacts VectorizerFacts.
Import PipelineFacts VectorizerMore ClusterMore.
Local Open Scope R_scope.

(** [os.path.join(folder_name, file.name)], as its two components. *)
Definition path (e : ZipEntry) : str * str := (folder e, filename e).

Lemma nth_error_combine_inv {A B} (l : list A) : forall (l' : list B) i a b,
  nth_error (combine l l') i = Some (a, b) ->
  nth_error l i = Some a /\ nth_error l' i = Some b.
Proof.
  induction l as [|x l IH]; intros [|y l'] [|i] a b H; simpl in *;
    try discriminate.
  - injection H as <- <-. now split.
  - now apply IH.
Qed.

Lemma map_fst_combine {A B} (l : list A) : forall (l' : list B),
  map fst (combine l l') = firstn (List.length l') l.
Proof.
  induction l as [|x l IH]; intros [|y l']; simpl; try reflexivity.
  now rewrite IH.
Qed.

Lemma map_snd_combine {A B} (l : list A) : forall (l' : list B),
  map snd (combine l l') = firstn (List.length l) l'.
Proof.
  induction l as [|x l IH]; intros [|y l']; simpl; try reflexivity.
  now rewrite IH.
Qed.

(** X21.  The archive is [zip(processed_files, labels)] written out: it has
    as many members as the shorter of the two lists, in the order of the
    files; a member carries the file's own name and the bytes as they were
    uploaded, not the normalized structure, and its folder is named after
    the label at the same position. *)
Theorem archive_pairs_files_with_labels (pf : list UploadedFile)
    (labels : list Z) :
  List.length (save_clustered_files pf labels)
  = Nat.min (List.length pf) (List.length labels)
  /\ map filename (save_clustered_files pf labels)
     = map name (firstn (List.length labels) pf)
  /\ map content (save_clustered_files pf labels)
     = map getvalue (firstn (List.length labels) pf)
  /\ map folder (save_clustered_files pf labels)
     = map folder_name (firstn (List.length pf) labels).
Proof.
  rewrite save_clustered_files_spec.
  rewrite length_map, length_combine, !map_map.
  rewrite <- (map_fst_combine pf labels), <- (map_snd_combine pf labels).
  rewrite !map_map. repeat split.
Qed.

(** X22.  The members of the archive have pairwise distinct paths exactly
    when no two processed files with the same name are given the same
    label: nothing renames a file on a collision. *)
Theorem archive_paths_distinct_iff (pf : list UploadedFile) (labels : list Z) :
  NoDup (map path (save_clustered_files pf labels))
  <-> forall i j f g label,
        nth_error pf i = Some f -> nth_error pf j = Some g ->
        nth_error labels i = Some label -> nth_error labels j = Some label ->
        name f = name g -> i = j.
Proof.
  split.
  - intros Hnd i j f g label Hf Hg Hi Hj Hname.
    pose proof (proj1 (NoDup_nth_error _) Hnd) as H.
    apply H.
    + apply nth_error_Some. rewrite nth_error_map.
      rewrite (nth_error_save _ _ _ _ _ Hf Hi). discriminate.
    + rewrite !nth_error_map.
      rewrite (nth_error_save _ _ _ _ _ Hf Hi), (nth_error_save _ _ _ _ _ Hg Hj).
      unfold path. cbn. now rewrite Hname.
  - intros H. apply NoDup_nth_error. intros i j Hi Heq.
    apply nth_error_Some in Hi.
    rewrite save_clustered_files_spec in Hi, Heq.
    repeat rewrite nth_error_map in Hi. repeat rewrite nth_error_map in Heq.
    destruct (nth_error (combine pf labels) i) as [[f a]|] eqn:Ei;
      [|now elim Hi].
    destruct (nth_error (combine pf labels) j) as [[g b]|] eqn:Ej;
      [|cbn [option_map] in Heq; discriminate].
    cbn [option_map] in Heq.
    assert (Hpath : path (entry_of (f, a)) = path (entry_of (g, b)))
      by congruence.
    pose proof (f_equal fst Hpath) as Hfolder.
    pose proof (f_equal snd Hpath) as Hname.
    cbn [path entry_of folder filename fst snd] in Hfolder, Hname.
    apply folder_name_inj in Hfolder. subst b.
    apply nth_error_combine_inv in Ei, Ej.
    destruct Ei as [Hf Ha], Ej as [Hg Hb].
    exact (H i j f g a Hf Hg Ha Hb Hname).
Qed.

(** X23.  Two archived files share a folder exactly when they were given
    the same label, and a file labelled noise is archived too, under
    [cluster_-1]. *)
Theorem same_folder_iff_same_label (pf : list UploadedFile) (labels : list Z)
    (i j : nat) (f g : UploadedFile) (a b : Z) :
  nth_error pf i = Some f -> nth_error pf j = Some g ->
  nth_error labels i = Some a -> nth_error labels j = Some b ->
  exists e1 e2,
    nth_error (save_clustered_files pf labels) i = Some e1
    /\ nth_error (save_clustered_files pf labels) j = Some e2
    /\ (folder e1 = folder e2 <-> a = b)
    /\ (a = NOISE -> folder e1 = of_string "cluster_-1").
Proof.
  intros Hf Hg Ha Hb.
  eexists. eexists.
  split; [exact (nth_error_save _ _ _ _ _ Hf Ha)|].
  split; [exact (nth_error_save _ _ _ _ _ Hg Hb)|].
  cbn [folder]. split; [split|].
  - apply folder_name_inj.
  - now intros ->.
  - intros ->. reflexivity.
Qed.

Lemma same_folder_iff_same_label_witness :
  exists e1 e2,
    nth_error (save_clustered_files [file_a; file_b] [NOISE; 0%Z]) 0 = Some e1
    /\ nth_error (save_clustered_files [file_a; file_b] [NOISE; 0%Z]) 1 = Some e2
    /\ (folder e1 = folder e2 <-> NOISE = 0%Z)
    /\ (NOISE = NOISE -> folder e1 = of_string "cluster_-1").
Proof.
  apply (same_folder_iff_same_label [file_a; file_b] [NOISE; 0%Z] 0 1
           file_a file_b NOISE 0%Z); reflexivity.
Defined.

(** *** A whole run *)

(** The run, one stage after the other. *)
Lemma main_unfold files k eps min_samples save :
  main files k eps min_samples save =
  match process_files files with
  | Raise e => ([], Raise e)
  | Ok None => ([], Ok None)
  | Ok (Some (pf, names, X)) =>
      match plot_k_distance X k with
      | Raise e => ([Vectorized], Raise e)
      | Ok _ =>
          match fit_predict X eps min_samples with
          | Raise e => ([Vectorized; KDistancePlotted], Raise e)
          | Ok labels =>
              match visualize_clusters X with
              | Raise e => ([Vectorized; KDistancePlotted; Clustered], Raise e)
              | Ok _ =>
                  if save then
                    ([Vectorized; KDistancePlotted; Clustered; Visualized;
                      Archived],
                     Ok (Some (labels, Some (save_clustered_files pf labels))))
                  else
                    ([Vectorized; KDistancePlotted; Clustered; Visualized],
                     Ok (Some (labels, None)))
              end
          end
      end
  end.
Proof.
  destruct files as [|file files]; [reflexivity|].
  unfold main, main_body, bind_run, lift, done, ret.
  destruct (process_files (file :: files)) as [[[[pf names] X]|]|e];
    try reflexivity.
  destruct (plot_k_distance X k); [|reflexivity].
  destruct (fit_predict X eps min_samples); [|reflexivity].
  destruct (visualize_clusters X); [|reflexivity].
  destruct save; reflexivity.
Qed.

Lemma plot_k_distance_inv (X : matrix) k ds :
  plot_k_distance X k = Ok ds -> (1 <= k <= List.length X)%nat.
Proof.
  unfold plot_k_distance, kneighbors.
  destruct (Nat.eqb_spec k 0); [discriminate|].
  destruct (Nat.eqb_spec (List.length X) 0); [discriminate|].
  destruct (Nat.ltb_spec (List.length X) k); [discriminate|].
  intros _. lia.
Qed.

Lemma plot_k_distance_raises (X : matrix) k :
  (k = 0 \/ List.length X < k)%nat -> X <> [] ->
  exists e, plot_k_distance X k = Raise e.
Proof.
  intros Hk HX. unfold plot_k_distance, kneighbors.
  destruct (Nat.eqb_spec k 0); [eexists; reflexivity|].
  destruct (Nat.eqb_spec (List.length X) 0); [eexists; reflexivity|].
  destruct (Nat.ltb_spec (List.length X) k); [eexists; reflexivity|].
  lia.
Qed.


Lemma visualize_clusters_inv (X : matrix) u :
  visualize_clusters X = Ok u ->
  (2 <= List.length X)%nat /\ (2 <= List.length (nth 0 X []))%nat.
Proof.
  unfold visualize_clusters.
  match goal with
  | |- context [(?n <? 2)%nat] => destruct (Nat.ltb_spec n 2)
  end;
    [discriminate | lia].
Qed.

(** What [process_files] hands on: the files that survive, and their
    matrix, which the vectorizer built from a vocabulary that is not
    empty. *)
Lemma process_files_matrix files pf names (X : matrix) :
  process_files files = Ok (Some (pf, names, X)) ->
  pf = filter survives files /\ pf <> []
  /\ fit_transform (map structure_or_empty pf) = Ok X
  /\ List.length X = List.length pf
  /\ List.length (nth 0 X []) = List.length (vocabulary (map structure_or_empty pf)).
Proof.
  intros H. pose proof (process_files_inv _ _ _ _ H) as (Hpf & Hn & HX).
  rewrite process_files_spec in H. rewrite <- Hpf in H.
  destruct pf as [|f pf]; [discriminate|].
  cbv zeta in H.
  split; [exact Hpf|]. split; [discriminate|].
  unfold fit_transform.
  destruct (vocabulary (map structure_or_empty (f :: pf))) eqn:V;
    [discriminate|].
  split; [now rewrite HX|].
  split; [rewrite HX; now rewrite !length_map|].
  transitivity (List.length (transform_row (map structure_or_empty (f :: pf))
                               (structure_or_empty f)));
    [rewrite HX; reflexivity|].
  now rewrite length_transform_row, V.
Qed.

Lemma process_files_none files :
  process_files files = Ok None <-> filter survives files = [].
Proof.
  rewrite process_files_spec.
  destruct (filter survives files) as [|f pf]; [now split|].
  cbv zeta. destruct (vocabulary _); split; discriminate.
Qed.

Lemma fit_predict_raises (X : matrix) eps min_samples :
  X <> [] ->
  (exists e, fit_predict X eps min_samples = Raise e)
  <-> eps <= 0 \/ min_samples = O.
Proof.
  intros HX. split.
  - intros [e He]. destruct (Rle_dec eps 0) as [|Hpos]; [now left|].
    destruct min_samples as [|m]; [now right|].
    rewrite fit_predict_valid in He; [discriminate | lra | lia | exact HX].
  - intros H. destruct (fit_predict_invalid X eps min_samples H) as [m Hm].
    eexists. exact Hm.
Qed.


(** A run that succeeds: two documents, a radius that takes in
    everything. *)
Example run_succeeds_example :
  main [file_short; file_long] 1 1 2 true
  = ([Vectorized; KDistancePlotted; Clustered; Visualized; Archived],
     Ok (Some ([0; 0]%Z,
               Some (save_clustered_files [file_short; file_long] [0; 0]%Z)))).
Proof.
  set (X := map (transform_row short_and_long) short_and_long).
  assert (Hp : process_files [file_short; file_long]
               = Ok (Some ([file_short; file_long],
                           [of_string "s.txt"; of_string "l.txt"], X)))
    by reflexivity.
  assert (Hf : fit_predict X 1 2 = Ok [0; 0]%Z).
  { apply (nonneg_rows_one_cluster X 1 2); [|lra|simpl; lia].
    apply (fit_transform_nonneg short_and_long). reflexivity. }
  rewrite main_unfold, Hp, Hf.
  rewrite plot_k_distance_ok by (simpl; lia).
  reflexivity.
Qed.

(** X25.  A run in which a single file survives never gets to the end:
    whatever the parameters, it stops with an exception, at the latest in
    the projection to the plane, which needs two rows. *)
Theorem lone_document_run_fails (files : list UploadedFile) (f : UploadedFile)
    (k : nat) (eps : R) (min_samples : nat) (save : bool) :
  filter survives files = [f] ->
  exists e,
    snd (main files k eps min_samples save) = Raise e
    /\ ~ In Visualized (fst (main files k eps min_samples save)).
Proof.
  intros H. rewrite main_unfold.
  destruct (process_files files) as [[[[pf names] X]|]|e] eqn:Hp.
  - pose proof (process_files_matrix _ _ _ _ Hp) as (Hpf & _ & _ & HN & _).
    rewrite H in Hpf. subst pf. cbn [List.length] in HN.
    destruct (plot_k_distance X k);
      [|eexists; split; [reflexivity | simpl; intuition discriminate]].
    destruct (fit_predict X eps min_samples);
      [|eexists; split; [reflexivity | simpl; intuition discriminate]].
    destruct (visualize_clusters X) as [u|] eqn:Hv;
      [|eexists; split; [reflexivity | simpl; intuition discriminate]].
    apply visualize_clusters_inv in Hv. lia.
  - apply process_files_none in Hp. rewrite H in Hp. discriminate.
  - exists e. split; [reflexivity | simpl; tauto].
Qed.

Lemma lone_document_run_fails_witness :
  exists e,
    snd (main [blank_file; file_a] 1 (1/2) 1 true) = Raise e
    /\ ~ In Visualized (fst (main [blank_file; file_a] 1 (1/2) 1 true)).
Proof.
  apply (lone_document_run_fails [blank_file; file_a] file_a 1 (1/2) 1 true).
  reflexivity.
Defined.

(** X26.  The stages of a run.  They are completed in one fixed order, a
    run stopping after any number of them; the archive is written only in
    a run that had the save button pressed and ends with labels; and a
    run ends with nothing clustered and without an exception exactly when
    no uploaded file survives the reading, none of the parameters being
    looked at then. *)
Theorem run_stages (files : list UploadedFile) (k : nat) (eps : R)
    (min_samples : nat) (save : bool) :
  (exists n,
      fst (main files k eps min_samples save)
      = firstn n [Vectorized; KDistancePlotted; Clustered; Visualized;
                  Archived])
  /\ (In Archived (fst (main files k eps min_samples save))
      <-> save = true
          /\ exists labels,
               snd (main files k eps min_samples save)
               = Ok (Some (labels,
                           Some (save_clustered_files (filter survives files)
                                   labels))))
  /\ (snd (main files k eps min_samples save) = Ok None
      <-> filter survives files = [])
  /\ (filter survives files = [] ->
      main files k eps min_samples save = ([], Ok None)).
Proof.
  rewrite main_unfold.
  destruct (process_files files) as [[[[pf names] X]|]|e] eqn:Hp.
  - pose proof (process_files_matrix _ _ _ _ Hp) as (Hpf & Hne & _).
    rewrite <- Hpf.
    assert (Hsome : forall P : Prop, pf = [] -> P) by (intros P E; now elim Hne).
    destruct (plot_k_distance X k).
    2:{ split; [now exists 1%nat|]. split; [|split].
        - simpl. split; [intuition discriminate|].
          intros (_ & ls & Hs). discriminate.
        - simpl. split; [discriminate | apply Hsome].
        - apply Hsome. }
    destruct (fit_predict X eps min_samples) as [labels|].
    2:{ split; [now exists 2%nat|]. split; [|split].
        - simpl. split; [intuition discriminate|].
          intros (_ & ls & Hs). discriminate.
        - simpl. split; [discriminate | apply Hsome].
        - apply Hsome. }
    destruct (visualize_clusters X).
    2:{ split; [now exists 3%nat|]. split; [|split].
        - simpl. split; [intuition discriminate|].
          intros (_ & ls & Hs). discriminate.
        - simpl. split; [discriminate | apply Hsome].
        - apply Hsome. }
    destruct save.
    + split; [now exists 5%nat|]. split; [|split].
      * simpl. split; [|tauto]. intros _. split; [reflexivity|].
        now exists labels.
      * simpl. split; [discriminate | apply Hsome].
      * apply Hsome.
    + split; [now exists 4%nat|]. split; [|split].
      * simpl. split; [intuition discriminate|].
        intros (Hs & _). discriminate.
      * simpl. split; [discriminate | apply Hsome].
      * apply Hsome.
  - apply process_files_none in Hp.
    split; [now exists 0%nat|]. split; [|split].
    + simpl. split; [tauto|]. intros (_ & ls & Hs). discriminate.
    + simpl. now split.
    + reflexivity.
  - assert (Hne : filter survives files <> []).
    { intros E. apply process_files_none in E. rewrite E in Hp. discriminate. }
    split; [now exists 0%nat|]. split; [|split].
    + simpl. split; [tauto|]. intros (_ & ls & Hs). discriminate.
    + simpl. split; [discriminate | intros E; now elim Hne].
    + intros E. now elim Hne.
Qed.

(** X27.  Which parameter stops a run.  Once the files are vectorized, the
    run stops right after the vectorization exactly when [k] is 0 or
    exceeds the number of surviving files, whatever [eps] and
    [min_samples] are; it stops after the k-distance computation exactly
    when [k] is in range and [eps <= 0] or [min_samples = 0]. *)
Theorem parameter_errors_in_order (files pf : list UploadedFile)
    (names : list str) (X : matrix) (k : nat) (eps : R) (min_samples : nat)
    (save : bool) :
  process_files files = Ok (Some (pf, names, X)) ->
  ((exists e, main files k eps min_samples save = ([Vectorized], Raise e))
   <-> (k = 0 \/ List.length pf < k)%nat)
  /\ ((exists e, main files k eps min_samples save
                 = ([Vectorized; KDistancePlotted], Raise e))
      <-> (1 <= k <= List.length pf)%nat /\ (eps <= 0 \/ min_samples = O)).
Proof.
  intros Hp. rewrite main_unfold, Hp.
  pose proof (process_files_matrix _ _ _ _ Hp) as (_ & Hne & _ & HN & _).
  assert (HX : X <> []) by (intros ->; destruct pf; [now elim Hne|discriminate]).
  destruct (plot_k_distance X k) as [ds|ek] eqn:Hk.
  - apply plot_k_distance_inv in Hk.
    pose proof (fit_predict_raises X eps min_samples HX) as Hr.
    destruct (fit_predict X eps min_samples) as [labels|ef].
    + assert (Hgood : ~ (eps <= 0 \/ min_samples = O)).
      { intros Hbad. apply Hr in Hbad. destruct Hbad as [e He]. discriminate. }
      split; split.
      * intros [e He].
        destruct (visualize_clusters X); [destruct save|]; discriminate.
      * lia.
      * intros [e He].
        destruct (visualize_clusters X); [destruct save|]; discriminate.
      * tauto.
    + split; split.
      * intros [e He]. discriminate.
      * lia.
      * intros _. split; [lia|]. apply Hr. now exists ef.
      * intros _. now exists ef.
  - assert (Hbad : (k = 0 \/ List.length pf < k)%nat).
    { destruct (Nat.eq_dec k 0) as [|Hk0]; [now left|]. right.
      destruct (Nat.le_gt_cases k (List.length pf)) as [Hle|]; [|assumption].
      rewrite plot_k_distance_ok in Hk by lia. discriminate. }
    split; split.
    + intros _. exact Hbad.
    + intros _. now exists ek.
    + intros [e He]. discriminate.
    + lia.
Qed.

Lemma parameter_errors_in_order_witness :
  ((exists e, main uploads 3 0 0 true = ([Vectorized], Raise e))
   <-> (3 = 0 \/ List.length [file_a; file_b] < 3)%nat)
  /\ ((exists e, main uploads 3 0 0 true
                 = ([Vectorized; KDistancePlotted], Raise e))
      <-> (1 <= 3 <= List.length [file_a; file_b])%nat /\ (0 <= 0 \/ O = O)).
Proof.
  apply (parameter_errors_in_order uploads [file_a; file_b]
           [of_string "a.txt"; of_string "b.txt"] X_ab 3 0 0 true).
  reflexivity.
Defined.

End PipelineMore.
